(** * Debt payoff planner: the payoff simulation engine

    A shallow embedding of [debt_calculator.py] and of the engine part of
    [debt_app_streamlit.py], followed by the properties of the engine.

    - Python's [float] is abstracted by the class [Number].  It has two
      instances: [binary64] (IEEE 754 double precision, the arithmetic the
      interpreter really performs, through Rocq's primitive floats) and
      [exact] (the rationals [Q], the arithmetic the algorithm is designed
      for).  Every definition is written once, over the class.
    - [Card] objects live in a store ([heap]); a Python list of cards is a
      list of locations, so that aliasing, in-place mutation and
      [copy.deepcopy] are what they are in the interpreter.
    - Code that can raise returns a [completion]; the store is threaded
      explicitly, so the store at the moment an exception leaves a function
      is part of its result.
    - The [while] loops run on fuel; the entry points supply
      [max_months + 1] units and are shown never to run out. *)

From Stdlib Require Import ZArith QArith Qabs Lqa Lia Floats Sorted.
From stdpp Require Import base option list strings gmap.

Set Default Proof Using "Type".
Local Open Scope Z_scope.

(** ** Numbers *)

(** The operations the engine applies to [float] values.  [num_quot] is the
    quotient for a divisor that is not zero; Python's [/] tests the divisor
    first ([py_div] below). *)
Class Number (F : Type) := {
  num_zero : F;
  num_hundred : F;
  num_twelve : F;
  num_add : F -> F -> F;
  num_sub : F -> F -> F;
  num_mul : F -> F -> F;
  num_quot : F -> F -> F;
  num_neg : F -> F;
  num_ltb : F -> F -> bool;
  num_leb : F -> F -> bool;
  num_eqb : F -> F -> bool
}.

#[global] Instance binary64 : Number float := {|
  num_zero := 0%float;
  num_hundred := 100%float;
  num_twelve := 12%float;
  num_add := PrimFloat.add;
  num_sub := PrimFloat.sub;
  num_mul := PrimFloat.mul;
  num_quot := PrimFloat.div;
  num_neg := PrimFloat.opp;
  num_ltb := PrimFloat.ltb;
  num_leb := PrimFloat.leb;
  num_eqb := PrimFloat.eqb
|}.

#[global] Instance exact : Number Q := {|
  num_zero := 0%Q;
  num_hundred := 100%Q;
  num_twelve := 12%Q;
  num_add := Qplus;
  num_sub := Qminus;
  num_mul := Qmult;
  num_quot := Qdiv;
  num_neg := Qopp;
  num_ltb := fun x y => negb (Qle_bool y x);
  num_leb := Qle_bool;
  num_eqb := Qeq_bool
|}.

(** ** Exceptions and completions *)

Inductive exn :=
  | ValueError (msg : string)
  | KeyError (key : string)
  | ZeroDivisionError.

Inductive completion (A : Type) :=
  | Normal (a : A)
  | Raise (e : exn).
Arguments Normal {A} a.
Arguments Raise {A} e.

(** ** Cards and the store *)

Record Card (F : Type) := mkCard {
  name : string;
  balance : F;
  apr : F
}.
Arguments mkCard {F} name balance apr.
Arguments name {F} c.
Arguments balance {F} c.
Arguments apr {F} c.

Abbreviation loc := nat.

(** The store: the object at location [l] is the [l]-th element. *)
Abbreviation heap F := (list (Card F)).

Section Engine.
Context {F : Type} `{Number F}.

(** A reference held by a Python list always points to a live object:
    the default below, and the silence of [alter] out of range, are
    never reached from a list of allocated locations. *)
Definition load (h : heap F) (l : loc) : Card F :=
  default (mkCard ""%string num_zero num_zero) (h !! l).

(** [c.balance = v] *)
Definition store_balance (h : heap F) (l : loc) (v : F) : heap F :=
  alter (fun c => mkCard (name c) v (apr c)) l h.

(** [min(a, b)] and [max(a, b)] of the interpreter: the first argument is
    kept unless the second is strictly better. *)
Definition py_min (a b : F) : F := if num_ltb b a then b else a.
Definition py_max (a b : F) : F := if num_ltb a b then b else a.

(** [a / b] on floats: a zero divisor raises. *)
Definition py_div (a b : F) : completion F :=
  if num_eqb b num_zero then Raise ZeroDivisionError
  else Normal (num_quot a b).

(** [sum(xs)]: the fold from the left, starting at 0.  (Interpreters from
    3.12 on add floats with a compensation term; for up to two summands the
    float is the same, and the binary64 scenarios below have at most two
    cards.  In exact arithmetic there is no difference.) *)
Definition py_sum (xs : list F) : F := foldl num_add num_zero xs.

(** [(a1, b1) < (a2, b2)] on tuples of floats: the first differing
    component decides. *)
Definition key_lt (k1 k2 : F * F) : bool :=
  if negb (num_eqb (fst k1) (fst k2)) then num_ltb (fst k1) (fst k2)
  else if negb (num_eqb (snd k1) (snd k2)) then num_ltb (snd k1) (snd k2)
  else false.

(** [list.sort(key=...)] is stable: an element moves in front of an
    earlier one only if it is strictly smaller. *)
Fixpoint insert_sorted {A} (lt : A -> A -> bool) (x : A) (l : list A)
  : list A :=
  match l with
  | [] => [x]
  | y :: l' => if lt y x then y :: insert_sorted lt x l' else x :: y :: l'
  end.

Fixpoint stable_sort {A} (lt : A -> A -> bool) (l : list A) : list A :=
  match l with
  | [] => []
  | x :: l' => insert_sorted lt x (stable_sort lt l')
  end.

(** The keys are computed once per element, then the list is sorted. *)
Definition sort_by_key (key : Card F -> F * F) (h : heap F) (ls : list loc)
  : list loc :=
  snd <$> stable_sort (fun a b => key_lt (fst a) (fst b))
            ((fun l => (key (load h l), l)) <$> ls).

(** [copy.deepcopy(cards)]: a new object per distinct card, [memo] maps
    the identity of an object already copied to its copy. *)
Fixpoint deepcopy_cards (memo : gmap loc loc) (cards : list loc) (h : heap F)
  : heap F * list loc :=
  match cards with
  | [] => (h, [])
  | l :: rest =>
      match memo !! l with
      | Some l' =>
          let '(h', rest') := deepcopy_cards memo rest h in
          (h', l' :: rest')
      | None =>
          let l' := length h in
          let c := load h l in
          let '(h', rest') :=
            deepcopy_cards (<[l := l']> memo) rest
              (h ++ [mkCard (name c) (balance c) (apr c)]) in
          (h', l' :: rest')
      end
  end.

Definition deepcopy (cards : list loc) (h : heap F) : heap F * list loc :=
  deepcopy_cards ∅ cards h.

(** A dict with insertion order: assigning to a present key keeps the
    key's place. *)
Fixpoint dict_set {V} (k : string) (v : V) (d : list (string * V))
  : list (string * V) :=
  match d with
  | [] => [(k, v)]
  | (k', v') :: d' =>
      if String.eqb k' k then (k', v) :: d' else (k', v') :: dict_set k v d'
  end.

(** *** Functions shared by the two source files *)

Definition monthly_rate (apr_percent : F) : F :=
  num_quot (num_quot apr_percent num_hundred) num_twelve.

Definition total_balance (cards : list loc) (h : heap F) : F :=
  py_sum ((fun l => balance (load h l)) <$> cards).

(** The accrual loop.  [acc] is the variable the interest is added to:
    [month_interest] in [debt_calculator.py], [total_interest_paid]
    itself in [debt_app_streamlit.py]. *)
Fixpoint accrue_interest (cards : list loc) (epsilon : F) (acc : F)
    (h : heap F) : heap F * F :=
  match cards with
  | [] => (h, acc)
  | l :: rest =>
      let c := load h l in
      if num_ltb epsilon (balance c) then
        let intr := num_mul (balance c) (monthly_rate (apr c)) in
        accrue_interest rest epsilon (num_add acc intr)
          (store_balance h l (num_add (balance c) intr))
      else accrue_interest rest epsilon acc h
  end.

(** [[c for c in cards if c.balance > epsilon]] *)
Definition active_cards (cards : list loc) (epsilon : F) (h : heap F)
  : list loc :=
  filter (fun l => num_ltb epsilon (balance (load h l)) = true) cards.

Definition avalanche_key (c : Card F) : F * F := (num_neg (apr c), balance c).
Definition snowball_key (c : Card F) : F * F := (balance c, num_neg (apr c)).

(** The payment walk of avalanche and snowball.  Besides the store and
    the budget left, it returns the successive values of the local
    variable [pay], with the card each was applied to. *)
Fixpoint pay_in_order (active : list loc) (epsilon : F)
    (remaining_budget : F) (h : heap F) : heap F * F * list (loc * F) :=
  match active with
  | [] => (h, remaining_budget, [])
  | l :: rest =>
      if num_leb remaining_budget epsilon then (h, remaining_budget, [])
      else
        let c := load h l in
        let pay := py_min (balance c) remaining_budget in
        let '(h', r', tr) :=
          pay_in_order rest epsilon (num_sub remaining_budget pay)
            (store_balance h l (num_sub (balance c) pay)) in
        (h', r', (l, pay) :: tr)
  end.

(** The payment walk of proportional, with the same record of [pay]. *)
Fixpoint pay_proportional (active : list loc) (remaining_budget : F)
    (total_bal : F) (h : heap F) : heap F * completion (list (loc * F)) :=
  match active with
  | [] => (h, Normal [])
  | l :: rest =>
      let c := load h l in
      match py_div (balance c) total_bal with
      | Raise e => (h, Raise e)
      | Normal q =>
          let share := num_mul remaining_budget q in
          let pay := py_min (balance c) share in
          match pay_proportional rest remaining_budget total_bal
                  (store_balance h l (num_sub (balance c) pay)) with
          | (h', Normal tr) => (h', Normal ((l, pay) :: tr))
          | (h', Raise e) => (h', Raise e)
          end
      end
  end.

(** [{c.name: max(0.0, c.balance) for c in cards}] *)
Definition display_balances (cards : list loc) (h : heap F)
  : list (string * F) :=
  foldl (fun d l => dict_set (name (load h l))
                      (py_max num_zero (balance (load h l))) d) [] cards.

End Engine.

(** ** [debt_calculator.py] *)

Module Calculator.

(** One entry of [history]. *)
Record snapshot (F : Type) := mkSnapshot {
  snap_month : Z;
  snap_interest : F;
  snap_total_interest_to_date : F;
  snap_balances : list (string * F);
  snap_total_balance : F
}.
Arguments mkSnapshot {F}.
Arguments snap_month {F}.
Arguments snap_interest {F}.
Arguments snap_total_interest_to_date {F}.
Arguments snap_balances {F}.
Arguments snap_total_balance {F}.

(** The dict a simulation returns.  The keys that only one of the two
    [return] statements sets are options. *)
Record result (F : Type) := mkResult {
  paid_off : bool;
  months : Z;
  total_interest : F;
  reason : option string;
  res_monthly_budget : option F;
  res_strategy : option string;
  res_monthly_payments : option (list (string * F));
  history : list (snapshot F)
}.
Arguments mkResult {F}.
Arguments paid_off {F}.
Arguments months {F}.
Arguments total_interest {F}.
Arguments reason {F}.
Arguments res_monthly_budget {F}.
Arguments res_strategy {F}.
Arguments res_monthly_payments {F}.
Arguments history {F}.

(** How one pass through the body of the [while] loop ends. *)
Inductive cycle (F : Type) :=
  | Continue (total_interest_paid : F) (history : list (snapshot F))
  | Break (total_interest_paid : F) (history : list (snapshot F))
  | Raised (e : exn).
Arguments Continue {F}.
Arguments Break {F}.
Arguments Raised {F}.

(** What [compare_budgets] hands to the format string of one table line:
    the values of a paid-off run, or the reason of a run that is not. *)
Inductive report_row (F : Type) :=
  | PaidRow (budget : F) (months : Z) (total_interest total_paid : F)
  | NotPaidRow (budget : F) (reason : option string).
Arguments PaidRow {F}.
Arguments NotPaidRow {F}.

Section Defs.
Context {F : Type} `{Number F}.

Fixpoint pay_first_match (cards : list loc) (card_name : string)
    (amount : F) (h : heap F) : heap F * bool :=
  match cards with
  | [] => (h, false)
  | l :: rest =>
      let c := load h l in
      if String.eqb (name c) card_name then
        (store_balance h l (py_max num_zero (num_sub (balance c) amount)),
         true)
      else pay_first_match rest card_name amount h
  end.

Definition apply_one_time_payment (cards : list loc) (card_name : string)
    (amount : F) (h : heap F) : heap F * completion unit :=
  if num_ltb amount num_zero then
    (h, Raise (ValueError "Payment amount must be >= 0"))
  else
    let '(h', found) := pay_first_match cards card_name amount h in
    if found then (h', Normal tt) else (h', Raise (KeyError card_name)).

(** The [sort] of the active list; an unknown strategy raises here. *)
Definition payoff_order (strategy : string) (active : list loc)
    (h : heap F) : completion (list loc) :=
  if String.eqb strategy "avalanche" then
    Normal (sort_by_key avalanche_key h active)
  else if String.eqb strategy "snowball" then
    Normal (sort_by_key snowball_key h active)
  else if String.eqb strategy "proportional" then Normal active
  else Raise (ValueError
                "strategy must be one of: avalanche, snowball, proportional").

(** The second walk, taken when budget is left after the first. *)
Definition second_pass (strategy : string) (cards : list loc)
    (epsilon : F) (remaining_budget : F) (h : heap F)
  : heap F * F * list (loc * F) :=
  if num_ltb epsilon remaining_budget then
    let active2 := active_cards cards epsilon h in
    let active2 :=
      if String.eqb strategy "avalanche"
      then sort_by_key avalanche_key h active2
      else sort_by_key snowball_key h active2 in
    pay_in_order active2 epsilon remaining_budget h
  else (h, remaining_budget, []).

(** Step 2 of the month for avalanche and snowball, on the sorted
    active list. *)
Definition allocate_in_order (strategy : string) (cards active : list loc)
    (epsilon : F) (monthly_budget : F) (h : heap F)
  : heap F * F * list (loc * F) :=
  let '(h1, r1, tr1) := pay_in_order active epsilon monthly_budget h in
  let '(h2, r2, tr2) := second_pass strategy cards epsilon r1 h1 in
  (h2, r2, tr1 ++ tr2).

Definition record_snapshot (cards : list loc) (months : Z)
    (month_interest total_interest_paid : F) (h : heap F) : snapshot F :=
  mkSnapshot months month_interest total_interest_paid
    (display_balances cards h) (total_balance cards h).

(** The body of the [while] loop of [simulate_payoff_total_budget],
    from the accrual on; [months] is already incremented. *)
Definition month_cycle (cards : list loc) (monthly_budget : F)
    (strategy : string) (epsilon : F) (months : Z)
    (total_interest_paid : F) (history : list (snapshot F)) (h : heap F)
  : heap F * cycle F :=
  let '(h1, month_interest) := accrue_interest cards epsilon num_zero h in
  let total_interest_paid := num_add total_interest_paid month_interest in
  let active := active_cards cards epsilon h1 in
  match payoff_order strategy active h1 with
  | Raise e => (h1, Raised e)
  | Normal active =>
      if String.eqb strategy "proportional" then
        let total_bal := py_sum ((fun l => balance (load h1 l)) <$> active) in
        if num_leb total_bal epsilon then
          (h1, Break total_interest_paid history)
        else
          match pay_proportional active monthly_budget total_bal h1 with
          | (h2, Raise e) => (h2, Raised e)
          | (h2, Normal _) =>
              (h2, Continue total_interest_paid
                     (history ++ [record_snapshot cards months month_interest
                                    total_interest_paid h2]))
          end
      else
        let '(h2, _, _) :=
          allocate_in_order strategy cards active epsilon monthly_budget h1 in
        (h2, Continue total_interest_paid
               (history ++ [record_snapshot cards months month_interest
                              total_interest_paid h2]))
  end.

Definition budget_cap_result (months : Z) (total_interest_paid : F)
    (history : list (snapshot F)) : result F :=
  mkResult false months total_interest_paid
    (Some "Hit max_months (budget may be too low)."%string)
    None None None history.

Definition budget_paid_result (months : Z) (total_interest_paid : F)
    (monthly_budget : F) (strategy : string)
    (history : list (snapshot F)) : result F :=
  mkResult true months total_interest_paid None
    (Some monthly_budget) (Some strategy) None history.

(** The [while] loop.  [None] is the loop out of fuel. *)
Fixpoint budget_loop (fuel : nat) (cards : list loc) (monthly_budget : F)
    (strategy : string) (max_months : Z) (epsilon : F) (months : Z)
    (total_interest_paid : F) (history : list (snapshot F)) (h : heap F)
  : heap F * option (completion (result F)) :=
  match fuel with
  | O => (h, None)
  | S fuel' =>
      if num_ltb epsilon (total_balance cards h) then
        let months := months + 1 in
        if months >? max_months then
          (h, Some (Normal (budget_cap_result months total_interest_paid
                              history)))
        else
          match month_cycle cards monthly_budget strategy epsilon months
                  total_interest_paid history h with
          | (h', Raised e) => (h', Some (Raise e))
          | (h', Break tip hist) =>
              (h', Some (Normal (budget_paid_result months tip
                                   monthly_budget strategy hist)))
          | (h', Continue tip hist) =>
              budget_loop fuel' cards monthly_budget strategy max_months
                epsilon months tip hist h'
          end
      else
        (h, Some (Normal (budget_paid_result months total_interest_paid
                            monthly_budget strategy history)))
  end.

Definition simulate_payoff_total_budget (cards : list loc)
    (monthly_budget : F) (strategy : string) (max_months : Z)
    (epsilon : F) (h : heap F)
  : heap F * option (completion (result F)) :=
  if num_leb monthly_budget num_zero then
    (h, Some (Raise (ValueError "monthly_budget must be > 0")))
  else
    let '(h0, cards) := deepcopy cards h in
    budget_loop (S (Z.to_nat max_months)) cards monthly_budget strategy
      max_months epsilon 0 num_zero [] h0.

(** [{c.name: c for c in cards}]: the last card of a name wins. *)
Definition name_to_card (cards : list loc) (h : heap F)
  : gmap string loc :=
  foldl (fun d l => <[name (load h l) := l]> d) ∅ cards.

(** The validation loop over [monthly_payments.items()]. *)
Fixpoint check_payments (monthly_payments : list (string * F))
  : completion unit :=
  match monthly_payments with
  | [] => Normal tt
  | (k, v) :: rest =>
      if num_ltb v num_zero then
        Raise (ValueError ("Payment for " ++ k ++ " must be >= 0"))
      else check_payments rest
  end.

(** The payment loop of the manual simulation. *)
Fixpoint apply_payments_manual (monthly_payments : list (string * F))
    (by_name : gmap string loc) (epsilon : F) (h : heap F)
  : heap F * completion unit :=
  match monthly_payments with
  | [] => (h, Normal tt)
  | (nm, pay_amt) :: rest =>
      match by_name !! nm with
      | None => (h, Raise (KeyError nm))
      | Some l =>
          let c := load h l in
          if num_ltb epsilon (balance c) && num_ltb num_zero pay_amt then
            let pay := py_min (balance c) pay_amt in
            apply_payments_manual rest by_name epsilon
              (store_balance h l (num_sub (balance c) pay))
          else apply_payments_manual rest by_name epsilon h
      end
  end.

Definition manual_cycle (cards : list loc)
    (monthly_payments : list (string * F)) (by_name : gmap string loc)
    (epsilon : F) (months : Z) (total_interest_paid : F)
    (history : list (snapshot F)) (h : heap F)
  : heap F * completion (F * list (snapshot F)) :=
  let '(h1, month_interest) := accrue_interest cards epsilon num_zero h in
  let total_interest_paid := num_add total_interest_paid month_interest in
  match apply_payments_manual monthly_payments by_name epsilon h1 with
  | (h2, Raise e) => (h2, Raise e)
  | (h2, Normal _) =>
      (h2, Normal (total_interest_paid,
                   history ++ [record_snapshot cards months month_interest
                                 total_interest_paid h2]))
  end.

Definition manual_cap_result (months : Z) (total_interest_paid : F)
    (history : list (snapshot F)) : result F :=
  mkResult false months total_interest_paid
    (Some "Hit max_months (payments may be too low)."%string)
    None None None history.

Definition manual_paid_result (months : Z) (total_interest_paid : F)
    (monthly_payments : list (string * F))
    (history : list (snapshot F)) : result F :=
  mkResult true months total_interest_paid None None None
    (Some monthly_payments) history.

Fixpoint manual_loop (fuel : nat) (cards : list loc)
    (monthly_payments : list (string * F)) (by_name : gmap string loc)
    (max_months : Z) (epsilon : F) (months : Z) (total_interest_paid : F)
    (history : list (snapshot F)) (h : heap F)
  : heap F * option (completion (result F)) :=
  match fuel with
  | O => (h, None)
  | S fuel' =>
      if num_ltb epsilon (total_balance cards h) then
        let months := months + 1 in
        if months >? max_months then
          (h, Some (Normal (manual_cap_result months total_interest_paid
                              history)))
        else
          match manual_cycle cards monthly_payments by_name epsilon months
                  total_interest_paid history h with
          | (h', Raise e) => (h', Some (Raise e))
          | (h', Normal (tip, hist)) =>
              manual_loop fuel' cards monthly_payments by_name max_months
                epsilon months tip hist h'
          end
      else
        (h, Some (Normal (manual_paid_result months total_interest_paid
                            monthly_payments history)))
  end.

Definition simulate_payoff_manual_payments (cards : list loc)
    (monthly_payments : list (string * F)) (max_months : Z)
    (epsilon : F) (h : heap F)
  : heap F * option (completion (result F)) :=
  let '(h0, cards) := deepcopy cards h in
  match check_payments monthly_payments with
  | Raise e => (h0, Some (Raise e))
  | Normal _ =>
      manual_loop (S (Z.to_nat max_months)) cards monthly_payments
        (name_to_card cards h0) max_months epsilon 0 num_zero [] h0
  end.

(** [apply_payments]: the one-time payments of a dict, in its order. *)
Fixpoint apply_payments (cards : list loc) (payments : list (string * F))
    (h : heap F) : heap F * completion unit :=
  match payments with
  | [] => (h, Normal tt)
  | (card_name, amt) :: rest =>
      match apply_one_time_payment cards card_name amt h with
      | (h', Normal _) => apply_payments cards rest h'
      | (h', Raise e) => (h', Raise e)
      end
  end.

(** The table line of one budget, from the result of its simulation;
    [principal] is [sum(c.balance for c in cards)] after the call. *)
Definition report_line (monthly_budget : F) (res : result F) (principal : F)
  : report_row F :=
  if negb (paid_off res) then NotPaidRow monthly_budget (reason res)
  else PaidRow monthly_budget (months res) (total_interest res)
         (num_add principal (total_interest res)).

(** [compare_budgets]: the loop over the budgets.  The printed table is
    the list of its lines (the header and the rules are constant text);
    each simulation runs with the defaults, [max_months = 2000] and the
    [epsilon] of the signature, here [default_epsilon].  [None] stands, as
    in the simulation, for a loop out of fuel. *)
Fixpoint compare_budgets (default_epsilon : F) (cards : list loc)
    (budgets : list F) (strategy : string) (h : heap F)
  : heap F * list (report_row F) * option (completion unit) :=
  match budgets with
  | [] => (h, [], Some (Normal tt))
  | b :: rest =>
      match simulate_payoff_total_budget cards b strategy 2000
              default_epsilon h with
      | (h1, None) => (h1, [], None)
      | (h1, Some (Raise e)) => (h1, [], Some (Raise e))
      | (h1, Some (Normal res)) =>
          let '(h2, rows, c) :=
            compare_budgets default_epsilon cards rest strategy h1 in
          (h2, report_line b res (total_balance cards h1) :: rows, c)
      end
  end.

End Defs.
End Calculator.

(** ** [debt_app_streamlit.py]: the engine *)

Module Streamlit.

(** The dict the simulation of this file returns: no history. *)
Record result (F : Type) := mkResult {
  paid_off : bool;
  months : Z;
  total_interest : F;
  reason : option string
}.
Arguments mkResult {F}.
Arguments paid_off {F}.
Arguments months {F}.
Arguments total_interest {F}.
Arguments reason {F}.

Inductive cycle (F : Type) :=
  | Continue (total_interest_paid : F)
  | Break (total_interest_paid : F)
  | Raised (e : exn).
Arguments Continue {F}.
Arguments Break {F}.
Arguments Raised {F}.

(** How the handler of the "Save cards" button ends: the list it hands to
    [save_meta], or one of its two error messages followed by [st.stop()]. *)
Inductive save_outcome (F : Type) :=
  | Saved (cleaned : list (string * F))
  | DuplicateNickname (nickname : string)
  | NoCards.
Arguments Saved {F}.
Arguments DuplicateNickname {F}.
Arguments NoCards {F}.

Section Defs.
Context {F : Type} `{Number F}.

(** Here the loop returns at the match; a loop that ends raises. *)
Fixpoint apply_one_time_payment_loop (cards : list loc)
    (card_name : string) (amount : F) (h : heap F)
  : heap F * completion unit :=
  match cards with
  | [] => (h, Raise (KeyError card_name))
  | l :: rest =>
      let c := load h l in
      if String.eqb (name c) card_name then
        (store_balance h l (py_max num_zero (num_sub (balance c) amount)),
         Normal tt)
      else apply_one_time_payment_loop rest card_name amount h
  end.

Definition apply_one_time_payment (cards : list loc) (card_name : string)
    (amount : F) (h : heap F) : heap F * completion unit :=
  if num_ltb amount num_zero then
    (h, Raise (ValueError "Payment amount must be >= 0"))
  else apply_one_time_payment_loop cards card_name amount h.

(** The body of the [while] loop, from the accrual on. *)
Definition month_cycle (cards : list loc) (monthly_budget : F)
    (strategy : string) (epsilon : F) (total_interest_paid : F)
    (h : heap F) : heap F * cycle F :=
  let '(h1, total_interest_paid) :=
    accrue_interest cards epsilon total_interest_paid h in
  let remaining := monthly_budget in
  let active := active_cards cards epsilon h1 in
  if String.eqb strategy "avalanche" then
    let '(h2, _, _) :=
      pay_in_order (sort_by_key avalanche_key h1 active) epsilon
        remaining h1 in
    (h2, Continue total_interest_paid)
  else if String.eqb strategy "snowball" then
    let '(h2, _, _) :=
      pay_in_order (sort_by_key snowball_key h1 active) epsilon
        remaining h1 in
    (h2, Continue total_interest_paid)
  else if String.eqb strategy "proportional" then
    let total_bal := py_sum ((fun l => balance (load h1 l)) <$> active) in
    if num_leb total_bal epsilon then (h1, Break total_interest_paid)
    else
      match pay_proportional active remaining total_bal h1 with
      | (h2, Raise e) => (h2, Raised e)
      | (h2, Normal _) => (h2, Continue total_interest_paid)
      end
  else (h1, Raised (ValueError "Unknown strategy")).

Definition cap_result (months : Z) (total_interest_paid : F) : result F :=
  mkResult false months total_interest_paid
    (Some "Hit max_months (budget may be too low)."%string).

Definition paid_result (months : Z) (total_interest_paid : F) : result F :=
  mkResult true months total_interest_paid None.

Fixpoint budget_loop (fuel : nat) (cards : list loc) (monthly_budget : F)
    (strategy : string) (max_months : Z) (epsilon : F) (months : Z)
    (total_interest_paid : F) (h : heap F)
  : heap F * option (completion (result F)) :=
  match fuel with
  | O => (h, None)
  | S fuel' =>
      if num_ltb epsilon (total_balance cards h) then
        let months := months + 1 in
        if months >? max_months then
          (h, Some (Normal (cap_result months total_interest_paid)))
        else
          match month_cycle cards monthly_budget strategy epsilon
                  total_interest_paid h with
          | (h', Raised e) => (h', Some (Raise e))
          | (h', Break tip) => (h', Some (Normal (paid_result months tip)))
          | (h', Continue tip) =>
              budget_loop fuel' cards monthly_budget strategy max_months
                epsilon months tip h'
          end
      else (h, Some (Normal (paid_result months total_interest_paid)))
  end.

Definition simulate_payoff_total_budget (cards : list loc)
    (monthly_budget : F) (strategy : string) (max_months : Z)
    (epsilon : F) (h : heap F)
  : heap F * option (completion (result F)) :=
  if num_leb monthly_budget num_zero then
    (h, Some (Raise (ValueError "monthly_budget must be > 0")))
  else
    let '(h0, cards) := deepcopy cards h in
    budget_loop (S (Z.to_nat max_months)) cards monthly_budget strategy
      max_months epsilon 0 num_zero h0.

(** The loop over [new_rows] of the "Save cards" handler; a row is the
    pair of its stripped name and its APR.  [inr] is the duplicate at which
    the handler stops. *)
Fixpoint clean_rows (new_rows : list (string * F)) (seen : gset string)
    (cleaned : list (string * F)) : list (string * F) + string :=
  match new_rows with
  | [] => inl cleaned
  | r :: rest =>
      if String.eqb r.1 "" then clean_rows rest seen cleaned
      else if bool_decide (r.1 ∈ seen) then inr r.1
      else clean_rows rest ({[r.1]} ∪ seen) (cleaned ++ [(r.1, r.2)])
  end.

Definition save_cards (new_rows : list (string * F)) : save_outcome F :=
  match clean_rows new_rows ∅ [] with
  | inr nickname => DuplicateNickname nickname
  | inl [] => NoCards
  | inl cleaned => Saved cleaned
  end.

End Defs.
End Streamlit.

(** ** Default arguments and the scenarios of the specification *)

Definition default_strategy : string := "avalanche".
Definition default_max_months : Z := 2000.

#[warnings="-inexact-float"]
Definition default_epsilon_binary64 : float := 1e-6%float.
Definition default_epsilon_exact : Q := (1 # 1000000)%Q.

(** One card: balance 1200.00 at 24%. *)
Definition single64 : heap float := [mkCard "Visa" 1200%float 24%float].
Definition singleQ : heap Q := [mkCard "Visa" 1200%Q 24%Q].

(** Two cards: A owes 1000 at 20%, B owes 500 at 10%. *)
Definition pair64 : heap float :=
  [mkCard "A" 1000%float 20%float; mkCard "B" 500%float 10%float].
Definition pairQ : heap Q :=
  [mkCard "A" 1000%Q 20%Q; mkCard "B" 500%Q 10%Q].

(** Two cards that each owe six tenths of the default tolerance. *)
#[warnings="-inexact-float"]
Definition dust64 : heap float :=
  [mkCard "A" 6e-7%float 20%float; mkCard "B" 6e-7%float 10%float].

(** A card that is paid off. *)
Definition settled64 : heap float := [mkCard "Visa" 0%float 24%float].

(** Two cards that carry the same name. *)
Definition twins64 : heap float :=
  [mkCard "A" 100%float 20%float; mkCard "A" 50%float 10%float].

(** ** Vocabulary of the statements *)

(** The objects allocated at the first [n] locations are the same in [h']
    as in [h]. *)
Definition same_upto {F} (n : nat) (h h' : heap F) : Prop :=
  take n h' = take n h.

(** Every entry of a list of cards is an allocated object. *)
Definition allocated {F} (h : heap F) (cards : list loc) : Prop :=
  Forall (fun l => (l < length h)%nat) cards.

(** Every entry of a list of cards lies at or above [n]. *)
Definition above (n : nat) (cards : list loc) : Prop :=
  Forall (fun l => (n <= l)%nat) cards.



Definition known_strategy (s : string) : bool :=
  String.eqb s "avalanche" || String.eqb s "snowball"
  || String.eqb s "proportional".

(** The state of the budget simulation after [k] complete months (store,
    interest paid so far, history); [None] when the loop has ended or raised
    before. *)
Fixpoint budget_after {F} `{Number F} (k : nat) (cards : list loc)
    (monthly_budget : F) (strategy : string) (epsilon : F) (h : heap F)
  : option (heap F * F * list (Calculator.snapshot F)) :=
  match k with
  | O => Some (h, num_zero, [])
  | S k' =>
      match budget_after k' cards monthly_budget strategy epsilon h with
      | Some (h1, tip, hist) =>
          if num_ltb epsilon (total_balance cards h1) then
            match Calculator.month_cycle cards monthly_budget strategy epsilon
                    (Z.of_nat k' + 1) tip hist h1 with
            | (h2, Calculator.Continue tip' hist') => Some (h2, tip', hist')
            | _ => None
            end
          else None
      | None => None
      end
  end.

(** The same for the manual simulation. *)
Fixpoint manual_after {F} `{Number F} (k : nat) (cards : list loc)
    (monthly_payments : list (string * F)) (by_name : gmap string loc)
    (epsilon : F) (h : heap F)
  : option (heap F * F * list (Calculator.snapshot F)) :=
  match k with
  | O => Some (h, num_zero, [])
  | S k' =>
      match manual_after k' cards monthly_payments by_name epsilon h with
      | Some (h1, tip, hist) =>
          if num_ltb epsilon (total_balance cards h1) then
            match Calculator.manual_cycle cards monthly_payments by_name
                    epsilon (Z.of_nat k' + 1) tip hist h1 with
            | (h2, Normal (tip', hist')) => Some (h2, tip', hist')
            | _ => None
            end
          else None
      | None => None
      end
  end.

(** In exact arithmetic: the card at [l] has a balance and an APR that are
    not negative. *)
Definition card_ok (h : heap Q) (l : loc) : Prop :=
  (0 <= balance (load h l))%Q /\ (0 <= apr (load h l))%Q.

(** The history shows no negative balance. *)
Definition history_ok (hist : list (Calculator.snapshot Q)) : Prop :=
  Forall (fun s => Forall (fun kv => (0 <= kv.2)%Q)
                     (Calculator.snap_balances s)) hist.

(** The sum of the payments of a record of [pay] values. *)
Definition paid {F} `{Number F} (tr : list (loc * F)) : F :=
  py_sum (snd <$> tr).




(** The share of the budget [r] that the proportional walk computes for a
    card, and what it pays to it. *)
Definition proportional_share {F} `{Number F} (r total : F) (c : Card F) : F :=
  num_mul r (num_quot (balance c) total).

Definition proportional_pay {F} `{Number F} (r total : F) (c : Card F) : F :=
  py_min (balance c) (proportional_share r total c).

(** What a card has become after the accrual step. *)
Definition accrued {F} `{Number F} (epsilon : F) (c : Card F) : Card F :=
  if num_ltb epsilon (balance c) then
    mkCard (name c)
      (num_add (balance c) (num_mul (balance c) (monthly_rate (apr c))))
      (apr c)
  else c.


(** The snapshots of a history carry the month numbers 1, 2, ... in
    order. *)
Definition months_numbered {F} (hist : list (Calculator.snapshot F)) : Prop :=
  Calculator.snap_month <$> hist = Z.of_nat <$> seq 1 (length hist).

(** The interest to date of the last snapshot is [tip]; with no snapshot
    [tip] is the initial [0.0]. *)
Definition interest_to_date {F} `{Number F}
    (hist : list (Calculator.snapshot F)) (tip : F) : Prop :=
  match last hist with
  | Some s => Calculator.snap_total_interest_to_date s = tip
  | None => tip = num_zero
  end.

(** What the history of a returned result looks like: the months are
    numbered, there is a snapshot for every month or for every month but the
    last, the latter when the result is not paid off; a result that is paid
    off and did not leave through [break] ([greedy]) has a snapshot for every
    month, the last of which carries the total interest. *)
Definition history_shape {F} `{Number F} (greedy : Prop)
    (res : Calculator.result F) : Prop :=
  months_numbered (Calculator.history res)
  /\ (Z.of_nat (length (Calculator.history res)) = Calculator.months res
      \/ Z.of_nat (length (Calculator.history res))
         = Calculator.months res - 1)
  /\ (Calculator.paid_off res = false ->
      Z.of_nat (length (Calculator.history res)) = Calculator.months res - 1)
  /\ (greedy -> Calculator.paid_off res = true ->
      Z.of_nat (length (Calculator.history res)) = Calculator.months res
      /\ interest_to_date (Calculator.history res)
           (Calculator.total_interest res)).

(** The objects that the locations of [U] name in [h] are found in [h'] at
    the images of these locations under [f], and [f] keeps distinct objects
    of [U] distinct: [h'] holds the same cards with the same sharing under
    other identities. *)
Definition renamed {F} (f : loc -> loc) (U : list loc) (h h' : heap F)
  : Prop :=
  (forall l, l ∈ U -> is_Some (h !! l) /\ h' !! f l = h !! l)
  /\ (forall l l', l ∈ U -> l' ∈ U -> f l = f l' -> l = l').

(** The table of [compare_budgets] as it would be if every budget were
    simulated on the cards as they are at the call, in a store of its own:
    the rows, and how the walk over the budgets ends. *)
Fixpoint independent_runs {F} `{Number F} (default_epsilon : F)
    (cards : list loc) (budgets : list F) (strategy : string) (h : heap F)
  : list (Calculator.report_row F) * option (completion unit) :=
  match budgets with
  | [] => ([], Some (Normal tt))
  | b :: rest =>
      match (Calculator.simulate_payoff_total_budget cards b strategy 2000
               default_epsilon h).2 with
      | None => ([], None)
      | Some (Raise e) => ([], Some (Raise e))
      | Some (Normal res) =>
          let '(rows, c) :=
            independent_runs default_epsilon cards rest strategy h in
          (Calculator.report_line b res (total_balance cards h) :: rows, c)
      end
  end.

(** The cards of the list are live objects of [h], and [h'] holds the same
    objects at the same locations. *)
Definition same_cards {F} (cards : list loc) (h h' : heap F) : Prop :=
  Forall (fun l => is_Some (h !! l) /\ h' !! l = h !! l) cards.

(** In exact arithmetic: [c1] may stand before [c2] in the avalanche order
    (higher APR first, for equal APR the lower balance first), and in the
    snowball order (lower balance first, for equal balance the higher APR
    first). *)
Definition avalanche_before (c1 c2 : Card Q) : Prop :=
  (apr c2 < apr c1)%Q \/ (apr c1 == apr c2 /\ balance c1 <= balance c2)%Q.

Definition snowball_before (c1 c2 : Card Q) : Prop :=
  (balance c1 < balance c2)%Q \/ (balance c1 == balance c2 /\ apr c2 <= apr c1)%Q.

(** The card at [l] has the APR and the balance of [c]. *)
Definition tied (c : Card Q) (h : heap Q) (l : loc) : bool :=
  Qeq_bool (apr (load h l)) (apr c)
  && Qeq_bool (balance (load h l)) (balance c).

(** The number of passes through the body of the [while] loop of the
    budget simulation in a run from the given state: a pass is counted
    each time the test [total_balance(cards) > epsilon] holds and the body
    is entered, whether the pass ends at the cap, at a [break], with an
    exception or at the end of the body.  The run is followed for at most
    [fuel] passes. *)
Fixpoint budget_passes {F} `{Number F} (fuel : nat) (cards : list loc)
    (monthly_budget : F) (strategy : string) (max_months : Z) (epsilon : F)
    (months : Z) (total_interest_paid : F)
    (history : list (Calculator.snapshot F)) (h : heap F) : nat :=
  match fuel with
  | O => O
  | S fuel' =>
      if num_ltb epsilon (total_balance cards h) then
        let months := months + 1 in
        if months >? max_months then 1%nat
        else
          match Calculator.month_cycle cards monthly_budget strategy epsilon
                  months total_interest_paid history h with
          | (h', Calculator.Continue tip hist) =>
              S (budget_passes fuel' cards monthly_budget strategy max_months
                   epsilon months tip hist h')
          | _ => 1%nat
          end
      else O
  end.

(** The same for the manual simulation. *)
Fixpoint manual_passes {F} `{Number F} (fuel : nat) (cards : list loc)
    (monthly_payments : list (string * F)) (by_name : gmap string loc)
    (max_months : Z) (epsilon : F) (months : Z) (total_interest_paid : F)
    (history : list (Calculator.snapshot F)) (h : heap F) : nat :=
  match fuel with
  | O => O
  | S fuel' =>
      if num_ltb epsilon (total_balance cards h) then
        let months := months + 1 in
        if months >? max_months then 1%nat
        else
          match Calculator.manual_cycle cards monthly_payments by_name epsilon
                  months total_interest_paid history h with
          | (h', Normal (tip, hist)) =>
              S (manual_passes fuel' cards monthly_payments by_name
                   max_months epsilon months tip hist h')
          | _ => 1%nat
          end
      else O
  end.

(** Two large balances at 0%: 100 and 600 billions. *)
Definition large64 : heap float :=
  [mkCard "A" 100000000000%float 0%float;
   mkCard "B" 600000000000%float 0%float].

(** One card that owes 1e308 at 1200%: a month of interest doubles the
    balance, which is then beyond the largest binary64 number. *)
#[warnings="-inexact-float"]
Definition huge64 : heap float := [mkCard "A" 1e308%float 1200%float].




(** Proves a property of each strategy of a list by evaluation. *)
Ltac each_strategy tac :=
  repeat first [apply Forall_nil_2 | apply Forall_cons_2; [tac|]].

(** ** The store *)

Section Store.
Context {F : Type} `{Number F}.
Implicit Types (h : heap F) (l : loc) (cards : list loc).

Lemma length_store_balance h l v :
  length (store_balance h l v) = length h.
Proof. apply length_alter. Qed.

Lemma load_store_balance_ne h l l' v :
  l <> l' -> load (store_balance h l v) l' = load h l'.
Proof.
  intros Hne. unfold load, store_balance.
  now rewrite list_lookup_alter_ne.
Qed.

Lemma load_store_balance_eq h l v :
  (l < length h)%nat ->
  load (store_balance h l v) l = mkCard (name (load h l)) v (apr (load h l)).
Proof.
  intros Hl. unfold load, store_balance.
  rewrite list_lookup_alter_eq.
  destruct (lookup_lt_is_Some_2 h l Hl) as [c ->]. reflexivity.
Qed.

Lemma store_balance_dangling h l v :
  (length h <= l)%nat -> store_balance h l v = h.
Proof.
  intros Hl. unfold store_balance.
  apply list_eq. intros i. destruct (decide (l = i)) as [<-|Hne].
  - rewrite list_lookup_alter_eq, (lookup_ge_None_2 h l Hl). reflexivity.
  - now rewrite list_lookup_alter_ne.
Qed.

Lemma name_load_store_balance h l l' v :
  name (load (store_balance h l v) l') = name (load h l').
Proof.
  destruct (decide (l = l')) as [<-|Hne].
  - destruct (decide (l < length h)%nat).
    + now rewrite load_store_balance_eq.
    + rewrite store_balance_dangling by lia. reflexivity.
  - now rewrite load_store_balance_ne.
Qed.

Lemma apr_load_store_balance h l l' v :
  apr (load (store_balance h l v) l') = apr (load h l').
Proof.
  destruct (decide (l = l')) as [<-|Hne].
  - destruct (decide (l < length h)%nat).
    + now rewrite load_store_balance_eq.
    + rewrite store_balance_dangling by lia. reflexivity.
  - now rewrite load_store_balance_ne.
Qed.

Lemma same_upto_refl n h : same_upto n h h.
Proof. reflexivity. Qed.

Lemma same_upto_trans n h1 h2 h3 :
  same_upto n h1 h2 -> same_upto n h2 h3 -> same_upto n h1 h3.
Proof. unfold same_upto. congruence. Qed.

Lemma same_upto_store n h l v :
  (n <= l)%nat -> same_upto n h (store_balance h l v).
Proof. intros Hl. apply take_alter_ge, Hl. Qed.

Lemma same_upto_app h k : same_upto (length h) h (h ++ k).
Proof. unfold same_upto. now rewrite take_app_length, firstn_all. Qed.

Lemma same_upto_le n m h h' :
  (n <= m)%nat -> same_upto m h h' -> same_upto n h h'.
Proof.
  unfold same_upto. intros Hnm E.
  rewrite <- (Nat.min_l n m Hnm), <- !take_take. now rewrite E.
Qed.

Lemma same_upto_load n h h' l :
  same_upto n h h' -> (l < n)%nat -> load h' l = load h l.
Proof.
  unfold same_upto, load. intros E Hl.
  rewrite <- (lookup_take_lt h' n l Hl), E, lookup_take_lt by exact Hl.
  reflexivity.
Qed.

End Store.

(** ** Sorting *)

Section Sorting.
Context {A : Type} (lt : A -> A -> bool).

Lemma insert_sorted_perm x l : insert_sorted lt x l ≡ₚ x :: l.
Proof.
  induction l as [|y l IH]; simpl; [reflexivity|].
  destruct (lt y x); [|reflexivity].
  rewrite IH. apply Permutation_swap.
Qed.

Lemma stable_sort_perm l : stable_sort lt l ≡ₚ l.
Proof.
  induction l as [|x l IH]; simpl; [reflexivity|].
  now rewrite insert_sorted_perm, IH.
Qed.
End Sorting.

(** ** The simulations never write below the private copies *)

Section Frame.
Context {F : Type} `{Number F}.
Implicit Types (h : heap F) (l : loc) (cards : list loc).

Lemma sort_by_key_perm key h cards : sort_by_key key h cards ≡ₚ cards.
Proof.
  unfold sort_by_key. rewrite stable_sort_perm.
  rewrite <- list_fmap_compose. simpl.
  induction cards as [|l cards IH]; simpl; [reflexivity|]. now rewrite IH.
Qed.

Lemma above_sort_by_key n key h cards :
  above n cards -> above n (sort_by_key key h cards).
Proof. unfold above. now rewrite sort_by_key_perm. Qed.

Lemma above_active_cards n cards epsilon h :
  above n cards -> above n (active_cards cards epsilon h).
Proof.
  unfold above, active_cards. rewrite !Forall_forall.
  intros Hall l Hl. apply list_elem_of_filter in Hl. apply Hall, Hl.
Qed.

Lemma accrue_interest_same_upto n cards epsilon acc h :
  above n cards -> same_upto n h (accrue_interest cards epsilon acc h).1.
Proof.
  revert acc h. induction cards as [|l cards IH]; intros acc h Hab; simpl.
  - apply same_upto_refl.
  - inversion Hab as [|? ? Hl Hrest]; subst.
    destruct (num_ltb epsilon (balance (load h l))).
    + eapply same_upto_trans; [apply (same_upto_store n h l), Hl|].
      apply IH, Hrest.
    + apply IH, Hrest.
Qed.

Lemma pay_in_order_same_upto n active epsilon r h :
  above n active -> same_upto n h (pay_in_order active epsilon r h).1.1.
Proof.
  revert r h. induction active as [|l active IH]; intros r h Hab; simpl.
  - apply same_upto_refl.
  - inversion Hab as [|? ? Hl Hrest]; subst.
    destruct (num_leb r epsilon); [apply same_upto_refl|].
    match goal with
    | |- context [pay_in_order active epsilon ?r' ?h'] =>
        specialize (IH r' h' Hrest);
        destruct (pay_in_order active epsilon r' h') as [[h2 r2] tr]
    end.
    simpl in *. eapply same_upto_trans; [apply same_upto_store, Hl|exact IH].
Qed.

Lemma pay_proportional_same_upto n active r total h :
  above n active -> same_upto n h (pay_proportional active r total h).1.
Proof.
  revert h. induction active as [|l active IH]; intros h Hab; simpl.
  - apply same_upto_refl.
  - inversion Hab as [|? ? Hl Hrest]; subst.
    destruct (py_div (balance (load h l)) total) as [q|e];
      [|apply same_upto_refl].
    match goal with
    | |- context [pay_proportional active r total ?h'] =>
        specialize (IH h' Hrest);
        destruct (pay_proportional active r total h') as [h2 [tr|e]]
    end; simpl in *;
      (eapply same_upto_trans; [apply same_upto_store, Hl|exact IH]).
Qed.

Lemma second_pass_same_upto n strategy cards epsilon r h :
  above n cards ->
  same_upto n h (Calculator.second_pass strategy cards epsilon r h).1.1.
Proof.
  intros Hab. unfold Calculator.second_pass.
  destruct (num_ltb epsilon r); [|apply same_upto_refl].
  apply pay_in_order_same_upto.
  destruct (String.eqb strategy "avalanche");
    apply above_sort_by_key, above_active_cards, Hab.
Qed.

Lemma allocate_in_order_same_upto n strategy cards active epsilon b h :
  above n cards -> above n active ->
  same_upto n h
    (Calculator.allocate_in_order strategy cards active epsilon b h).1.1.
Proof.
  intros Hc Ha. unfold Calculator.allocate_in_order.
  pose proof (pay_in_order_same_upto n active epsilon b h Ha) as H1.
  destruct (pay_in_order active epsilon b h) as [[h1 r1] tr1].
  pose proof (second_pass_same_upto n strategy cards epsilon r1 h1 Hc) as H2.
  destruct (Calculator.second_pass strategy cards epsilon r1 h1)
    as [[h2 r2] tr2].
  simpl in *. eapply same_upto_trans; eassumption.
Qed.

Lemma payoff_order_above n strategy active h sorted :
  above n active ->
  Calculator.payoff_order strategy active h = Normal sorted ->
  above n sorted.
Proof.
  unfold Calculator.payoff_order. intros Hab.
  repeat match goal with
         | |- context [String.eqb ?a ?b] => destruct (String.eqb a b)
         end; intros E; inversion E; subst;
    auto using above_sort_by_key.
Qed.

Lemma month_cycle_same_upto n cards b strategy epsilon m tip hist h :
  above n cards ->
  same_upto n h
    (Calculator.month_cycle cards b strategy epsilon m tip hist h).1.
Proof.
  intros Hab. unfold Calculator.month_cycle.
  pose proof (accrue_interest_same_upto n cards epsilon num_zero h Hab) as H1.
  destruct (accrue_interest cards epsilon num_zero h) as [h1 mi].
  simpl in H1.
  pose proof (above_active_cards n cards epsilon h1 Hab) as Hact.
  destruct (Calculator.payoff_order strategy
              (active_cards cards epsilon h1) h1) as [sorted|e] eqn:Eo;
    [|exact H1].
  pose proof (payoff_order_above _ _ _ _ _ Hact Eo) as Hs.
  destruct (String.eqb strategy "proportional").
  - destruct (num_leb _ epsilon); [exact H1|].
    pose proof (pay_proportional_same_upto n sorted b
                  (py_sum ((fun l => balance (load h1 l)) <$> sorted)) h1 Hs)
      as H2.
    destruct (pay_proportional sorted b _ h1) as [h2 [tr|e]];
      simpl in *; eapply same_upto_trans; eassumption.
  - pose proof (allocate_in_order_same_upto n strategy cards sorted epsilon
                  b h1 Hab Hs) as H2.
    destruct (Calculator.allocate_in_order strategy cards sorted epsilon b h1)
      as [[h2 r2] tr2].
    simpl in *. eapply same_upto_trans; eassumption.
Qed.

Lemma budget_loop_same_upto n fuel cards b strategy mm epsilon m tip hist h :
  above n cards ->
  same_upto n h
    (Calculator.budget_loop fuel cards b strategy mm epsilon m tip hist h).1.
Proof.
  intros Hab. revert m tip hist h.
  induction fuel as [|fuel IH]; intros m tip hist h; simpl;
    [apply same_upto_refl|].
  destruct (num_ltb epsilon (total_balance cards h)); [|apply same_upto_refl].
  destruct (m + 1 >? mm); [apply same_upto_refl|].
  pose proof (month_cycle_same_upto n cards b strategy epsilon (m + 1) tip
                hist h Hab) as H1.
  destruct (Calculator.month_cycle cards b strategy epsilon (m + 1) tip hist h)
    as [h1 [tip' hist'|tip' hist'|e]]; simpl in *; try exact H1.
  eapply same_upto_trans; [exact H1|apply IH].
Qed.

(** [deepcopy] allocates above the caller's store and reads it only. *)
Lemma deepcopy_cards_frame n memo cards h :
  (n <= length h)%nat ->
  (forall l l', memo !! l = Some l' -> (n <= l')%nat) ->
  same_upto n h (deepcopy_cards memo cards h).1
  /\ above n (deepcopy_cards memo cards h).2
  /\ (length h <= length (deepcopy_cards memo cards h).1)%nat.
Proof.
  revert memo h. induction cards as [|l cards IH]; intros memo h Hn Hmemo;
    simpl.
  - split; [apply same_upto_refl|split; [constructor|lia]].
  - destruct (memo !! l) as [l'|] eqn:El.
    + destruct (IH memo h Hn Hmemo) as (I1 & I2 & I3).
      destruct (deepcopy_cards memo cards h) as [h' rest']. simpl in *.
      split; [exact I1|split; [|exact I3]].
      constructor; [eapply Hmemo, El|exact I2].
    + set (c := mkCard (name (load h l)) (balance (load h l))
                  (apr (load h l))).
      destruct (IH (<[l := length h]> memo) (h ++ [c])) as (I1 & I2 & I3).
      * rewrite length_app. lia.
      * intros k k' Ek. destruct (decide (l = k)) as [->|Hne].
        -- rewrite lookup_insert_eq in Ek. inversion Ek; subst. exact Hn.
        -- rewrite lookup_insert_ne in Ek by exact Hne. eapply Hmemo, Ek.
      * destruct (deepcopy_cards (<[l := length h]> memo) cards (h ++ [c]))
          as [h' rest']. simpl in *.
        rewrite length_app in I3. simpl in I3.
        split; [|split; [|lia]].
        -- eapply same_upto_trans; [|exact I1].
           eapply same_upto_le; [exact Hn|apply same_upto_app].
        -- constructor; [exact Hn|exact I2].
Qed.

Lemma deepcopy_frame cards h :
  same_upto (length h) h (deepcopy cards h).1
  /\ above (length h) (deepcopy cards h).2
  /\ (length h <= length (deepcopy cards h).1)%nat.
Proof.
  apply deepcopy_cards_frame; [lia|].
  intros l l' E. rewrite lookup_empty in E. discriminate.
Qed.

Lemma budget_same_upto cards b strategy mm epsilon h :
  same_upto (length h) h
    (Calculator.simulate_payoff_total_budget cards b strategy mm epsilon h).1.
Proof.
  unfold Calculator.simulate_payoff_total_budget.
  destruct (num_leb b num_zero); [apply same_upto_refl|].
  destruct (deepcopy_frame cards h) as (D1 & D2 & _).
  destruct (deepcopy cards h) as [h0 cards0]. cbn [fst snd] in *.
  eapply same_upto_trans; [exact D1|].
  apply budget_loop_same_upto, D2.
Qed.

End Frame.

Section FrameManual.
Context {F : Type} `{Number F}.
Implicit Types (h : heap F) (l : loc) (cards : list loc).

Lemma name_to_card_fold cards h (d : gmap string loc) nm l :
  foldl (fun d l => <[name (load h l) := l]> d) d cards !! nm = Some l ->
  l ∈ cards \/ d !! nm = Some l.
Proof.
  revert d. induction cards as [|k cards IH]; intros d; simpl.
  - now right.
  - intros E. destruct (IH _ E) as [Hin|Hd].
    + left. apply elem_of_cons. now right.
    + destruct (decide (name (load h k) = nm)) as [<-|Hne].
      * rewrite lookup_insert_eq in Hd. inversion Hd; subst.
        left. apply elem_of_cons. now left.
      * rewrite lookup_insert_ne in Hd by exact Hne. now right.
Qed.

Lemma name_to_card_elem cards h nm l :
  Calculator.name_to_card cards h !! nm = Some l -> l ∈ cards.
Proof.
  intros E. destruct (name_to_card_fold cards h ∅ nm l E) as [Hin|Hd];
    [exact Hin|].
  rewrite lookup_empty in Hd. discriminate.
Qed.

Lemma apply_payments_manual_same_upto n pays (by_name : gmap string loc)
    epsilon h :
  (forall nm l, by_name !! nm = Some l -> (n <= l)%nat) ->
  same_upto n h (Calculator.apply_payments_manual pays by_name epsilon h).1.
Proof.
  intros Hmap. revert h.
  induction pays as [|[nm amt] pays IH]; intros h; simpl.
  - apply same_upto_refl.
  - destruct (by_name !! nm) as [l|] eqn:El; [|apply same_upto_refl].
    destruct (num_ltb epsilon (balance (load h l)) && num_ltb num_zero amt).
    + eapply same_upto_trans; [apply same_upto_store, (Hmap nm l El)|].
      apply IH.
    + apply IH.
Qed.

Lemma manual_cycle_same_upto n cards pays (by_name : gmap string loc)
    epsilon m tip hist h :
  above n cards ->
  (forall nm l, by_name !! nm = Some l -> (n <= l)%nat) ->
  same_upto n h
    (Calculator.manual_cycle cards pays by_name epsilon m tip hist h).1.
Proof.
  intros Hab Hmap. unfold Calculator.manual_cycle.
  pose proof (accrue_interest_same_upto n cards epsilon num_zero h Hab) as H1.
  destruct (accrue_interest cards epsilon num_zero h) as [h1 mi].
  pose proof (apply_payments_manual_same_upto n pays by_name epsilon h1 Hmap)
    as H2.
  destruct (Calculator.apply_payments_manual pays by_name epsilon h1)
    as [h2 [u|e]]; cbn [fst snd] in *;
    eapply same_upto_trans; eassumption.
Qed.

Lemma manual_loop_same_upto n fuel cards pays (by_name : gmap string loc)
    mm epsilon m tip hist h :
  above n cards ->
  (forall nm l, by_name !! nm = Some l -> (n <= l)%nat) ->
  same_upto n h
    (Calculator.manual_loop fuel cards pays by_name mm epsilon m tip hist h).1.
Proof.
  intros Hab Hmap. revert m tip hist h.
  induction fuel as [|fuel IH]; intros m tip hist h; simpl;
    [apply same_upto_refl|].
  destruct (num_ltb epsilon (total_balance cards h)); [|apply same_upto_refl].
  destruct (m + 1 >? mm); [apply same_upto_refl|].
  pose proof (manual_cycle_same_upto n cards pays by_name epsilon (m + 1) tip
                hist h Hab Hmap) as H1.
  destruct (Calculator.manual_cycle cards pays by_name epsilon (m + 1) tip
              hist h) as [h1 [[tip' hist']|e]]; cbn [fst snd] in *;
    [|exact H1].
  eapply same_upto_trans; [exact H1|apply IH].
Qed.

Lemma manual_same_upto cards pays mm epsilon h :
  same_upto (length h) h
    (Calculator.simulate_payoff_manual_payments cards pays mm epsilon h).1.
Proof.
  unfold Calculator.simulate_payoff_manual_payments.
  destruct (deepcopy_frame cards h) as (D1 & D2 & _).
  destruct (deepcopy cards h) as [h0 cards0]. cbn [fst snd] in *.
  destruct (Calculator.check_payments pays); [|exact D1].
  eapply same_upto_trans; [exact D1|].
  apply manual_loop_same_upto; [exact D2|].
  intros nm l E. apply name_to_card_elem in E.
  unfold above in D2. rewrite Forall_forall in D2. now apply D2.
Qed.

Lemma same_upto_lookup h h' l c :
  same_upto (length h) h h' -> h !! l = Some c -> h' !! l = Some c.
Proof.
  unfold same_upto. intros E Hl.
  pose proof (lookup_lt_Some _ _ _ Hl) as Hlt.
  rewrite <- (lookup_take_lt h' (length h) l Hlt), E.
  now rewrite lookup_take_lt.
Qed.

(** The search of [apply_one_time_payment]. *)
Lemma pay_first_match_found cards nm amount h h' :
  Calculator.pay_first_match cards nm amount h = (h', true) ->
  exists pre l post,
    cards = pre ++ l :: post
    /\ Forall (fun k => name (load h k) <> nm) pre
    /\ name (load h l) = nm
    /\ h' = store_balance h l
              (py_max num_zero (num_sub (balance (load h l)) amount)).
Proof.
  induction cards as [|k cards IH]; simpl; [discriminate|].
  destruct (String.eqb (name (load h k)) nm) eqn:Ek.
  - intros E. inversion E; subst. exists [], k, cards.
    apply String.eqb_eq in Ek. repeat split; [constructor|exact Ek].
  - intros E. destruct (IH E) as (pre & l & post & -> & Hpre & Hl & ->).
    exists (k :: pre), l, post. apply String.eqb_neq in Ek.
    repeat split; [constructor; assumption|exact Hl].
Qed.

Lemma pay_first_match_missing cards nm amount h h' :
  Calculator.pay_first_match cards nm amount h = (h', false) ->
  h' = h /\ Forall (fun k => name (load h k) <> nm) cards.
Proof.
  induction cards as [|k cards IH]; simpl.
  - intros E. inversion E. split; [reflexivity|constructor].
  - destruct (String.eqb (name (load h k)) nm) eqn:Ek; [discriminate|].
    intros E. destruct (IH E) as [-> Hall]. apply String.eqb_neq in Ek.
    split; [reflexivity|constructor; assumption].
Qed.

End FrameManual.

Section OneTimePayment.
Context {F : Type} `{Number F}.
Implicit Types (h : heap F) (l : loc) (cards : list loc).

Lemma pay_first_match_first pre l post nm amount h :
  Forall (fun k => name (load h k) <> nm) pre ->
  name (load h l) = nm ->
  Calculator.pay_first_match (pre ++ l :: post) nm amount h
  = (store_balance h l
       (py_max num_zero (num_sub (balance (load h l)) amount)), true).
Proof.
  intros Hpre Hl. induction Hpre as [|k pre Hk Hpre IH]; simpl.
  - apply String.eqb_eq in Hl. now rewrite Hl.
  - apply String.eqb_neq in Hk. now rewrite Hk.
Qed.

Lemma pay_first_match_none cards nm amount h :
  Forall (fun k => name (load h k) <> nm) cards ->
  Calculator.pay_first_match cards nm amount h = (h, false).
Proof.
  induction 1 as [|k cards Hk Hrest IH]; simpl; [reflexivity|].
  apply String.eqb_neq in Hk. now rewrite Hk.
Qed.

End OneTimePayment.

(** C2: the two simulations work on a private deep copy.  Whether they
    return or raise, every object of the caller's store is afterwards the
    record it was (same name, balance and APR).  [apply_one_time_payment],
    on the contrary, writes into the caller's own object: given an amount
    that is not negative and a card of the name in the list, it returns, it
    allocates nothing, the caller's first card of the name holds the new
    balance [max(0, balance - amount)] under its name and APR, and every
    other object is as before; and whenever it returns, that is what it has
    done. *)
Theorem simulations_work_on_a_private_copy :
  forall F (N : Number F) (h : heap F) (cards : list loc),
    (forall b strategy mm epsilon l c,
        h !! l = Some c ->
        (Calculator.simulate_payoff_total_budget cards b strategy mm epsilon
           h).1 !! l = Some c)
    /\ (forall pays mm epsilon l c,
           h !! l = Some c ->
           (Calculator.simulate_payoff_manual_payments cards pays mm epsilon
              h).1 !! l = Some c)
    /\ (forall nm amount h',
           Calculator.apply_one_time_payment cards nm amount h
           = (h', Normal tt) ->
           exists l, l ∈ cards /\ name (load h l) = nm
             /\ h' = store_balance h l
                       (py_max num_zero (num_sub (balance (load h l)) amount))
             /\ length h' = length h)
    /\ (forall pre l post nm amount c,
           cards = pre ++ l :: post ->
           Forall (fun k => name (load h k) <> nm) pre ->
           h !! l = Some c -> name c = nm ->
           num_ltb amount num_zero = false ->
           exists h',
             Calculator.apply_one_time_payment cards nm amount h
             = (h', Normal tt)
             /\ h' !! l
                = Some (mkCard (name c)
                          (py_max num_zero (num_sub (balance c) amount))
                          (apr c))
             /\ length h' = length h
             /\ forall l', l' <> l -> h' !! l' = h !! l').
Proof.
  intros F N h cards. split; [|split; [|split]].
  - intros b strategy mm epsilon l c Hl.
    eapply same_upto_lookup; [apply budget_same_upto|exact Hl].
  - intros pays mm epsilon l c Hl.
    eapply same_upto_lookup; [apply manual_same_upto|exact Hl].
  - intros nm amount h'. unfold Calculator.apply_one_time_payment.
    destruct (num_ltb amount num_zero); [discriminate|].
    destruct (Calculator.pay_first_match cards nm amount h) as [h1 found]
      eqn:E.
    destruct found; [|discriminate].
    intros E'. inversion E'; subst h1.
    destruct (pay_first_match_found _ _ _ _ _ E)
      as (pre & l & post & -> & _ & Hl & ->).
    exists l. repeat split.
    + apply elem_of_app. right. apply elem_of_cons. now left.
    + exact Hl.
    + apply length_store_balance.
  - intros pre l post nm amount c -> Hpre Hl Hnm Hamount.
    assert (Hload : load h l = c) by (unfold load; now rewrite Hl).
    unfold Calculator.apply_one_time_payment.
    rewrite Hamount, pay_first_match_first by (rewrite ?Hload; assumption).
    rewrite Hload. eexists. split; [reflexivity|].
    split; [|split].
    + unfold store_balance. now rewrite list_lookup_alter_eq, Hl.
    + apply length_store_balance.
    + intros l' Hne. unfold store_balance.
      now rewrite list_lookup_alter_ne by (intros ->; contradiction).
Qed.

(** The cards A and B of the caller are untouched by a budget run and by a
    manual run; a one-time payment of 100 to A leaves 900 in the caller's A
    and B as it was. *)
Lemma simulations_work_on_a_private_copy_witness :
  (Calculator.simulate_payoff_total_budget [0; 1]%nat 100%float "avalanche"
     default_max_months default_epsilon_binary64 pair64).1 !! 0%nat
  = Some (mkCard "A" 1000%float 20%float)
  /\ (Calculator.simulate_payoff_manual_payments [0; 1]%nat
        [("A"%string, 60%float); ("B"%string, 40%float)]
        default_max_months default_epsilon_binary64 pair64).1 !! 1%nat
     = Some (mkCard "B" 500%float 10%float)
  /\ exists h',
       Calculator.apply_one_time_payment [0; 1]%nat "A" 100%float pair64
       = (h', Normal tt)
       /\ h' !! 0%nat = Some (mkCard "A" 900%float 20%float)
       /\ h' !! 1%nat = Some (mkCard "B" 500%float 10%float)
       /\ length h' = 2%nat.
Proof.
  destruct (simulations_work_on_a_private_copy float binary64 pair64
              [0; 1]%nat) as (Hbudget & Hmanual & Hreturned & Hwrites).
  split; [|split].
  - apply Hbudget. reflexivity.
  - apply Hmanual. reflexivity.
  - destruct (Hwrites [] 0%nat [1%nat] "A"%string 100%float
                (mkCard "A" 1000%float 20%float))
      as (h' & E & Hl & Hlen & Hother).
    + reflexivity.
    + constructor.
    + reflexivity.
    + reflexivity.
    + reflexivity.
    + destruct (Hreturned _ _ _ E) as (l & _ & _ & _ & Hlen').
      exists h'. split; [exact E|]. split; [exact Hl|].
      split; [|exact Hlen'].
      rewrite (Hother 1%nat) by discriminate. reflexivity.
Defined.

(** ** The private copy holds the same cards *)

Section Copy.
Context {F : Type} `{Number F}.
Implicit Types (h : heap F) (l : loc) (cards : list loc).

Lemma load_app_l h k l : (l < length h)%nat -> load (h ++ k) l = load h l.
Proof. intros Hl. unfold load. now rewrite lookup_app_l. Qed.

Lemma load_app_new h (c : Card F) : load (h ++ [c]) (length h) = c.
Proof.
  unfold load. rewrite lookup_app_r by lia.
  now rewrite Nat.sub_diag.
Qed.

Lemma load_app_allocated h k cards :
  allocated h cards -> load (h ++ k) <$> cards = load h <$> cards.
Proof.
  intros Hal. apply Forall_fmap_ext. eapply Forall_impl; [exact Hal|].
  intros l Hl. now apply load_app_l.
Qed.

Lemma deepcopy_cards_load (memo : gmap loc loc) cards h :
  allocated h cards ->
  (forall l l', memo !! l = Some l' ->
     (l < length h)%nat /\ (l' < length h)%nat /\ load h l' = load h l) ->
  (exists k, (deepcopy_cards memo cards h).1 = h ++ k)
  /\ load (deepcopy_cards memo cards h).1 <$> (deepcopy_cards memo cards h).2
     = load h <$> cards.
Proof.
  revert memo h. induction cards as [|l cards IH]; intros memo h Hal Hmemo;
    simpl.
  - split; [exists []; now rewrite app_nil_r|reflexivity].
  - inversion Hal as [|? ? Hl Hrest]; subst.
    destruct (memo !! l) as [l'|] eqn:El.
    + destruct (IH memo h Hrest Hmemo) as ([k Ek] & I2).
      destruct (deepcopy_cards memo cards h) as [h' rest'].
      cbn [fst snd] in *. subst h'.
      split; [now exists k|]. rewrite fmap_cons, I2. f_equal.
      destruct (Hmemo l l' El) as (_ & Hl' & E).
      now rewrite load_app_l.
    + set (c := mkCard (name (load h l)) (balance (load h l))
                  (apr (load h l))).
      assert (Hc : c = load h l) by (subst c; now destruct (load h l)).
      destruct (IH (<[l := length h]> memo) (h ++ [c])) as ([k Ek] & I2).
      * unfold allocated in *. eapply Forall_impl; [exact Hrest|].
        intros x Hx. simpl in Hx. rewrite length_app. simpl. lia.
      * intros x x' Ex. rewrite length_app. simpl.
        destruct (decide (l = x)) as [<-|Hne].
        -- rewrite lookup_insert_eq in Ex. inversion Ex; subst x'.
           split; [lia|split; [lia|]].
           rewrite load_app_new, load_app_l by exact Hl. exact Hc.
        -- rewrite lookup_insert_ne in Ex by exact Hne.
           destruct (Hmemo x x' Ex) as (Hx & Hx' & E).
           split; [lia|split; [lia|]].
           now rewrite !load_app_l.
      * destruct (deepcopy_cards (<[l := length h]> memo) cards (h ++ [c]))
          as [h' rest']. cbn [fst snd] in *. subst h'.
        split; [exists ([c] ++ k); now rewrite app_assoc|].
        rewrite fmap_cons, I2, load_app_allocated by exact Hrest. f_equal.
        rewrite load_app_l by (rewrite length_app; simpl; lia).
        rewrite load_app_new. exact Hc.
Qed.

Lemma deepcopy_load cards h :
  allocated h cards ->
  load (deepcopy cards h).1 <$> (deepcopy cards h).2 = load h <$> cards.
Proof.
  intros Hal. apply deepcopy_cards_load; [exact Hal|].
  intros l l' E. rewrite lookup_empty in E. discriminate.
Qed.

Lemma total_balance_load cards cards' h h' :
  load h' <$> cards' = load h <$> cards ->
  total_balance cards' h' = total_balance cards h.
Proof.
  intros E. unfold total_balance. f_equal.
  change (fun l => balance (load h' l)) with (balance ∘ load h').
  change (fun l => balance (load h l)) with (balance ∘ load h).
  now rewrite !list_fmap_compose, E.
Qed.

Lemma Forall_load (P : Card F -> Prop) cards cards' h h' :
  load h' <$> cards' = load h <$> cards ->
  Forall (fun l => P (load h l)) cards ->
  Forall (fun l => P (load h' l)) cards'.
Proof.
  intros E Hall.
  apply (Forall_fmap (load h) P) in Hall.
  apply (Forall_fmap (load h') P). now rewrite E.
Qed.

(** A month in which no card is active accrues nothing. *)
Lemma accrue_interest_inactive cards epsilon acc h :
  Forall (fun l => num_ltb epsilon (balance (load h l)) = false) cards ->
  accrue_interest cards epsilon acc h = (h, acc).
Proof.
  induction 1 as [|l cards Hl Hrest IH]; simpl; [reflexivity|].
  now rewrite Hl.
Qed.

Lemma active_cards_inactive cards epsilon h :
  Forall (fun l => num_ltb epsilon (balance (load h l)) = false) cards ->
  active_cards cards epsilon h = [].
Proof.
  induction 1 as [|l cards Hl Hrest IH]; [reflexivity|].
  unfold active_cards in *. rewrite filter_cons.
  destruct (decide _) as [E|_]; [congruence|exact IH].
Qed.

End Copy.

(** ** One-time payments *)

(** C7: [apply_one_time_payment] raises [ValueError] for a negative amount
    and [KeyError] when no card of the list has the name; whenever it
    raises, the store is the one it was given; when it succeeds, it has
    written the clamped balance into the first matching card, and every
    other object, and that card's name and APR, are as before. *)
Theorem apply_one_time_payment_fails_atomically :
  forall F (N : Number F) (h : heap F) (cards : list loc) (nm : string)
         (amount : F),
    (num_ltb amount num_zero = true ->
       Calculator.apply_one_time_payment cards nm amount h
       = (h, Raise (ValueError "Payment amount must be >= 0")))
    /\ (num_ltb amount num_zero = false ->
        Forall (fun k => name (load h k) <> nm) cards ->
        Calculator.apply_one_time_payment cards nm amount h
        = (h, Raise (KeyError nm)))
    /\ (forall h' e,
           Calculator.apply_one_time_payment cards nm amount h = (h', Raise e)
           -> h' = h)
    /\ (forall pre l post,
           num_ltb amount num_zero = false ->
           cards = pre ++ l :: post ->
           Forall (fun k => name (load h k) <> nm) pre ->
           name (load h l) = nm ->
           let h' := store_balance h l
                       (py_max num_zero (num_sub (balance (load h l)) amount)) in
           Calculator.apply_one_time_payment cards nm amount h
           = (h', Normal tt)
           /\ (forall k, k <> l -> load h' k = load h k)
           /\ name (load h' l) = name (load h l)
           /\ apr (load h' l) = apr (load h l)).
Proof.
  intros F N h cards nm amount. unfold Calculator.apply_one_time_payment.
  split; [|split; [|split]].
  - intros ->. reflexivity.
  - intros -> Hnone. now rewrite pay_first_match_none.
  - intros h' e. destruct (num_ltb amount num_zero).
    + intros E. now inversion E.
    + destruct (Calculator.pay_first_match cards nm amount h) as [h1 found]
        eqn:E1.
      destruct found; [discriminate|].
      intros E. inversion E; subst h1.
      now destruct (pay_first_match_missing _ _ _ _ _ E1).
  - intros pre l post -> -> Hpre Hl.
    rewrite pay_first_match_first by assumption.
    split; [reflexivity|split; [|split]].
    + intros k Hk. apply load_store_balance_ne. congruence.
    + apply name_load_store_balance.
    + apply apr_load_store_balance.
Qed.

(** On the cards A and B: a negative amount, an unknown name, and a payment
    of 600 to B, which owes 500. *)
Lemma apply_one_time_payment_fails_atomically_witness :
  Calculator.apply_one_time_payment [0; 1]%nat "A" (-5)%float pair64
  = (pair64, Raise (ValueError "Payment amount must be >= 0"))
  /\ Calculator.apply_one_time_payment [0; 1]%nat "C" 50%float pair64
     = (pair64, Raise (KeyError "C"))
  /\ Calculator.apply_one_time_payment [0; 1]%nat "B" 600%float pair64
     = ([mkCard "A" 1000%float 20%float; mkCard "B" 0%float 10%float],
        Normal tt).
Proof.
  split; [|split].
  - apply (apply_one_time_payment_fails_atomically float binary64 pair64
             [0; 1]%nat "A" (-5)%float).
    reflexivity.
  - apply (apply_one_time_payment_fails_atomically float binary64 pair64
             [0; 1]%nat "C" 50%float).
    + reflexivity.
    + repeat constructor; discriminate.
  - destruct (apply_one_time_payment_fails_atomically float binary64 pair64
                [0; 1]%nat "B" 600%float) as (_ & _ & _ & Hfirst).
    destruct (Hfirst [0%nat] 1%nat []) as [E _].
    + reflexivity.
    + reflexivity.
    + repeat constructor; discriminate.
    + reflexivity.
    + exact E.
Defined.

(** ** Argument checks of the budget simulation *)

Section ArgumentChecks.
Context {F : Type} `{Number F}.
Implicit Types (h : heap F) (l : loc) (cards : list loc).

Lemma payoff_order_unknown strategy active h :
  known_strategy strategy = false ->
  Calculator.payoff_order strategy active h
  = Raise (ValueError
             "strategy must be one of: avalanche, snowball, proportional").
Proof.
  unfold known_strategy, Calculator.payoff_order. intros E.
  apply orb_false_elim in E as [E E3].
  apply orb_false_elim in E as [E1 E2].
  now rewrite E1, E2, E3.
Qed.

Lemma month_cycle_unknown cards b strategy epsilon m tip hist h :
  known_strategy strategy = false ->
  (Calculator.month_cycle cards b strategy epsilon m tip hist h).2
  = Calculator.Raised
      (ValueError
         "strategy must be one of: avalanche, snowball, proportional").
Proof.
  intros E. unfold Calculator.month_cycle.
  destruct (accrue_interest cards epsilon num_zero h) as [h1 mi].
  now rewrite payoff_order_unknown.
Qed.

Lemma deepcopy_total_balance cards h :
  allocated h cards ->
  total_balance (deepcopy cards h).2 (deepcopy cards h).1
  = total_balance cards h.
Proof. intros Hal. apply total_balance_load, deepcopy_load, Hal. Qed.

Lemma month_cycle_unknown_store cards b strategy epsilon m tip hist h :
  known_strategy strategy = false ->
  Calculator.month_cycle cards b strategy epsilon m tip hist h
  = ((accrue_interest cards epsilon num_zero h).1,
     Calculator.Raised
       (ValueError
          "strategy must be one of: avalanche, snowball, proportional")).
Proof.
  intros E. unfold Calculator.month_cycle.
  destruct (accrue_interest cards epsilon num_zero h) as [h1 mi].
  now rewrite payoff_order_unknown.
Qed.

(** The store the accrual loop leaves does not depend on the variable the
    interest is added to. *)
Lemma accrue_interest_store cards epsilon acc acc' h :
  (accrue_interest cards epsilon acc h).1
  = (accrue_interest cards epsilon acc' h).1.
Proof.
  revert acc acc' h. induction cards as [|l cards IH]; intros acc acc' h;
    cbn [accrue_interest]; [reflexivity|].
  destruct (num_ltb epsilon (balance (load h l))); apply IH.
Qed.

Lemma streamlit_month_cycle_unknown cards b strategy epsilon tip h :
  known_strategy strategy = false ->
  Streamlit.month_cycle cards b strategy epsilon tip h
  = ((accrue_interest cards epsilon num_zero h).1,
     Streamlit.Raised (ValueError "Unknown strategy")).
Proof.
  unfold known_strategy, Streamlit.month_cycle. intros E.
  apply orb_false_elim in E as [E E3].
  apply orb_false_elim in E as [E1 E2].
  rewrite (accrue_interest_store cards epsilon num_zero tip h).
  destruct (accrue_interest cards epsilon tip h) as [h1 t].
  now rewrite E1, E2, E3.
Qed.

End ArgumentChecks.

(** C4, as the code has it, in both source files.  A budget that is not
    positive raises [ValueError] at once, before anything is copied: the
    store is the caller's.  The strategy string is examined inside the
    month: an unknown strategy raises [ValueError] when the first month is
    simulated, that is when the cards owe more than epsilon in total and the
    cap allows one month, and the store it leaves is the private copy after
    the accrual of that month.  Whatever the strategy string, when the cards
    owe at most epsilon the call returns the paid-off result with zero
    months, and when they owe more and the cap is below one month it
    returns the cap result with [months = 1]; the store is then the private
    copy as it was made. *)
Theorem invalid_arguments_of_budget_simulation :
  forall F (N : Number F) (h : heap F) (cards : list loc) (b : F)
         (strategy : string) (mm : Z) (epsilon : F),
    let h0 := (deepcopy cards h).1 in
    let cards0 := (deepcopy cards h).2 in
    (num_leb b num_zero = true ->
       Calculator.simulate_payoff_total_budget cards b strategy mm epsilon h
       = (h, Some (Raise (ValueError "monthly_budget must be > 0")))
       /\ Streamlit.simulate_payoff_total_budget cards b strategy mm epsilon h
          = (h, Some (Raise (ValueError "monthly_budget must be > 0"))))
    /\ (num_leb b num_zero = false ->
        known_strategy strategy = false ->
        allocated h cards ->
        num_ltb epsilon (total_balance cards h) = true ->
        1 <= mm ->
        Calculator.simulate_payoff_total_budget cards b strategy mm epsilon h
        = ((accrue_interest cards0 epsilon num_zero h0).1,
           Some (Raise (ValueError
             "strategy must be one of: avalanche, snowball, proportional")))
        /\ Streamlit.simulate_payoff_total_budget cards b strategy mm epsilon
             h
           = ((accrue_interest cards0 epsilon num_zero h0).1,
              Some (Raise (ValueError "Unknown strategy"))))
    /\ (num_leb b num_zero = false ->
        allocated h cards ->
        num_ltb epsilon (total_balance cards h) = false ->
        Calculator.simulate_payoff_total_budget cards b strategy mm epsilon h
        = (h0, Some (Normal (Calculator.budget_paid_result 0 num_zero b
                               strategy [])))
        /\ Streamlit.simulate_payoff_total_budget cards b strategy mm epsilon
             h
           = (h0, Some (Normal (Streamlit.paid_result 0 num_zero))))
    /\ (num_leb b num_zero = false ->
        allocated h cards ->
        num_ltb epsilon (total_balance cards h) = true ->
        mm < 1 ->
        Calculator.simulate_payoff_total_budget cards b strategy mm epsilon h
        = (h0, Some (Normal (Calculator.budget_cap_result 1 num_zero [])))
        /\ Streamlit.simulate_payoff_total_budget cards b strategy mm epsilon
             h
           = (h0, Some (Normal (Streamlit.cap_result 1 num_zero)))).
Proof.
  intros F N h cards b strategy mm epsilon.
  unfold Calculator.simulate_payoff_total_budget,
    Streamlit.simulate_payoff_total_budget.
  cbn zeta. split; [|split; [|split]].
  - intros ->. split; reflexivity.
  - intros -> Hs Hal Htot Hmm.
    pose proof (deepcopy_total_balance cards h Hal) as Et.
    destruct (deepcopy cards h) as [h0 cards0]. cbn [fst snd] in *.
    cbn [Calculator.budget_loop Streamlit.budget_loop]. rewrite Et, Htot.
    replace (0 + 1 >? mm) with false
      by (symmetry; rewrite Z.gtb_ltb; apply Z.ltb_ge; lia).
    rewrite month_cycle_unknown_store, streamlit_month_cycle_unknown
      by exact Hs.
    split; reflexivity.
  - intros -> Hal Htot.
    pose proof (deepcopy_total_balance cards h Hal) as Et.
    destruct (deepcopy cards h) as [h0 cards0]. cbn [fst snd] in *.
    cbn [Calculator.budget_loop Streamlit.budget_loop]. rewrite Et, Htot.
    split; reflexivity.
  - intros -> Hal Htot Hmm.
    pose proof (deepcopy_total_balance cards h Hal) as Et.
    destruct (deepcopy cards h) as [h0 cards0]. cbn [fst snd] in *.
    cbn [Calculator.budget_loop Streamlit.budget_loop]. rewrite Et, Htot.
    replace (0 + 1 >? mm) with true
      by (symmetry; rewrite Z.gtb_ltb; apply Z.ltb_lt; lia).
    split; reflexivity.
Qed.

(** A budget of 0; an unknown strategy with debt, where the copies at
    locations 2 and 3 carry the interest of the month when the exception
    leaves; an unknown strategy with a paid-off card; an unknown strategy
    with a cap of zero months. *)
Lemma invalid_arguments_of_budget_simulation_witness :
  (Calculator.simulate_payoff_total_budget [0; 1]%nat 0%float "avalanche"
     default_max_months default_epsilon_binary64 pair64
   = (pair64, Some (Raise (ValueError "monthly_budget must be > 0")))
   /\ Streamlit.simulate_payoff_total_budget [0; 1]%nat 0%float "avalanche"
        default_max_months default_epsilon_binary64 pair64
      = (pair64, Some (Raise (ValueError "monthly_budget must be > 0"))))
  /\ (exists h1,
        Calculator.simulate_payoff_total_budget [0; 1]%nat 100%float
          "fastest" default_max_months default_epsilon_binary64 pair64
        = (h1, Some (Raise (ValueError
             "strategy must be one of: avalanche, snowball, proportional")))
        /\ Streamlit.simulate_payoff_total_budget [0; 1]%nat 100%float
             "fastest" default_max_months default_epsilon_binary64 pair64
           = (h1, Some (Raise (ValueError "Unknown strategy")))
        /\ take 2 h1 = pair64
        /\ name <$> h1 = ["A"; "B"; "A"; "B"]%string
        /\ PrimFloat.ltb 1016%float (balance (load h1 2)) = true
        /\ PrimFloat.ltb 504%float (balance (load h1 3)) = true)
  /\ (Calculator.simulate_payoff_total_budget [0%nat] 100%float "fastest"
        default_max_months default_epsilon_binary64 settled64
      = (settled64 ++ settled64,
         Some (Normal (Calculator.budget_paid_result 0 0%float 100%float
                         "fastest" [])))
      /\ Streamlit.simulate_payoff_total_budget [0%nat] 100%float "fastest"
           default_max_months default_epsilon_binary64 settled64
         = (settled64 ++ settled64,
            Some (Normal (Streamlit.paid_result 0 0%float))))
  /\ (Calculator.simulate_payoff_total_budget [0; 1]%nat 100%float "fastest"
        0 default_epsilon_binary64 pair64
      = (pair64 ++ pair64,
         Some (Normal (Calculator.budget_cap_result 1 0%float [])))
      /\ Streamlit.simulate_payoff_total_budget [0; 1]%nat 100%float
           "fastest" 0 default_epsilon_binary64 pair64
         = (pair64 ++ pair64,
            Some (Normal (Streamlit.cap_result 1 0%float)))).
Proof.
  split; [|split; [|split]].
  - destruct (invalid_arguments_of_budget_simulation float binary64 pair64
                [0; 1]%nat 0%float "avalanche" default_max_months
                default_epsilon_binary64) as (Hbudget & _).
    apply Hbudget. reflexivity.
  - destruct (invalid_arguments_of_budget_simulation float binary64 pair64
                [0; 1]%nat 100%float "fastest" default_max_months
                default_epsilon_binary64) as (_ & Hraise & _).
    destruct Hraise as [Ec Es].
    + reflexivity.
    + reflexivity.
    + repeat constructor.
    + reflexivity.
    + unfold default_max_months. lia.
    + eexists. split; [exact Ec|]. split; [exact Es|].
      vm_compute. repeat split.
  - destruct (invalid_arguments_of_budget_simulation float binary64 settled64
                [0%nat] 100%float "fastest" default_max_months
                default_epsilon_binary64) as (_ & _ & Hreturn & _).
    apply Hreturn.
    + reflexivity.
    + repeat constructor.
    + reflexivity.
  - destruct (invalid_arguments_of_budget_simulation float binary64 pair64
                [0; 1]%nat 100%float "fastest" 0
                default_epsilon_binary64) as (_ & _ & _ & Hcap).
    apply Hcap.
    + reflexivity.
    + repeat constructor.
    + reflexivity.
    + lia.
Defined.

(** C4, counterexample: with a strategy that is not one of the three, the
    call on a paid-off card returns a result (paid off, zero months), and
    with a month cap of zero it returns the cap result; neither raises. *)
Lemma unknown_strategy_can_return :
  known_strategy "fastest" = false
  /\ (Calculator.simulate_payoff_total_budget [0%nat] 100%float "fastest"
        default_max_months default_epsilon_binary64 settled64).2
     = Some (Normal (Calculator.budget_paid_result 0 0%float 100%float
                       "fastest" []))
  /\ (Calculator.simulate_payoff_total_budget [0; 1]%nat 100%float "fastest"
        0 default_epsilon_binary64 pair64).2
     = Some (Normal (Calculator.budget_cap_result 1 0%float [])).
Proof. repeat split; vm_compute; reflexivity. Qed.

(** C10: when every card owes at most epsilon while together they owe more
    than epsilon, the proportional simulation (positive budget, a cap of at
    least one month, a tolerance that is not negative) enters the loop,
    finds no active card, leaves the loop through [break] and returns
    [paid_off = True] after one month; the total balance of the cards it
    simulated is still above epsilon.  Both source files do so. *)
Theorem proportional_reports_paid_off_above_epsilon :
  forall F (N : Number F) (h : heap F) (cards : list loc) (b : F) (mm : Z)
         (epsilon : F),
    allocated h cards ->
    num_leb b num_zero = false ->
    1 <= mm ->
    num_leb num_zero epsilon = true ->
    Forall (fun l => num_ltb epsilon (balance (load h l)) = false) cards ->
    num_ltb epsilon (total_balance cards h) = true ->
    (exists h' r,
        Calculator.simulate_payoff_total_budget cards b "proportional" mm
          epsilon h = (h', Some (Normal r))
        /\ Calculator.paid_off r = true
        /\ Calculator.months r = 1
        /\ Calculator.reason r = None
        /\ num_ltb epsilon (total_balance (deepcopy cards h).2 h') = true)
    /\ (exists h' r,
           Streamlit.simulate_payoff_total_budget cards b "proportional" mm
             epsilon h = (h', Some (Normal r))
           /\ Streamlit.paid_off r = true
           /\ Streamlit.months r = 1
           /\ Streamlit.reason r = None
           /\ num_ltb epsilon (total_balance (deepcopy cards h).2 h') = true).
Proof.
  intros F N h cards b mm epsilon Hal Hb Hmm Heps Hsmall Htot.
  unfold Calculator.simulate_payoff_total_budget,
    Streamlit.simulate_payoff_total_budget. rewrite Hb.
  pose proof (deepcopy_total_balance cards h Hal) as Et.
  pose proof (deepcopy_load cards h Hal) as El.
  destruct (deepcopy cards h) as [h0 cards0]. cbn [fst snd] in *.
  pose proof (Forall_load
                (fun c => num_ltb epsilon (balance c) = false)
                cards cards0 h h0 El Hsmall) as Hsmall0.
  cbn [Calculator.budget_loop Streamlit.budget_loop]. rewrite Et, Htot.
  replace (0 + 1 >? mm) with false
    by (symmetry; rewrite Z.gtb_ltb; apply Z.ltb_ge; lia).
  unfold Calculator.month_cycle, Streamlit.month_cycle.
  rewrite !accrue_interest_inactive by exact Hsmall0.
  rewrite !active_cards_inactive by exact Hsmall0.
  cbn. rewrite Heps.
  split; eexists _, _; (split; [reflexivity|]);
    cbn; repeat split; now rewrite Et.
Qed.

(** Two cards of 6e-7 each with the tolerance 1e-6, in binary64. *)
Lemma proportional_reports_paid_off_above_epsilon_witness :
  (exists h' r,
      Calculator.simulate_payoff_total_budget [0; 1]%nat 100%float
        "proportional" default_max_months default_epsilon_binary64 dust64
      = (h', Some (Normal r))
      /\ Calculator.paid_off r = true
      /\ Calculator.months r = 1
      /\ Calculator.reason r = None
      /\ num_ltb default_epsilon_binary64
           (total_balance (deepcopy [0; 1]%nat dust64).2 h') = true)
  /\ (exists h' r,
         Streamlit.simulate_payoff_total_budget [0; 1]%nat 100%float
           "proportional" default_max_months default_epsilon_binary64 dust64
         = (h', Some (Normal r))
         /\ Streamlit.paid_off r = true
         /\ Streamlit.months r = 1
         /\ Streamlit.reason r = None
         /\ num_ltb default_epsilon_binary64
              (total_balance (deepcopy [0; 1]%nat dust64).2 h') = true).
Proof.
  apply (proportional_reports_paid_off_above_epsilon float binary64 dust64
           [0; 1]%nat 100%float default_max_months default_epsilon_binary64).
  - repeat constructor.
  - reflexivity.
  - unfold default_max_months. lia.
  - reflexivity.
  - repeat constructor.
  - reflexivity.
Defined.

(** ** Termination and the month cap *)

Section MonthCap.
Context {F : Type} `{Number F}.
Implicit Types (h : heap F) (l : loc) (cards : list loc).

(** Fuel for the months that the cap still allows is enough. *)
Lemma budget_loop_total fuel cards b strategy mm epsilon m tip hist h :
  (Z.to_nat (mm - m) < fuel)%nat ->
  exists out,
    (Calculator.budget_loop fuel cards b strategy mm epsilon m tip hist h).2
    = Some out.
Proof.
  revert m tip hist h. induction fuel as [|fuel IH];
    intros m tip hist h Hfuel; [lia|].
  cbn [Calculator.budget_loop].
  destruct (num_ltb epsilon (total_balance cards h)); [|eexists; reflexivity].
  destruct (m + 1 >? mm) eqn:Ecap; [eexists; reflexivity|].
  rewrite Z.gtb_ltb in Ecap. apply Z.ltb_ge in Ecap.
  destruct (Calculator.month_cycle cards b strategy epsilon (m + 1) tip hist h)
    as [h1 [tip' hist'|tip' hist'|e]]; try (eexists; reflexivity).
  apply IH. lia.
Qed.

Lemma manual_loop_total fuel cards pays (by_name : gmap string loc) mm
    epsilon m tip hist h :
  (Z.to_nat (mm - m) < fuel)%nat ->
  exists out,
    (Calculator.manual_loop fuel cards pays by_name mm epsilon m tip hist
       h).2 = Some out.
Proof.
  revert m tip hist h. induction fuel as [|fuel IH];
    intros m tip hist h Hfuel; [lia|].
  cbn [Calculator.manual_loop].
  destruct (num_ltb epsilon (total_balance cards h)); [|eexists; reflexivity].
  destruct (m + 1 >? mm) eqn:Ecap; [eexists; reflexivity|].
  rewrite Z.gtb_ltb in Ecap. apply Z.ltb_ge in Ecap.
  destruct (Calculator.manual_cycle cards pays by_name epsilon (m + 1) tip
              hist h) as [h1 [[tip' hist']|e]]; [|eexists; reflexivity].
  apply IH. lia.
Qed.

(** The loop, started afresh, reaches the state after [k] months and goes
    on from there. *)
Lemma budget_loop_after k fuel cards b strategy mm epsilon h0 hk tip hist :
  budget_after k cards b strategy epsilon h0 = Some (hk, tip, hist) ->
  Z.of_nat k <= mm ->
  Calculator.budget_loop (k + fuel) cards b strategy mm epsilon 0 num_zero
    [] h0
  = Calculator.budget_loop fuel cards b strategy mm epsilon (Z.of_nat k) tip
      hist hk.
Proof.
  revert fuel hk tip hist. induction k as [|k IH];
    intros fuel hk tip hist Hk Hle.
  - cbn in Hk. inversion Hk; subst. reflexivity.
  - cbn [budget_after] in Hk.
    destruct (budget_after k cards b strategy epsilon h0)
      as [[[h1 t1] hist1]|] eqn:E1; [|discriminate].
    destruct (num_ltb epsilon (total_balance cards h1)) eqn:Et;
      [|discriminate].
    destruct (Calculator.month_cycle cards b strategy epsilon
                (Z.of_nat k + 1) t1 hist1 h1)
      as [h2 [tip' hist'|tip' hist'|e]] eqn:Ec; try discriminate.
    inversion Hk; subst h2 tip' hist'. clear Hk.
    replace (S k + fuel)%nat with (k + S fuel)%nat by lia.
    rewrite (IH (S fuel) h1 t1 hist1 eq_refl) by lia.
    cbn [Calculator.budget_loop]. rewrite Et.
    replace (Z.of_nat k + 1 >? mm) with false
      by (symmetry; rewrite Z.gtb_ltb; apply Z.ltb_ge; lia).
    rewrite Ec. f_equal. lia.
Qed.

Lemma manual_loop_after k fuel cards pays (by_name : gmap string loc) mm
    epsilon h0 hk tip hist :
  manual_after k cards pays by_name epsilon h0 = Some (hk, tip, hist) ->
  Z.of_nat k <= mm ->
  Calculator.manual_loop (k + fuel) cards pays by_name mm epsilon 0 num_zero
    [] h0
  = Calculator.manual_loop fuel cards pays by_name mm epsilon (Z.of_nat k)
      tip hist hk.
Proof.
  revert fuel hk tip hist. induction k as [|k IH];
    intros fuel hk tip hist Hk Hle.
  - cbn in Hk. inversion Hk; subst. reflexivity.
  - cbn [manual_after] in Hk.
    destruct (manual_after k cards pays by_name epsilon h0)
      as [[[h1 t1] hist1]|] eqn:E1; [|discriminate].
    destruct (num_ltb epsilon (total_balance cards h1)) eqn:Et;
      [|discriminate].
    destruct (Calculator.manual_cycle cards pays by_name epsilon
                (Z.of_nat k + 1) t1 hist1 h1)
      as [h2 [[tip' hist']|e]] eqn:Ec; try discriminate.
    inversion Hk; subst h2 tip' hist'. clear Hk.
    replace (S k + fuel)%nat with (k + S fuel)%nat by lia.
    rewrite (IH (S fuel) h1 t1 hist1 eq_refl) by lia.
    cbn [Calculator.manual_loop]. rewrite Et.
    replace (Z.of_nat k + 1 >? mm) with false
      by (symmetry; rewrite Z.gtb_ltb; apply Z.ltb_ge; lia).
    rewrite Ec. f_equal. lia.
Qed.

(** A loop that reports [paid_off = False] reports the month after the
    cap. *)
Lemma budget_loop_not_paid fuel cards b strategy mm epsilon m tip hist h
    h' r :
  m <= mm ->
  Calculator.budget_loop fuel cards b strategy mm epsilon m tip hist h
  = (h', Some (Normal r)) ->
  Calculator.paid_off r = false ->
  Calculator.months r = mm + 1 /\ is_Some (Calculator.reason r)
  /\ num_ltb epsilon (total_balance cards h') = true.
Proof.
  revert m tip hist h. induction fuel as [|fuel IH];
    intros m tip hist h Hm; cbn [Calculator.budget_loop]; [discriminate|].
  destruct (num_ltb epsilon (total_balance cards h)) eqn:Et.
  - destruct (m + 1 >? mm) eqn:Ecap.
    + intros E _. inversion E; subst. cbn.
      rewrite Z.gtb_ltb in Ecap. apply Z.ltb_lt in Ecap.
      split; [lia|split; [eexists; reflexivity|exact Et]].
    + rewrite Z.gtb_ltb in Ecap. apply Z.ltb_ge in Ecap.
      destruct (Calculator.month_cycle cards b strategy epsilon (m + 1) tip
                  hist h) as [h1 [tip' hist'|tip' hist'|e]].
      * apply IH. lia.
      * intros E. inversion E; subst. discriminate.
      * discriminate.
  - intros E. inversion E; subst. discriminate.
Qed.

Lemma manual_loop_not_paid fuel cards pays (by_name : gmap string loc) mm
    epsilon m tip hist h h' r :
  m <= mm ->
  Calculator.manual_loop fuel cards pays by_name mm epsilon m tip hist h
  = (h', Some (Normal r)) ->
  Calculator.paid_off r = false ->
  Calculator.months r = mm + 1 /\ is_Some (Calculator.reason r)
  /\ num_ltb epsilon (total_balance cards h') = true.
Proof.
  revert m tip hist h. induction fuel as [|fuel IH];
    intros m tip hist h Hm; cbn [Calculator.manual_loop]; [discriminate|].
  destruct (num_ltb epsilon (total_balance cards h)) eqn:Et.
  - destruct (m + 1 >? mm) eqn:Ecap.
    + intros E _. inversion E; subst. cbn.
      rewrite Z.gtb_ltb in Ecap. apply Z.ltb_lt in Ecap.
      split; [lia|split; [eexists; reflexivity|exact Et]].
    + rewrite Z.gtb_ltb in Ecap. apply Z.ltb_ge in Ecap.
      destruct (Calculator.manual_cycle cards pays by_name epsilon (m + 1)
                  tip hist h) as [h1 [[tip' hist']|e]].
      * apply IH. lia.
      * discriminate.
  - intros E. inversion E; subst. discriminate.
Qed.

(** A loop that reports [paid_off = False] reports the month after the cap,
    or the first month when the cap is already passed. *)
Lemma budget_loop_not_paid_any fuel cards b strategy mm epsilon m tip hist h
    h' r :
  Calculator.budget_loop fuel cards b strategy mm epsilon m tip hist h
  = (h', Some (Normal r)) ->
  Calculator.paid_off r = false ->
  Calculator.months r = Z.max mm m + 1 /\ is_Some (Calculator.reason r)
  /\ num_ltb epsilon (total_balance cards h') = true.
Proof.
  revert m tip hist h. induction fuel as [|fuel IH];
    intros m tip hist h; cbn [Calculator.budget_loop]; [discriminate|].
  destruct (num_ltb epsilon (total_balance cards h)) eqn:Et.
  - destruct (m + 1 >? mm) eqn:Ecap.
    + intros E _. inversion E; subst. cbn.
      rewrite Z.gtb_ltb in Ecap. apply Z.ltb_lt in Ecap.
      split; [lia|split; [eexists; reflexivity|exact Et]].
    + rewrite Z.gtb_ltb in Ecap. apply Z.ltb_ge in Ecap.
      destruct (Calculator.month_cycle cards b strategy epsilon (m + 1) tip
                  hist h) as [h1 [tip' hist'|tip' hist'|e]].
      * intros E Hr. destruct (IH _ _ _ _ E Hr) as (Hm & Hrest).
        split; [lia|exact Hrest].
      * intros E. inversion E; subst. discriminate.
      * discriminate.
  - intros E. inversion E; subst. discriminate.
Qed.

Lemma manual_loop_not_paid_any fuel cards pays (by_name : gmap string loc) mm
    epsilon m tip hist h h' r :
  Calculator.manual_loop fuel cards pays by_name mm epsilon m tip hist h
  = (h', Some (Normal r)) ->
  Calculator.paid_off r = false ->
  Calculator.months r = Z.max mm m + 1 /\ is_Some (Calculator.reason r)
  /\ num_ltb epsilon (total_balance cards h') = true.
Proof.
  revert m tip hist h. induction fuel as [|fuel IH];
    intros m tip hist h; cbn [Calculator.manual_loop]; [discriminate|].
  destruct (num_ltb epsilon (total_balance cards h)) eqn:Et.
  - destruct (m + 1 >? mm) eqn:Ecap.
    + intros E _. inversion E; subst. cbn.
      rewrite Z.gtb_ltb in Ecap. apply Z.ltb_lt in Ecap.
      split; [lia|split; [eexists; reflexivity|exact Et]].
    + rewrite Z.gtb_ltb in Ecap. apply Z.ltb_ge in Ecap.
      destruct (Calculator.manual_cycle cards pays by_name epsilon (m + 1)
                  tip hist h) as [h1 [[tip' hist']|e]].
      * intros E Hr. destruct (IH _ _ _ _ E Hr) as (Hm & Hrest).
        split; [lia|exact Hrest].
      * discriminate.
  - intros E. inversion E; subst. discriminate.
Qed.

(** The passes of a run are bounded by the months that the cap still
    allows, plus the pass that meets the cap; the fuel plays no part. *)
Lemma budget_passes_bound fuel cards b strategy mm epsilon m tip hist h :
  (budget_passes fuel cards b strategy mm epsilon m tip hist h
   <= Z.to_nat (mm - m) + 1)%nat.
Proof.
  revert m tip hist h. induction fuel as [|fuel IH]; intros m tip hist h;
    cbn [budget_passes]; [lia|].
  destruct (num_ltb epsilon (total_balance cards h)); [|lia].
  destruct (m + 1 >? mm) eqn:Ecap; [lia|].
  rewrite Z.gtb_ltb in Ecap. apply Z.ltb_ge in Ecap.
  destruct (Calculator.month_cycle cards b strategy epsilon (m + 1) tip hist h)
    as [h1 [tip' hist'|tip' hist'|e]]; try lia.
  specialize (IH (m + 1) tip' hist' h1). lia.
Qed.

Lemma manual_passes_bound fuel cards pays (by_name : gmap string loc) mm
    epsilon m tip hist h :
  (manual_passes fuel cards pays by_name mm epsilon m tip hist h
   <= Z.to_nat (mm - m) + 1)%nat.
Proof.
  revert m tip hist h. induction fuel as [|fuel IH]; intros m tip hist h;
    cbn [manual_passes]; [lia|].
  destruct (num_ltb epsilon (total_balance cards h)); [|lia].
  destruct (m + 1 >? mm) eqn:Ecap; [lia|].
  rewrite Z.gtb_ltb in Ecap. apply Z.ltb_ge in Ecap.
  destruct (Calculator.manual_cycle cards pays by_name epsilon (m + 1) tip
              hist h) as [h1 [[tip' hist']|e]]; try lia.
  specialize (IH (m + 1) tip' hist' h1). lia.
Qed.

(** A loop that is out of fuel has made as many passes as it had fuel. *)
Lemma budget_loop_out_of_fuel fuel cards b strategy mm epsilon m tip hist h :
  (Calculator.budget_loop fuel cards b strategy mm epsilon m tip hist h).2
  = None ->
  budget_passes fuel cards b strategy mm epsilon m tip hist h = fuel.
Proof.
  revert m tip hist h. induction fuel as [|fuel IH]; intros m tip hist h;
    cbn [Calculator.budget_loop budget_passes]; [reflexivity|].
  destruct (num_ltb epsilon (total_balance cards h)); [|discriminate].
  destruct (m + 1 >? mm); [discriminate|].
  destruct (Calculator.month_cycle cards b strategy epsilon (m + 1) tip hist h)
    as [h1 [tip' hist'|tip' hist'|e]]; try discriminate.
  intros E. now rewrite (IH _ _ _ _ E).
Qed.

Lemma manual_loop_out_of_fuel fuel cards pays (by_name : gmap string loc) mm
    epsilon m tip hist h :
  (Calculator.manual_loop fuel cards pays by_name mm epsilon m tip hist h).2
  = None ->
  manual_passes fuel cards pays by_name mm epsilon m tip hist h = fuel.
Proof.
  revert m tip hist h. induction fuel as [|fuel IH]; intros m tip hist h;
    cbn [Calculator.manual_loop manual_passes]; [reflexivity|].
  destruct (num_ltb epsilon (total_balance cards h)); [|discriminate].
  destruct (m + 1 >? mm); [discriminate|].
  destruct (Calculator.manual_cycle cards pays by_name epsilon (m + 1) tip
              hist h) as [h1 [[tip' hist']|e]]; try discriminate.
  intros E. now rewrite (IH _ _ _ _ E).
Qed.

(** More fuel than the cap allows months changes nothing. *)
Lemma budget_loop_fuel fuel fuel' cards b strategy mm epsilon m tip hist h :
  (Z.to_nat (mm - m) < fuel)%nat -> (Z.to_nat (mm - m) < fuel')%nat ->
  Calculator.budget_loop fuel cards b strategy mm epsilon m tip hist h
  = Calculator.budget_loop fuel' cards b strategy mm epsilon m tip hist h.
Proof.
  revert fuel' m tip hist h. induction fuel as [|fuel IH];
    intros fuel' m tip hist h Hfuel Hfuel'; [lia|].
  destruct fuel' as [|fuel']; [lia|].
  cbn [Calculator.budget_loop].
  destruct (num_ltb epsilon (total_balance cards h)); [|reflexivity].
  destruct (m + 1 >? mm) eqn:Ecap; [reflexivity|].
  rewrite Z.gtb_ltb in Ecap. apply Z.ltb_ge in Ecap.
  destruct (Calculator.month_cycle cards b strategy epsilon (m + 1) tip hist h)
    as [h1 [tip' hist'|tip' hist'|e]]; try reflexivity.
  apply IH; lia.
Qed.

Lemma manual_loop_fuel fuel fuel' cards pays (by_name : gmap string loc) mm
    epsilon m tip hist h :
  (Z.to_nat (mm - m) < fuel)%nat -> (Z.to_nat (mm - m) < fuel')%nat ->
  Calculator.manual_loop fuel cards pays by_name mm epsilon m tip hist h
  = Calculator.manual_loop fuel' cards pays by_name mm epsilon m tip hist h.
Proof.
  revert fuel' m tip hist h. induction fuel as [|fuel IH];
    intros fuel' m tip hist h Hfuel Hfuel'; [lia|].
  destruct fuel' as [|fuel']; [lia|].
  cbn [Calculator.manual_loop].
  destruct (num_ltb epsilon (total_balance cards h)); [|reflexivity].
  destruct (m + 1 >? mm) eqn:Ecap; [reflexivity|].
  rewrite Z.gtb_ltb in Ecap. apply Z.ltb_ge in Ecap.
  destruct (Calculator.manual_cycle cards pays by_name epsilon (m + 1) tip
              hist h) as [h1 [[tip' hist']|e]]; try reflexivity.
  apply IH; lia.
Qed.

(** The pass that meets the cap. *)
Lemma budget_loop_at_cap cards b strategy mm epsilon h0 hk tip hist :
  budget_after (Z.to_nat mm) cards b strategy epsilon h0
  = Some (hk, tip, hist) ->
  num_ltb epsilon (total_balance cards hk) = true ->
  Calculator.budget_loop (S (Z.to_nat mm)) cards b strategy mm epsilon 0
    num_zero [] h0
  = (hk, Some (Normal (Calculator.budget_cap_result (Z.max mm 0 + 1) tip
                         hist)))
  /\ budget_passes (S (Z.to_nat mm)) cards b strategy mm epsilon 0 num_zero
       [] h0 = S (Z.to_nat mm).
Proof.
  intros Hafter Htot.
  destruct (Z_lt_le_dec mm 0) as [Hneg|Hmm].
  - replace (Z.to_nat mm) with 0%nat in * by lia.
    cbn in Hafter. inversion Hafter; subst hk tip hist.
    cbn [Calculator.budget_loop budget_passes]. rewrite Htot.
    replace (0 + 1 >? mm) with true
      by (symmetry; rewrite Z.gtb_ltb; apply Z.ltb_lt; lia).
    replace (Z.max mm 0) with 0 by lia. split; reflexivity.
  - split.
    + replace (S (Z.to_nat mm)) with (Z.to_nat mm + 1)%nat by lia.
      rewrite (budget_loop_after _ _ _ _ _ _ _ _ _ _ _ Hafter) by lia.
      cbn [Calculator.budget_loop]. rewrite Htot.
      rewrite Z2Nat.id by exact Hmm.
      replace (mm + 1 >? mm) with true
        by (symmetry; rewrite Z.gtb_ltb; apply Z.ltb_lt; lia).
      replace (Z.max mm 0) with mm by lia. reflexivity.
    + assert (Hgen : forall k fuel hk tip hist,
                 budget_after k cards b strategy epsilon h0
                 = Some (hk, tip, hist) ->
                 Z.of_nat k <= mm ->
                 budget_passes (k + fuel) cards b strategy mm epsilon 0
                   num_zero [] h0
                 = (k + budget_passes fuel cards b strategy mm epsilon
                          (Z.of_nat k) tip hist hk)%nat).
      { clear. induction k as [|k IH]; intros fuel hk tip hist Hk Hle.
        - cbn in Hk. inversion Hk; subst. reflexivity.
        - cbn [budget_after] in Hk.
          destruct (budget_after k cards b strategy epsilon h0)
            as [[[h1 t1] hist1]|] eqn:E1; [|discriminate].
          destruct (num_ltb epsilon (total_balance cards h1)) eqn:Et;
            [|discriminate].
          destruct (Calculator.month_cycle cards b strategy epsilon
                      (Z.of_nat k + 1) t1 hist1 h1)
            as [h2 [tip' hist'|tip' hist'|e]] eqn:Ec; try discriminate.
          inversion Hk; subst h2 tip' hist'. clear Hk.
          replace (S k + fuel)%nat with (k + S fuel)%nat by lia.
          rewrite (IH (S fuel) h1 t1 hist1 eq_refl) by lia.
          cbn [budget_passes]. rewrite Et.
          replace (Z.of_nat k + 1 >? mm) with false
            by (symmetry; rewrite Z.gtb_ltb; apply Z.ltb_ge; lia).
          rewrite Ec.
          replace (Z.of_nat (S k)) with (Z.of_nat k + 1) by lia. lia. }
      replace (S (Z.to_nat mm)) with (Z.to_nat mm + 1)%nat by lia.
      rewrite (Hgen _ _ _ _ _ Hafter) by lia.
      cbn [budget_passes]. rewrite Htot.
      rewrite Z2Nat.id by exact Hmm.
      replace (mm + 1 >? mm) with true
        by (symmetry; rewrite Z.gtb_ltb; apply Z.ltb_lt; lia).
      reflexivity.
Qed.

Lemma manual_loop_at_cap cards pays (by_name : gmap string loc) mm epsilon
    h0 hk tip hist :
  manual_after (Z.to_nat mm) cards pays by_name epsilon h0
  = Some (hk, tip, hist) ->
  num_ltb epsilon (total_balance cards hk) = true ->
  Calculator.manual_loop (S (Z.to_nat mm)) cards pays by_name mm epsilon 0
    num_zero [] h0
  = (hk, Some (Normal (Calculator.manual_cap_result (Z.max mm 0 + 1) tip
                         hist)))
  /\ manual_passes (S (Z.to_nat mm)) cards pays by_name mm epsilon 0 num_zero
       [] h0 = S (Z.to_nat mm).
Proof.
  intros Hafter Htot.
  destruct (Z_lt_le_dec mm 0) as [Hneg|Hmm].
  - replace (Z.to_nat mm) with 0%nat in * by lia.
    cbn in Hafter. inversion Hafter; subst hk tip hist.
    cbn [Calculator.manual_loop manual_passes]. rewrite Htot.
    replace (0 + 1 >? mm) with true
      by (symmetry; rewrite Z.gtb_ltb; apply Z.ltb_lt; lia).
    replace (Z.max mm 0) with 0 by lia. split; reflexivity.
  - split.
    + replace (S (Z.to_nat mm)) with (Z.to_nat mm + 1)%nat by lia.
      rewrite (manual_loop_after _ _ _ _ _ _ _ _ _ _ _ Hafter) by lia.
      cbn [Calculator.manual_loop]. rewrite Htot.
      rewrite Z2Nat.id by exact Hmm.
      replace (mm + 1 >? mm) with true
        by (symmetry; rewrite Z.gtb_ltb; apply Z.ltb_lt; lia).
      replace (Z.max mm 0) with mm by lia. reflexivity.
    + assert (Hgen : forall k fuel hk tip hist,
                 manual_after k cards pays by_name epsilon h0
                 = Some (hk, tip, hist) ->
                 Z.of_nat k <= mm ->
                 manual_passes (k + fuel) cards pays by_name mm epsilon 0
                   num_zero [] h0
                 = (k + manual_passes fuel cards pays by_name mm epsilon
                          (Z.of_nat k) tip hist hk)%nat).
      { clear. induction k as [|k IH]; intros fuel hk tip hist Hk Hle.
        - cbn in Hk. inversion Hk; subst. reflexivity.
        - cbn [manual_after] in Hk.
          destruct (manual_after k cards pays by_name epsilon h0)
            as [[[h1 t1] hist1]|] eqn:E1; [|discriminate].
          destruct (num_ltb epsilon (total_balance cards h1)) eqn:Et;
            [|discriminate].
          destruct (Calculator.manual_cycle cards pays by_name epsilon
                      (Z.of_nat k + 1) t1 hist1 h1)
            as [h2 [[tip' hist']|e]] eqn:Ec; try discriminate.
          inversion Hk; subst h2 tip' hist'. clear Hk.
          replace (S k + fuel)%nat with (k + S fuel)%nat by lia.
          rewrite (IH (S fuel) h1 t1 hist1 eq_refl) by lia.
          cbn [manual_passes]. rewrite Et.
          replace (Z.of_nat k + 1 >? mm) with false
            by (symmetry; rewrite Z.gtb_ltb; apply Z.ltb_ge; lia).
          rewrite Ec.
          replace (Z.of_nat (S k)) with (Z.of_nat k + 1) by lia. lia. }
      replace (S (Z.to_nat mm)) with (Z.to_nat mm + 1)%nat by lia.
      rewrite (Hgen _ _ _ _ _ Hafter) by lia.
      cbn [manual_passes]. rewrite Htot.
      rewrite Z2Nat.id by exact Hmm.
      replace (mm + 1 >? mm) with true
        by (symmetry; rewrite Z.gtb_ltb; apply Z.ltb_lt; lia).
      reflexivity.
Qed.

End MonthCap.

(** C3, as the code has it.  Both simulations terminate: the [while] loop
    makes at most [max(max_months, 0) + 1] passes through its body,
    however long it is followed, so that the [max_months + 1] passes (one
    pass for a negative cap) that the entry points allow are never used
    up, and allowing more changes nothing.  If the cards still owe more
    than epsilon after [max(max_months, 0)] complete months, the call
    returns, in the store and with the interest and the history of that
    moment (so without accrual or allocation in the last pass), the result
    [paid_off = False] with a reason and
    [months = max(max_months, 0) + 1], having made exactly that many
    passes; and a returned [paid_off = False] always has these months, a
    reason, and a total above epsilon.  The months are [max_months + 1]
    for a cap that is not negative, and 1 for a negative cap. *)
Theorem simulations_stop_at_the_month_cap :
  forall F (N : Number F) (h : heap F) (cards : list loc) (mm : Z)
         (epsilon : F),
    let h0 := (deepcopy cards h).1 in
    let cards0 := (deepcopy cards h).2 in
    (forall b strategy,
        exists out,
          (Calculator.simulate_payoff_total_budget cards b strategy mm epsilon
             h).2 = Some out)
    /\ (forall pays,
           exists out,
             (Calculator.simulate_payoff_manual_payments cards pays mm epsilon
                h).2 = Some out)
    /\ (forall b strategy fuel,
           (budget_passes fuel cards0 b strategy mm epsilon 0 num_zero [] h0
            <= Z.to_nat mm + 1)%nat
           /\ ((Calculator.budget_loop fuel cards0 b strategy mm epsilon 0
                  num_zero [] h0).2 = None ->
               budget_passes fuel cards0 b strategy mm epsilon 0 num_zero []
                 h0 = fuel)
           /\ ((Z.to_nat mm + 1 <= fuel)%nat ->
               num_leb b num_zero = false ->
               Calculator.budget_loop fuel cards0 b strategy mm epsilon 0
                 num_zero [] h0
               = Calculator.simulate_payoff_total_budget cards b strategy mm
                   epsilon h))
    /\ (forall pays fuel,
           let by_name := Calculator.name_to_card cards0 h0 in
           (manual_passes fuel cards0 pays by_name mm epsilon 0 num_zero []
              h0 <= Z.to_nat mm + 1)%nat
           /\ ((Calculator.manual_loop fuel cards0 pays by_name mm epsilon 0
                  num_zero [] h0).2 = None ->
               manual_passes fuel cards0 pays by_name mm epsilon 0 num_zero
                 [] h0 = fuel)
           /\ ((Z.to_nat mm + 1 <= fuel)%nat ->
               Calculator.check_payments pays = Normal tt ->
               Calculator.manual_loop fuel cards0 pays by_name mm epsilon 0
                 num_zero [] h0
               = Calculator.simulate_payoff_manual_payments cards pays mm
                   epsilon h))
    /\ (forall b strategy,
           (forall hk tip hist,
               num_leb b num_zero = false ->
               budget_after (Z.to_nat mm) cards0 b strategy epsilon h0
               = Some (hk, tip, hist) ->
               num_ltb epsilon (total_balance cards0 hk) = true ->
               Calculator.simulate_payoff_total_budget cards b strategy mm
                 epsilon h
               = (hk, Some (Normal (Calculator.budget_cap_result
                                      (Z.max mm 0 + 1) tip hist)))
               /\ budget_passes (S (Z.to_nat mm)) cards0 b strategy mm
                    epsilon 0 num_zero [] h0 = (Z.to_nat mm + 1)%nat)
           /\ (forall h' r,
                  Calculator.simulate_payoff_total_budget cards b strategy mm
                    epsilon h = (h', Some (Normal r)) ->
                  Calculator.paid_off r = false ->
                  Calculator.months r = Z.max mm 0 + 1
                  /\ is_Some (Calculator.reason r)
                  /\ num_ltb epsilon (total_balance cards0 h') = true))
    /\ (forall pays,
           let by_name := Calculator.name_to_card cards0 h0 in
           (forall hk tip hist,
               Calculator.check_payments pays = Normal tt ->
               manual_after (Z.to_nat mm) cards0 pays by_name epsilon h0
               = Some (hk, tip, hist) ->
               num_ltb epsilon (total_balance cards0 hk) = true ->
               Calculator.simulate_payoff_manual_payments cards pays mm
                 epsilon h
               = (hk, Some (Normal (Calculator.manual_cap_result
                                      (Z.max mm 0 + 1) tip hist)))
               /\ manual_passes (S (Z.to_nat mm)) cards0 pays by_name mm
                    epsilon 0 num_zero [] h0 = (Z.to_nat mm + 1)%nat)
           /\ (forall h' r,
                  Calculator.simulate_payoff_manual_payments cards pays mm
                    epsilon h = (h', Some (Normal r)) ->
                  Calculator.paid_off r = false ->
                  Calculator.months r = Z.max mm 0 + 1
                  /\ is_Some (Calculator.reason r)
                  /\ num_ltb epsilon (total_balance cards0 h') = true)).
Proof.
  intros F N h cards mm epsilon.
  unfold Calculator.simulate_payoff_total_budget,
    Calculator.simulate_payoff_manual_payments.
  cbn zeta.
  destruct (deepcopy cards h) as [h0 cards0]. cbn [fst snd].
  split; [|split; [|split; [|split; [|split]]]].
  - intros b strategy. destruct (num_leb b num_zero); [eexists; reflexivity|].
    apply budget_loop_total. lia.
  - intros pays. destruct (Calculator.check_payments pays);
      [|eexists; reflexivity].
    apply manual_loop_total. lia.
  - intros b strategy fuel. split; [|split].
    + pose proof (budget_passes_bound fuel cards0 b strategy mm epsilon 0
                    num_zero [] h0) as Hb.
      replace (mm - 0) with mm in Hb by lia. exact Hb.
    + apply budget_loop_out_of_fuel.
    + intros Hfuel ->. apply budget_loop_fuel; lia.
  - intros pays fuel. split; [|split].
    + pose proof (manual_passes_bound fuel cards0 pays
                    (Calculator.name_to_card cards0 h0) mm epsilon 0
                    num_zero [] h0) as Hb.
      replace (mm - 0) with mm in Hb by lia. exact Hb.
    + apply manual_loop_out_of_fuel.
    + intros Hfuel ->. apply manual_loop_fuel; lia.
  - intros b strategy. split.
    + intros hk tip hist -> Hafter Htot.
      destruct (budget_loop_at_cap _ _ _ _ _ _ _ _ _ Hafter Htot)
        as [Eloop Epasses].
      split; [exact Eloop|]. rewrite Epasses. lia.
    + intros h' r. destruct (num_leb b num_zero); [discriminate|].
      intros E Hr.
      destruct (budget_loop_not_paid_any _ _ _ _ _ _ _ _ _ _ _ _ E Hr)
        as (Hm & Hrest).
      split; [exact Hm|exact Hrest].
  - intros pays. split.
    + intros hk tip hist -> Hafter Htot.
      destruct (manual_loop_at_cap _ _ _ _ _ _ _ _ _ Hafter Htot)
        as [Eloop Epasses].
      split; [exact Eloop|]. rewrite Epasses. lia.
    + intros h' r. destruct (Calculator.check_payments pays); [|discriminate].
      intros E Hr.
      destruct (manual_loop_not_paid_any _ _ _ _ _ _ _ _ _ _ _ _ E Hr)
        as (Hm & Hrest).
      split; [exact Hm|exact Hrest].
Qed.

(** A budget of 10, and manual payments of 5 and 5, do not cover the
    interest of A and B: with a cap of 3 both runs stop in month 4, after
    four passes. *)
Lemma simulations_stop_at_the_month_cap_witness :
  (exists hk tip hist,
      Calculator.simulate_payoff_total_budget [0; 1]%nat 10%float "avalanche"
        3 default_epsilon_binary64 pair64
      = (hk, Some (Normal (Calculator.budget_cap_result 4 tip hist)))
      /\ length hist = 3%nat)
  /\ (exists hk tip hist,
         Calculator.simulate_payoff_manual_payments [0; 1]%nat
           [("A"%string, 5%float); ("B"%string, 5%float)] 3
           default_epsilon_binary64 pair64
         = (hk, Some (Normal (Calculator.manual_cap_result 4 tip hist)))
         /\ length hist = 3%nat)
  /\ (budget_passes 1000 [2; 3]%nat 10%float "avalanche" 3
        default_epsilon_binary64 0 0%float [] (pair64 ++ pair64) <= 4)%nat.
Proof.
  destruct (simulations_stop_at_the_month_cap float binary64 pair64
              [0; 1]%nat 3 default_epsilon_binary64)
    as (_ & _ & Hpasses & _ & Hbudget & Hmanual).
  split; [|split].
  - destruct (Hbudget 10%float "avalanche"%string) as [Hcap _].
    destruct (budget_after 3 [2; 3]%nat 10%float "avalanche"
                default_epsilon_binary64 (pair64 ++ pair64))
      as [[[hk tip] hist]|] eqn:Eafter; [|vm_compute in Eafter; discriminate].
    exists hk, tip, hist.
    destruct (Hcap hk tip hist) as [E _].
    + reflexivity.
    + exact Eafter.
    + revert Eafter. vm_compute. intros E. inversion E. reflexivity.
    + split; [exact E|].
      revert Eafter. vm_compute. intros E'. inversion E'. reflexivity.
  - destruct (Hmanual [("A"%string, 5%float); ("B"%string, 5%float)])
      as [Hcap _].
    destruct (manual_after 3 [2; 3]%nat
                [("A"%string, 5%float); ("B"%string, 5%float)]
                (Calculator.name_to_card [2; 3]%nat (pair64 ++ pair64))
                default_epsilon_binary64 (pair64 ++ pair64))
      as [[[hk tip] hist]|] eqn:Eafter; [|vm_compute in Eafter; discriminate].
    exists hk, tip, hist.
    destruct (Hcap hk tip hist) as [E _].
    + reflexivity.
    + exact Eafter.
    + revert Eafter. vm_compute. intros E. inversion E. reflexivity.
    + split; [exact E|].
      revert Eafter. vm_compute. intros E'. inversion E'. reflexivity.
  - exact (proj1 (Hpasses 10%float "avalanche"%string 1000%nat)).
Defined.

(** C3, counterexample: with a cap of -5 months the loop of the budget
    simulation, and that of the manual simulation, still makes one pass,
    which is more than [max_months + 1 = -4], and the result carries
    [months = 1], which is not [max_months + 1]. *)
Lemma negative_cap_reports_month_one :
  Calculator.simulate_payoff_total_budget [0; 1]%nat 100%float "avalanche"
    (-5) default_epsilon_binary64 pair64
  = (pair64 ++ pair64,
     Some (Normal (Calculator.budget_cap_result 1 0%float [])))
  /\ Calculator.simulate_payoff_manual_payments [0; 1]%nat
       [("A"%string, 60%float); ("B"%string, 40%float)] (-5)
       default_epsilon_binary64 pair64
     = (pair64 ++ pair64,
        Some (Normal (Calculator.manual_cap_result 1 0%float [])))
  /\ Calculator.months (Calculator.budget_cap_result 1 0%float [])
     <> -5 + 1
  /\ budget_passes 1000 [2; 3]%nat 100%float "avalanche" (-5)
       default_epsilon_binary64 0 0%float [] (pair64 ++ pair64) = 1%nat
  /\ Z.of_nat 1 > -5 + 1.
Proof.
  split; [vm_compute; reflexivity|].
  split; [vm_compute; reflexivity|].
  split; [discriminate|].
  split; [vm_compute; reflexivity|reflexivity].
Qed.

(** ** Comparisons of binary64 *)

Section Binary64.







Lemma float_ltb_leb (x y : float) :
  PrimFloat.ltb x y = true -> PrimFloat.leb x y = true.
Proof.
  rewrite FloatAxioms.leb_spec, FloatAxioms.ltb_spec. unfold SFleb, SFltb.
  now destruct (SFcompare (Prim2SF x) (Prim2SF y)) as [[]|].
Qed.

(** [max(0.0, x)] is a number that is not negative, whatever [x] is, a
    NaN included. *)
Lemma float_clamp (x : float) : PrimFloat.leb 0 (py_max 0%float x) = true.
Proof.
  unfold py_max. cbn [num_ltb binary64].
  destruct (PrimFloat.ltb 0 x) eqn:E; [now apply float_ltb_leb|reflexivity].
Qed.

(** A one-time payment leaves a balance that is not negative in the card
    it pays, and every other balance as it was. *)
Lemma apply_one_time_payment_clamps (h : heap float) (cards : list loc)
    (nm : string) (amount : float) (x : loc) :
  PrimFloat.leb 0 (balance (load h x)) = true ->
  PrimFloat.leb 0
    (balance (load (Calculator.apply_one_time_payment cards nm amount h).1 x))
  = true.
Proof.
  intros Hx. unfold Calculator.apply_one_time_payment.
  destruct (num_ltb amount num_zero); [exact Hx|].
  destruct (Calculator.pay_first_match cards nm amount h) as [h' found] eqn:E.
  destruct found.
  - destruct (pay_first_match_found _ _ _ _ _ E)
      as (pre & l & post & _ & _ & _ & ->).
    cbn [fst]. destruct (decide (l = x)) as [->|Hne].
    + destruct (decide (x < length h)%nat) as [Hlt|Hge].
      * rewrite load_store_balance_eq by exact Hlt. cbn [balance].
        apply float_clamp.
      * rewrite store_balance_dangling by lia. exact Hx.
    + rewrite load_store_balance_ne by exact Hne. exact Hx.
  - destruct (pay_first_match_missing _ _ _ _ _ E) as [-> _]. exact Hx.
Qed.

End Binary64.

(** ** Exact arithmetic *)

Section Exact.
Local Open Scope Q_scope.
Implicit Types (h : heap Q) (l : loc) (cards : list loc).

Lemma exact_ltb (x y : Q) : num_ltb x y = true <-> x < y.
Proof.
  cbn. rewrite negb_true_iff, <- not_true_iff_false, Qle_bool_iff.
  split; [apply Qnot_le_lt|apply Qlt_not_le].
Qed.

Lemma exact_ltb_false (x y : Q) : num_ltb x y = false <-> y <= x.
Proof. cbn. now rewrite negb_false_iff, Qle_bool_iff. Qed.

Lemma exact_leb (x y : Q) : num_leb x y = true <-> x <= y.
Proof. cbn. apply Qle_bool_iff. Qed.

Lemma exact_leb_false (x y : Q) : num_leb x y = false <-> y < x.
Proof.
  cbn. rewrite <- not_true_iff_false, Qle_bool_iff.
  split; [apply Qnot_le_lt|apply Qlt_not_le].
Qed.

Lemma exact_eqb_false (x y : Q) : num_eqb x y = false <-> ~ x == y.
Proof. cbn. now rewrite <- not_true_iff_false, Qeq_bool_iff. Qed.

Lemma monthly_rate_exact (a : Q) : monthly_rate a == a / 1200.
Proof. unfold monthly_rate. cbn. field. Qed.

Lemma monthly_rate_nonneg (a : Q) : 0 <= a -> 0 <= monthly_rate a.
Proof.
  intros Ha. rewrite monthly_rate_exact. unfold Qdiv.
  apply Qmult_le_0_compat; [exact Ha|]. vm_compute. discriminate.
Qed.

(** [min] is one of its arguments and below both. *)
Lemma py_min_cases (a b : Q) :
  (b < a /\ py_min a b = b) \/ (a <= b /\ py_min a b = a).
Proof.
  unfold py_min. destruct (num_ltb b a) eqn:E.
  - left. now apply exact_ltb in E.
  - right. now apply exact_ltb_false in E.
Qed.

Lemma py_max_cases (a b : Q) :
  (a < b /\ py_max a b = b) \/ (b <= a /\ py_max a b = a).
Proof.
  unfold py_max. destruct (num_ltb a b) eqn:E.
  - left. now apply exact_ltb in E.
  - right. now apply exact_ltb_false in E.
Qed.

Lemma pay_leaves_nonneg (b r : Q) : 0 <= num_sub b (py_min b r).
Proof.
  change (0 <= b - py_min b r).
  destruct (py_min_cases b r) as [[Hlt ->]|[Hle ->]]; lra.
Qed.

Lemma py_max_zero_nonneg (x : Q) : 0 <= py_max num_zero x.
Proof.
  change (@num_zero Q exact) with 0.
  destruct (py_max_cases 0 x) as [[Hlt ->]|[Hle ->]]; lra.
Qed.

Lemma accrual_nonneg (b a : Q) :
  0 <= b -> 0 <= a -> 0 <= num_add b (num_mul b (monthly_rate a)).
Proof.
  intros Hb Ha. pose proof (monthly_rate_nonneg a Ha).
  change (0 <= b + b * monthly_rate a). nra.
Qed.

(** *** Balances never go below zero *)

Lemma card_ok_store h l v x :
  card_ok h x -> 0 <= v -> card_ok (store_balance h l v) x.
Proof.
  intros [Hb Ha] Hv. unfold card_ok.
  rewrite apr_load_store_balance. split; [|exact Ha].
  destruct (decide (l = x)) as [<-|Hne].
  - destruct (decide (l < length h)%nat).
    + now rewrite load_store_balance_eq.
    + now rewrite store_balance_dangling by lia.
  - now rewrite load_store_balance_ne.
Qed.

Lemma accrue_interest_ok ls epsilon acc h x :
  Forall (card_ok h) ls -> card_ok h x ->
  card_ok (accrue_interest ls epsilon acc h).1 x.
Proof.
  revert acc h. induction ls as [|l ls IH]; intros acc h Hls Hx;
    cbn [accrue_interest]; [exact Hx|].
  inversion Hls as [|? ? [Hb Ha] Hrest]; subst.
  destruct (num_ltb epsilon (balance (load h l))); [|now apply IH].
  assert (Hv : 0 <= num_add (balance (load h l))
                      (num_mul (balance (load h l))
                         (monthly_rate (apr (load h l)))))
    by now apply accrual_nonneg.
  apply IH; [|now apply card_ok_store].
  eapply Forall_impl; [exact Hrest|].
  intros y Hy. now apply card_ok_store.
Qed.

Lemma pay_in_order_ok ls epsilon r h x :
  card_ok h x -> card_ok (pay_in_order ls epsilon r h).1.1 x.
Proof.
  revert r h. induction ls as [|l ls IH]; intros r h Hx; cbn [pay_in_order];
    [exact Hx|].
  destruct (num_leb r epsilon); [exact Hx|].
  match goal with
  | |- context [pay_in_order ls epsilon ?r' ?h'] =>
      specialize (IH r' h');
      destruct (pay_in_order ls epsilon r' h') as [[h2 r2] tr]
  end.
  cbn [fst] in *. apply IH, card_ok_store; [exact Hx|apply pay_leaves_nonneg].
Qed.

Lemma pay_proportional_ok ls r total h x :
  card_ok h x -> card_ok (pay_proportional ls r total h).1 x.
Proof.
  revert h. induction ls as [|l ls IH]; intros h Hx; cbn [pay_proportional];
    [exact Hx|].
  destruct (py_div (balance (load h l)) total) as [q|e]; [|exact Hx].
  match goal with
  | |- context [pay_proportional ls r total ?h'] =>
      specialize (IH h');
      destruct (pay_proportional ls r total h') as [h2 [tr|e]]
  end; cbn [fst] in *;
    (apply IH, card_ok_store; [exact Hx|apply pay_leaves_nonneg]).
Qed.

Lemma apply_payments_manual_ok pays (by_name : gmap string loc) epsilon h x :
  card_ok h x ->
  card_ok (Calculator.apply_payments_manual pays by_name epsilon h).1 x.
Proof.
  revert h. induction pays as [|[nm amt] pays IH]; intros h Hx;
    cbn [Calculator.apply_payments_manual]; [exact Hx|].
  destruct (by_name !! nm) as [l|]; [|exact Hx].
  destruct (num_ltb epsilon (balance (load h l)) && num_ltb num_zero amt);
    [|now apply IH].
  apply IH, card_ok_store; [exact Hx|apply pay_leaves_nonneg].
Qed.

Lemma second_pass_ok strategy cards epsilon r h x :
  card_ok h x ->
  card_ok (Calculator.second_pass strategy cards epsilon r h).1.1 x.
Proof.
  intros Hx. unfold Calculator.second_pass.
  destruct (num_ltb epsilon r); [|exact Hx]. now apply pay_in_order_ok.
Qed.

Lemma allocate_in_order_ok strategy cards active epsilon b h x :
  card_ok h x ->
  card_ok (Calculator.allocate_in_order strategy cards active epsilon b h).1.1
    x.
Proof.
  intros Hx. unfold Calculator.allocate_in_order.
  pose proof (pay_in_order_ok active epsilon b h x Hx) as H1.
  destruct (pay_in_order active epsilon b h) as [[h1 r1] tr1].
  pose proof (second_pass_ok strategy cards epsilon r1 h1 x H1) as H2.
  destruct (Calculator.second_pass strategy cards epsilon r1 h1)
    as [[h2 r2] tr2].
  exact H2.
Qed.

Lemma apply_one_time_payment_ok cards nm amount h x :
  card_ok h x ->
  card_ok (Calculator.apply_one_time_payment cards nm amount h).1 x.
Proof.
  intros Hx. unfold Calculator.apply_one_time_payment.
  destruct (num_ltb amount num_zero); [exact Hx|].
  destruct (Calculator.pay_first_match cards nm amount h) as [h1 found] eqn:E.
  assert (card_ok h1 x) as H1.
  { destruct found.
    - destruct (pay_first_match_found _ _ _ _ _ E)
        as (pre & l & post & _ & _ & _ & ->).
      apply card_ok_store; [exact Hx|apply py_max_zero_nonneg].
    - now destruct (pay_first_match_missing _ _ _ _ _ E) as [-> _]. }
  now destruct found.
Qed.

End Exact.

Section ExactInvariant.
Local Open Scope Q_scope.
Implicit Types (h : heap Q) (l : loc) (cards : list loc).

Lemma dict_set_nonneg k (v : Q) d :
  0 <= v -> Forall (fun kv => 0 <= kv.2) d ->
  Forall (fun kv => 0 <= kv.2) (dict_set k v d).
Proof.
  intros Hv. induction 1 as [|[k' v'] d Hk Hd IH]; cbn [dict_set].
  - repeat constructor. exact Hv.
  - destruct (String.eqb k' k); constructor; assumption.
Qed.

Lemma display_balances_nonneg cards h :
  Forall (fun kv => 0 <= kv.2) (display_balances cards h).
Proof.
  unfold display_balances.
  assert (G : forall d : list (string * Q),
             Forall (fun kv => 0 <= kv.2) d ->
             Forall (fun kv => 0 <= kv.2)
               (foldl (fun d l => dict_set (name (load h l))
                                    (py_max num_zero (balance (load h l))) d)
                  d cards)).
  { induction cards as [|l cards IH]; intros d Hd; cbn [foldl]; [exact Hd|].
    apply IH, dict_set_nonneg; [apply py_max_zero_nonneg|exact Hd]. }
  apply G. constructor.
Qed.

Lemma history_ok_snoc hist cards m mi tip h :
  history_ok hist ->
  history_ok (hist ++ [Calculator.record_snapshot cards m mi tip h]).
Proof.
  intros Hh. apply Forall_app. split; [exact Hh|].
  constructor; [|constructor]. apply display_balances_nonneg.
Qed.

Lemma month_cycle_ok cards b strategy epsilon m tip hist h :
  Forall (card_ok h) cards ->
  (forall x, card_ok h x ->
     card_ok (Calculator.month_cycle cards b strategy epsilon m tip hist h).1
       x)
  /\ (history_ok hist ->
      match (Calculator.month_cycle cards b strategy epsilon m tip hist h).2
      with
      | Calculator.Continue _ hist' | Calculator.Break _ hist' =>
          history_ok hist'
      | Calculator.Raised _ => True
      end).
Proof.
  intros Hc. unfold Calculator.month_cycle.
  pose proof (fun x => accrue_interest_ok cards epsilon num_zero h x Hc) as H1.
  destruct (accrue_interest cards epsilon num_zero h) as [h1 mi].
  cbn [fst] in H1.
  destruct (Calculator.payoff_order strategy (active_cards cards epsilon h1) h1)
    as [sorted|e]; [|split; [exact H1|cbn [snd]; auto]].
  destruct (String.eqb strategy "proportional").
  - destruct (num_leb _ epsilon); [split; [exact H1|cbn [snd]; auto]|].
    pose proof (fun x => pay_proportional_ok sorted b
                  (py_sum ((fun l => balance (load h1 l)) <$> sorted)) h1 x)
      as H2.
    destruct (pay_proportional sorted b _ h1) as [h2 [tr|e]];
      cbn [fst snd] in *.
    + split; [intros x Hx; apply H2, H1, Hx|apply history_ok_snoc].
    + split; [intros x Hx; apply H2, H1, Hx|auto].
  - pose proof (fun x => allocate_in_order_ok strategy cards sorted epsilon b
                  h1 x) as H2.
    destruct (Calculator.allocate_in_order strategy cards sorted epsilon b h1)
      as [[h2 r2] tr2]. cbn [fst snd] in *.
    split; [intros x Hx; apply H2, H1, Hx|apply history_ok_snoc].
Qed.

Lemma budget_loop_ok fuel cards b strategy mm epsilon m tip hist h :
  Forall (card_ok h) cards -> history_ok hist ->
  (forall x, card_ok h x ->
     card_ok
       (Calculator.budget_loop fuel cards b strategy mm epsilon m tip hist h).1
       x)
  /\ (forall r,
         (Calculator.budget_loop fuel cards b strategy mm epsilon m tip hist
            h).2 = Some (Normal r) ->
         history_ok (Calculator.history r)).
Proof.
  revert m tip hist h. induction fuel as [|fuel IH];
    intros m tip hist h Hc Hh; cbn [Calculator.budget_loop].
  - split; [auto|discriminate].
  - destruct (num_ltb epsilon (total_balance cards h)).
    2:{ split; [auto|]. intros r E. inversion E; subst. exact Hh. }
    destruct (m + 1 >? mm).
    { split; [auto|]. intros r E. inversion E; subst. exact Hh. }
    destruct (month_cycle_ok cards b strategy epsilon (m + 1) tip hist h Hc)
      as [H1 H2]. specialize (H2 Hh).
    destruct (Calculator.month_cycle cards b strategy epsilon (m + 1) tip hist
                h) as [h1 [tip' hist'|tip' hist'|e]]; cbn [fst snd] in *.
    + destruct (IH (m + 1)%Z tip' hist' h1) as [I1 I2];
        [eapply Forall_impl; [exact Hc|exact H1]|exact H2|].
      split; [intros x Hx; apply I1, H1, Hx|exact I2].
    + split; [exact H1|]. intros r E. inversion E; subst. exact H2.
    + split; [exact H1|discriminate].
Qed.

Lemma manual_cycle_ok cards pays (by_name : gmap string loc) epsilon m tip
    hist h :
  Forall (card_ok h) cards ->
  (forall x, card_ok h x ->
     card_ok (Calculator.manual_cycle cards pays by_name epsilon m tip hist
                h).1 x)
  /\ (history_ok hist ->
      match (Calculator.manual_cycle cards pays by_name epsilon m tip hist h).2
      with
      | Normal (_, hist') => history_ok hist'
      | Raise _ => True
      end).
Proof.
  intros Hc. unfold Calculator.manual_cycle.
  pose proof (fun x => accrue_interest_ok cards epsilon num_zero h x Hc) as H1.
  destruct (accrue_interest cards epsilon num_zero h) as [h1 mi].
  cbn [fst] in H1.
  pose proof (fun x => apply_payments_manual_ok pays by_name epsilon h1 x)
    as H2.
  destruct (Calculator.apply_payments_manual pays by_name epsilon h1)
    as [h2 [u|e]]; cbn [fst snd] in *.
  - split; [intros x Hx; apply H2, H1, Hx|apply history_ok_snoc].
  - split; [intros x Hx; apply H2, H1, Hx|auto].
Qed.

Lemma manual_loop_ok fuel cards pays (by_name : gmap string loc) mm epsilon m
    tip hist h :
  Forall (card_ok h) cards -> history_ok hist ->
  (forall x, card_ok h x ->
     card_ok
       (Calculator.manual_loop fuel cards pays by_name mm epsilon m tip hist
          h).1 x)
  /\ (forall r,
         (Calculator.manual_loop fuel cards pays by_name mm epsilon m tip hist
            h).2 = Some (Normal r) ->
         history_ok (Calculator.history r)).
Proof.
  revert m tip hist h. induction fuel as [|fuel IH];
    intros m tip hist h Hc Hh; cbn [Calculator.manual_loop].
  - split; [auto|discriminate].
  - destruct (num_ltb epsilon (total_balance cards h)).
    2:{ split; [auto|]. intros r E. inversion E; subst. exact Hh. }
    destruct (m + 1 >? mm).
    { split; [auto|]. intros r E. inversion E; subst. exact Hh. }
    destruct (manual_cycle_ok cards pays by_name epsilon (m + 1) tip hist h Hc)
      as [H1 H2]. specialize (H2 Hh).
    destruct (Calculator.manual_cycle cards pays by_name epsilon (m + 1) tip
                hist h) as [h1 [[tip' hist']|e]]; cbn [fst snd] in *.
    + destruct (IH (m + 1)%Z tip' hist' h1) as [I1 I2];
        [eapply Forall_impl; [exact Hc|exact H1]|exact H2|].
      split; [intros x Hx; apply I1, H1, Hx|exact I2].
    + split; [exact H1|discriminate].
Qed.

(** The copies are as good as the originals, and copying disturbs none. *)
Lemma deepcopy_ok cards h :
  allocated h cards -> Forall (card_ok h) cards ->
  Forall (card_ok (deepcopy cards h).1) (deepcopy cards h).2
  /\ Forall (card_ok (deepcopy cards h).1) cards.
Proof.
  intros Hal Hc. split.
  - apply (Forall_load (fun c => 0 <= balance c /\ 0 <= apr c) cards _ h);
      [apply deepcopy_load, Hal|exact Hc].
  - destruct (deepcopy_frame cards h) as (Hsame & _ & _).
    unfold allocated in Hal. rewrite Forall_forall in *.
    intros x Hx. unfold card_ok.
    rewrite (same_upto_load _ _ _ _ Hsame (Hal x Hx)). now apply Hc.
Qed.

End ExactInvariant.

(** C8.  In exact arithmetic, for allocated cards whose balances and APRs
    are not negative, no balance is negative after any of the writes of the
    engine: after the accrual over the cards, after the payments of a walk
    over any list of active cards (in order, or proportional), after the
    manual payments, after a one-time payment, and at the end of either
    simulation, in the caller's cards and in the private copies alike; the
    history shows no negative balance.  A one-time payment of at least the
    balance leaves the balance equal to 0.  (The statements hold for every
    list the loops walk, hence after each single accrual and payment.)
    In binary64, for every store, list, name and amount, a NaN or an
    infinity included: a one-time payment that finds its card leaves in it
    a balance that is a number not below zero, and a balance that was not
    below zero before the call, of whatever card, is not below zero after
    it. *)
Theorem balances_never_negative :
  (forall (h : heap Q) (cards : list loc),
    allocated h cards ->
    Forall (card_ok h) cards ->
    (forall ls epsilon acc,
        Forall (card_ok h) ls ->
        Forall (card_ok (accrue_interest ls epsilon acc h).1) cards)
    /\ (forall active epsilon r,
           Forall (card_ok (pay_in_order active epsilon r h).1.1) cards)
    /\ (forall active r total,
           Forall (card_ok (pay_proportional active r total h).1) cards)
    /\ (forall pays (by_name : gmap string loc) epsilon,
           Forall (card_ok (Calculator.apply_payments_manual pays by_name
                              epsilon h).1) cards)
    /\ (forall nm amount,
           Forall (card_ok (Calculator.apply_one_time_payment cards nm amount
                              h).1) cards)
    /\ (forall pre l post nm amount,
           cards = pre ++ l :: post ->
           Forall (fun k => name (load h k) <> nm) pre ->
           name (load h l) = nm ->
           (0 <= amount)%Q ->
           (balance (load h l) <= amount)%Q ->
           balance (load (Calculator.apply_one_time_payment cards nm amount
                            h).1 l) = 0%Q)
    /\ (forall b strategy mm epsilon,
           Forall (card_ok (Calculator.simulate_payoff_total_budget cards b
                              strategy mm epsilon h).1)
             (cards ++ (deepcopy cards h).2)
           /\ (forall r,
                  (Calculator.simulate_payoff_total_budget cards b strategy mm
                     epsilon h).2 = Some (Normal r) ->
                  history_ok (Calculator.history r)))
    /\ (forall pays mm epsilon,
           Forall (card_ok (Calculator.simulate_payoff_manual_payments cards
                              pays mm epsilon h).1)
             (cards ++ (deepcopy cards h).2)
           /\ (forall r,
                  (Calculator.simulate_payoff_manual_payments cards pays mm
                     epsilon h).2 = Some (Normal r) ->
                  history_ok (Calculator.history r))))
  /\ (forall (h : heap float) (cards : list loc) (nm : string)
             (amount : float),
         (forall x,
             PrimFloat.leb 0 (balance (load h x)) = true ->
             PrimFloat.leb 0
               (balance (load (Calculator.apply_one_time_payment cards nm
                                 amount h).1 x)) = true)
         /\ (forall pre l post,
                cards = pre ++ l :: post ->
                Forall (fun k => name (load h k) <> nm) pre ->
                name (load h l) = nm ->
                (l < length h)%nat ->
                PrimFloat.ltb amount 0 = false ->
                (Calculator.apply_one_time_payment cards nm amount h).2
                = Normal tt
                /\ PrimFloat.leb 0
                     (balance (load (Calculator.apply_one_time_payment cards
                                       nm amount h).1 l)) = true)).
Proof.
  split.
  2:{ intros h cards nm amount. split.
      - intros x. apply apply_one_time_payment_clamps.
      - intros pre l post -> Hpre Hl Hlt Hamount.
        unfold Calculator.apply_one_time_payment.
        cbn [num_ltb num_zero binary64]. rewrite Hamount.
        rewrite pay_first_match_first by assumption. cbn [fst snd].
        split; [reflexivity|].
        rewrite load_store_balance_eq by exact Hlt. cbn [balance].
        apply float_clamp. }
  intros h cards Hal Hc.
  split; [|split; [|split; [|split; [|split; [|split; [|split]]]]]].
  - intros ls epsilon acc Hls. eapply Forall_impl; [exact Hc|].
    intros x Hx. now apply accrue_interest_ok.
  - intros active epsilon r. eapply Forall_impl; [exact Hc|].
    intros x Hx. now apply pay_in_order_ok.
  - intros active r total. eapply Forall_impl; [exact Hc|].
    intros x Hx. now apply pay_proportional_ok.
  - intros pays by_name epsilon. eapply Forall_impl; [exact Hc|].
    intros x Hx. now apply apply_payments_manual_ok.
  - intros nm amount. eapply Forall_impl; [exact Hc|].
    intros x Hx. now apply apply_one_time_payment_ok.
  - intros pre l post nm amount -> Hpre Hl Hamt Hover.
    unfold Calculator.apply_one_time_payment.
    replace (num_ltb amount num_zero) with false
      by (symmetry; now apply exact_ltb_false).
    rewrite pay_first_match_first by assumption. cbn [fst].
    unfold allocated in Hal. rewrite Forall_app, Forall_cons in Hal.
    destruct Hal as (_ & Hlt & _).
    rewrite load_store_balance_eq by exact Hlt. cbn [balance].
    unfold py_max.
    replace (num_ltb num_zero (num_sub (balance (load h l)) amount))
      with false; [reflexivity|].
    symmetry. apply exact_ltb_false.
    change (balance (load h l) - amount <= 0)%Q. lra.
  - intros b strategy mm epsilon.
    destruct (deepcopy_ok cards h Hal Hc) as [Hcopies Hcallers].
    assert (deepcopy cards h = ((deepcopy cards h).1, (deepcopy cards h).2))
      as Ed by now destruct (deepcopy cards h).
    unfold Calculator.simulate_payoff_total_budget.
    destruct (num_leb b num_zero).
    { cbn [fst snd]. split; [|discriminate].
      apply Forall_app. split; [exact Hc|].
      (* Nothing was copied: the locations of the copies are not allocated. *)
      destruct (deepcopy_frame cards h) as (_ & Habove & _).
      eapply Forall_impl; [exact Habove|].
      intros x Hx. unfold card_ok, load.
      rewrite lookup_ge_None_2 by exact Hx. cbn. split; discriminate. }
    rewrite Ed.
    destruct (budget_loop_ok (S (Z.to_nat mm)) (deepcopy cards h).2 b strategy
                mm epsilon 0 num_zero [] (deepcopy cards h).1 Hcopies)
      as [I1 I2]; [constructor|].
    split; [|exact I2].
    apply Forall_app. split; (eapply Forall_impl; [eassumption|exact I1]).
  - intros pays mm epsilon.
    destruct (deepcopy_ok cards h Hal Hc) as [Hcopies Hcallers].
    assert (deepcopy cards h = ((deepcopy cards h).1, (deepcopy cards h).2))
      as Ed by now destruct (deepcopy cards h).
    unfold Calculator.simulate_payoff_manual_payments. rewrite Ed.
    destruct (Calculator.check_payments pays).
    2:{ cbn [fst snd]. split; [|discriminate].
        apply Forall_app. now split. }
    destruct (manual_loop_ok (S (Z.to_nat mm)) (deepcopy cards h).2 pays
                (Calculator.name_to_card (deepcopy cards h).2
                   (deepcopy cards h).1)
                mm epsilon 0 num_zero [] (deepcopy cards h).1 Hcopies)
      as [I1 I2]; [constructor|].
    split; [|exact I2].
    apply Forall_app. split; (eapply Forall_impl; [eassumption|exact I1]).
Qed.

(** A payment of 600 to B, which owes 500, and a snowball run on A and B,
    in exact arithmetic; a payment of 600 to B in binary64. *)
Lemma balances_never_negative_witness :
  balance (load (Calculator.apply_one_time_payment [0; 1]%nat "B" 600%Q
                   pairQ).1 1%nat) = 0%Q
  /\ Forall (card_ok (Calculator.simulate_payoff_total_budget [0; 1]%nat
                        100%Q "snowball" default_max_months
                        default_epsilon_exact pairQ).1)
       ([0; 1]%nat ++ (deepcopy [0; 1]%nat pairQ).2)
  /\ PrimFloat.leb 0
       (balance (load (Calculator.apply_one_time_payment [0; 1]%nat "B"
                         600%float pair64).1 1%nat)) = true.
Proof.
  assert (Hal : allocated pairQ [0; 1]%nat)
    by (repeat constructor).
  assert (Hc : Forall (card_ok pairQ) [0; 1]%nat)
    by (repeat constructor; cbn; lra).
  destruct balances_never_negative as [Hexact Hbinary64].
  destruct (Hexact pairQ [0; 1]%nat Hal Hc)
    as (_ & _ & _ & _ & _ & Hclamp & Hbudget & _).
  split; [|split].
  - apply (Hclamp [0%nat] 1%nat [] "B"%string 600%Q).
    + reflexivity.
    + repeat constructor; discriminate.
    + reflexivity.
    + lra.
    + cbn. lra.
  - apply Hbudget.
  - destruct (Hbinary64 pair64 [0; 1]%nat "B"%string 600%float)
      as [_ Hpaid].
    destruct (Hpaid [0%nat] 1%nat []) as [_ Hpos].
    + reflexivity.
    + repeat constructor; discriminate.
    + reflexivity.
    + cbn. lia.
    + reflexivity.
    + exact Hpos.
Defined.

(** C8, counterexample: in binary64 a balance can leave the numbers.  The
    card owes 1e308 at 1200%, both not negative.  The accrual of the first
    month of a proportional run doubles the balance, which overflows to
    infinity; the share is then [100 * (inf / inf)], a NaN; the payment
    [min(inf, nan)] is infinity and the balance [inf - inf] a NaN, which is
    not [>= 0].  The loop test [nan > epsilon] fails and the run reports
    the debt paid off after one month, with a NaN as the total balance of
    its only snapshot.  The caller's card is as it was. *)
Lemma overflow_leaves_a_balance_that_is_no_number :
  PrimFloat.leb 0 (balance (load huge64 0)) = true
  /\ PrimFloat.leb 0 (apr (load huge64 0)) = true
  /\ balance (load (accrue_interest [0%nat] default_epsilon_binary64 0%float
                      huge64).1 0) = infinity
  /\ exists h' r,
       Calculator.simulate_payoff_total_budget [0%nat] 100%float
         "proportional" default_max_months default_epsilon_binary64 huge64
       = (h', Some (Normal r))
       /\ (Streamlit.simulate_payoff_total_budget [0%nat] 100%float
             "proportional" default_max_months default_epsilon_binary64
             huge64).1 = h'
       /\ take 1 h' = huge64
       /\ (deepcopy [0%nat] huge64).2 = [1%nat]
       /\ PrimFloat.leb 0 (balance (load h' 1)) = false
       /\ PrimFloat.eqb (balance (load h' 1)) (balance (load h' 1)) = false
       /\ Calculator.paid_off r = true
       /\ Calculator.months r = 1
       /\ (PrimFloat.leb 0 <$> (Calculator.snap_total_balance
                                   <$> Calculator.history r)) = [false].
Proof.
  split; [vm_compute; reflexivity|]. split; [vm_compute; reflexivity|].
  split; [vm_compute; reflexivity|].
  eexists _, _. split; [vm_compute; reflexivity|].
  repeat split; vm_compute; reflexivity.
Qed.

(** ** The two implementations of the budget simulation *)

Section Equivalence.
Local Open Scope Q_scope.
Implicit Types (h : heap Q) (l : loc) (cards : list loc).


Lemma pay_in_order_stops ls epsilon (r : Q) h :
  r <= epsilon -> pay_in_order ls epsilon r h = (h, r, []).
Proof.
  intros Hr. destruct ls as [|l ls]; cbn [pay_in_order]; [reflexivity|].
  now rewrite (proj2 (exact_leb r epsilon) Hr).
Qed.

Lemma pay_in_order_frame ls epsilon (r : Q) h x :
  x ∉ ls -> load (pay_in_order ls epsilon r h).1.1 x = load h x.
Proof.
  revert r h. induction ls as [|l ls IH]; intros r h Hx;
    cbn [pay_in_order]; [reflexivity|].
  apply not_elem_of_cons in Hx as [Hne Hx].
  destruct (num_leb r epsilon); [reflexivity|].
  match goal with
  | |- context [pay_in_order ls epsilon ?r' ?h'] =>
      specialize (IH r' h' Hx);
      destruct (pay_in_order ls epsilon r' h') as [[h2 r2] tr]
  end.
  cbn [fst] in *. rewrite IH. apply load_store_balance_ne. congruence.
Qed.

(** Budget is left after a walk only if every card of the walk was paid
    in full. *)
Lemma pay_in_order_leftover ls epsilon (r : Q) h x :
  0 <= epsilon ->
  epsilon < (pay_in_order ls epsilon r h).1.2 ->
  x ∈ ls ->
  balance (load (pay_in_order ls epsilon r h).1.1 x) == 0.
Proof.
  intros Heps. revert r h. induction ls as [|l ls IH]; intros r h Hleft Hx;
    [now apply elem_of_nil in Hx|].
  cbn [pay_in_order] in *.
  destruct (num_leb r epsilon) eqn:Er.
  { apply exact_leb in Er. cbn [fst snd] in Hleft. lra. }
  set (b := balance (load h l)) in *.
  set (h1 := store_balance h l (num_sub b (py_min b r))) in *.
  pose proof (IH (num_sub r (py_min b r)) h1) as IH'.
  pose proof (pay_in_order_frame ls epsilon (num_sub r (py_min b r)) h1 x)
    as Hframe.
  pose proof (pay_in_order_stops ls epsilon (num_sub r (py_min b r)) h1)
    as Hstop.
  destruct (pay_in_order ls epsilon (num_sub r (py_min b r)) h1)
    as [[h2 r2] tr]. cbn [fst snd] in *.
  destruct (decide (x ∈ ls)) as [Hin|Hnin]; [now apply IH'|].
  apply elem_of_cons in Hx as [->|Hx]; [|contradiction].
  rewrite (Hframe Hnin). subst h1.
  destruct (decide (l < length h)%nat) as [Hlt|Hge].
  - rewrite load_store_balance_eq by exact Hlt. cbn [balance].
    change (b - py_min b r == 0).
    destruct (py_min_cases b r) as [[Hlt' E]|[Hle E]]; rewrite E; [|lra].
    (* The card took all that was left: the walk stops with nothing. *)
    exfalso. rewrite E in Hstop.
    assert (Hz : num_sub r r <= epsilon) by (change (r - r <= epsilon); lra).
    specialize (Hstop Hz). inversion Hstop; subst.
    change (epsilon < r - r) in Hleft. lra.
  - rewrite store_balance_dangling by lia.
    unfold load. rewrite lookup_ge_None_2 by lia. reflexivity.
Qed.

(** Hence the second walk of [debt_calculator.py] finds no active card. *)
Lemma second_pass_idle strategy key cards epsilon (b : Q) h :
  0 <= epsilon ->
  let first := pay_in_order (sort_by_key key h (active_cards cards epsilon h))
                 epsilon b h in
  Calculator.second_pass strategy cards epsilon first.1.2 first.1.1
  = (first.1.1, first.1.2, []).
Proof.
  intros Heps first. unfold Calculator.second_pass.
  destruct (num_ltb epsilon first.1.2) eqn:Eleft; [|reflexivity].
  apply exact_ltb in Eleft.
  assert (Hnone : active_cards cards epsilon first.1.1 = []).
  { apply active_cards_inactive, Forall_forall. intros x Hx.
    apply exact_ltb_false.
    destruct (decide (x ∈ sort_by_key key h (active_cards cards epsilon h)))
      as [Hin|Hnin].
    - subst first. rewrite pay_in_order_leftover; [exact Heps|exact Heps| |];
        assumption.
    - subst first. rewrite pay_in_order_frame by exact Hnin.
      apply exact_ltb_false. apply not_true_is_false. intros Hact.
      apply Hnin. rewrite sort_by_key_perm.
      apply list_elem_of_filter. now split. }
  rewrite Hnone.
  now destruct (String.eqb strategy "avalanche").
Qed.

End Equivalence.

Section EquivalenceLoops.
Local Open Scope Q_scope.
Implicit Types (h : heap Q) (l : loc) (cards : list loc).

Lemma allocate_in_order_first_pass strategy key cards epsilon (b : Q) h :
  0 <= epsilon ->
  (Calculator.allocate_in_order strategy cards
     (sort_by_key key h (active_cards cards epsilon h)) epsilon b h).1.1
  = (pay_in_order (sort_by_key key h (active_cards cards epsilon h))
       epsilon b h).1.1.
Proof.
  intros Heps. unfold Calculator.allocate_in_order.
  pose proof (second_pass_idle strategy key cards epsilon b h Heps) as Hidle.
  cbn zeta in Hidle.
  destruct (pay_in_order (sort_by_key key h (active_cards cards epsilon h))
              epsilon b h) as [[h1 r1] tr1].
  cbn [fst snd] in *. now rewrite Hidle.
Qed.



End EquivalenceLoops.




(** ** Proportional allocation *)

Section Proportional.
Local Open Scope Q_scope.
Implicit Types (h : heap Q) (l : loc) (cards : list loc).

Lemma py_sum_from (a : Q) xs : foldl num_add a xs == a + py_sum xs.
Proof.
  unfold py_sum. revert a. induction xs as [|x xs IH]; intros a; cbn [foldl].
  - cbn. lra.
  - rewrite (IH (num_add a x)), (IH (num_add num_zero x)).
    change (a + x + foldl num_add num_zero xs
            == a + (0 + x + foldl num_add num_zero xs)). lra.
Qed.

Lemma py_sum_cons (x : Q) xs : py_sum (x :: xs) == x + py_sum xs.
Proof.
  unfold py_sum at 1. cbn [foldl]. rewrite py_sum_from.
  change (0 + x + py_sum xs == x + py_sum xs). lra.
Qed.

Lemma py_sum_le {A} (f g : A -> Q) ls :
  Forall (fun x => f x <= g x) ls -> py_sum (f <$> ls) <= py_sum (g <$> ls).
Proof.
  induction 1 as [|x ls Hx Hls IH]; [cbn; lra|].
  rewrite !fmap_cons, !py_sum_cons. lra.
Qed.

Lemma py_sum_lt {A} (f g : A -> Q) ls :
  Forall (fun x => f x <= g x) ls -> Exists (fun x => f x < g x) ls ->
  py_sum (f <$> ls) < py_sum (g <$> ls).
Proof.
  intros Hall Hex. induction Hall as [|x ls Hx Hls IH];
    [now apply Exists_nil in Hex|].
  rewrite !fmap_cons, !py_sum_cons.
  apply Exists_cons in Hex as [Hlt|Hex].
  - pose proof (py_sum_le f g ls Hls). lra.
  - specialize (IH Hex). lra.
Qed.

Lemma py_sum_eq {A} (f g : A -> Q) ls :
  Forall (fun x => f x == g x) ls -> py_sum (f <$> ls) == py_sum (g <$> ls).
Proof.
  induction 1 as [|x ls Hx Hls IH]; [reflexivity|].
  rewrite !fmap_cons, !py_sum_cons. lra.
Qed.

(** The shares of all the cards add up to the budget. *)
Lemma proportional_shares_add_up (r total : Q) (cs : list (Card Q)) :
  ~ total == 0 -> py_sum (balance <$> cs) == total ->
  py_sum (proportional_share r total <$> cs) == r.
Proof.
  intros Ht Hsum.
  assert (G : py_sum (proportional_share r total <$> cs)
              == r * (py_sum (balance <$> cs) / total)).
  { clear Hsum. induction cs as [|c cs IH].
    - cbn. field. exact Ht.
    - rewrite !fmap_cons, !py_sum_cons, IH.
      unfold proportional_share. cbn [num_mul num_quot exact]. field.
      exact Ht. }
  rewrite G, Hsum. field. exact Ht.
Qed.

(** On distinct cards the walk pays each card [proportional_pay] of the
    balance it had before the walk, and nothing else. *)
Lemma pay_proportional_walk ls (r total : Q) h :
  NoDup ls -> ~ total == 0 ->
  (pay_proportional ls r total h).2
  = Normal ((fun l => (l, proportional_pay r total (load h l))) <$> ls)
  /\ (forall x, x ∉ ls -> load (pay_proportional ls r total h).1 x = load h x)
  /\ (forall x, x ∈ ls -> (x < length h)%nat ->
        balance (load (pay_proportional ls r total h).1 x)
        = num_sub (balance (load h x)) (proportional_pay r total (load h x))).
Proof.
  intros Hnd Ht. revert h. induction Hnd as [|l ls Hl Hnd IH]; intros h;
    cbn [pay_proportional].
  - split; [reflexivity|split; [reflexivity|]].
    intros x Hx. now apply elem_of_nil in Hx.
  - assert (Ez : num_eqb total num_zero = false)
      by (apply exact_eqb_false; exact Ht).
    unfold py_div. rewrite Ez.
    fold (proportional_share r total (load h l)).
    fold (proportional_pay r total (load h l)).
    set (h1 := store_balance h l
                 (num_sub (balance (load h l))
                    (proportional_pay r total (load h l)))).
    destruct (IH h1) as (I1 & I2 & I3).
    destruct (pay_proportional ls r total h1) as [h2 c]. cbn [fst snd] in *.
    subst c.
    assert (Hold : forall x, x ∈ ls -> load h1 x = load h x).
    { intros x Hx. apply load_store_balance_ne. intros ->. contradiction. }
    split; [|split].
    + cbn [snd]. rewrite fmap_cons. do 2 f_equal.
      apply Forall_fmap_ext, Forall_forall. intros x Hx. now rewrite Hold.
    + intros x Hx. apply not_elem_of_cons in Hx as [Hne Hx].
      rewrite I2 by exact Hx. apply load_store_balance_ne. congruence.
    + intros x Hx Hlt. apply elem_of_cons in Hx as [->|Hx].
      * rewrite I2 by exact Hl. subst h1.
        now rewrite load_store_balance_eq.
      * rewrite I3, Hold; [reflexivity|exact Hx|exact Hx|].
        subst h1. now rewrite length_store_balance.
Qed.

Lemma proportional_pay_le_share (r total : Q) (c : Card Q) :
  proportional_pay r total c <= proportional_share r total c.
Proof.
  unfold proportional_pay.
  destruct (py_min_cases (balance c) (proportional_share r total c))
    as [[Hlt ->]|[Hle ->]]; lra.
Qed.

Lemma proportional_pay_uncapped (r total : Q) (c : Card Q) :
  proportional_share r total c <= balance c ->
  proportional_pay r total c == proportional_share r total c.
Proof.
  intros Hs. unfold proportional_pay.
  destruct (py_min_cases (balance c) (proportional_share r total c))
    as [[Hlt ->]|[Hle ->]]; lra.
Qed.

Lemma proportional_pay_capped (r total : Q) (c : Card Q) :
  balance c < proportional_share r total c ->
  proportional_pay r total c < proportional_share r total c.
Proof.
  intros Hs. unfold proportional_pay.
  destruct (py_min_cases (balance c) (proportional_share r total c))
    as [[Hlt ->]|[Hle ->]]; lra.
Qed.

End Proportional.

(** ** The order of payment *)

Section Walks.
Context {F : Type} `{Number F}.
Implicit Types (h : heap F) (l : loc) (cards : list loc).

(** Over distinct allocated cards, the accrual changes the cards above
    epsilon, each once, and no other object. *)
Lemma accrue_interest_walk ls epsilon acc h :
  NoDup ls -> allocated h ls ->
  (forall x, x ∈ ls ->
     load (accrue_interest ls epsilon acc h).1 x = accrued epsilon (load h x))
  /\ (forall x, x ∉ ls ->
        load (accrue_interest ls epsilon acc h).1 x = load h x).
Proof.
  intros Hnd. revert acc h. induction Hnd as [|l ls Hl Hnd IH];
    intros acc h Hal; cbn [accrue_interest].
  - split; [|reflexivity]. intros x Hx. now apply elem_of_nil in Hx.
  - inversion Hal as [|? ? Hlt Hrest]; subst.
    destruct (num_ltb epsilon (balance (load h l))) eqn:El.
    + set (v := num_add (balance (load h l))
                  (num_mul (balance (load h l))
                     (monthly_rate (apr (load h l))))).
      destruct (IH (num_add acc (num_mul (balance (load h l))
                                   (monthly_rate (apr (load h l)))))
                  (store_balance h l v)) as [I1 I2].
      { unfold allocated in *. eapply Forall_impl; [exact Hrest|].
        intros x Hx. cbn beta in *. now rewrite length_store_balance. }
      split.
      * intros x Hx. apply elem_of_cons in Hx as [->|Hx].
        -- rewrite I2 by exact Hl.
           rewrite load_store_balance_eq by exact Hlt.
           unfold accrued. now rewrite El.
        -- rewrite I1 by exact Hx. f_equal.
           apply load_store_balance_ne. intros ->. contradiction.
      * intros x Hx. apply not_elem_of_cons in Hx as [Hne Hx].
        rewrite I2 by exact Hx. apply load_store_balance_ne. congruence.
    + destruct (IH acc h Hrest) as [I1 I2]. split.
      * intros x Hx. apply elem_of_cons in Hx as [->|Hx].
        -- rewrite I2 by exact Hl. unfold accrued. now rewrite El.
        -- now apply I1.
      * intros x Hx. apply not_elem_of_cons in Hx as [Hne Hx]. now apply I2.
Qed.



End Walks.

Section Ordering.
Local Open Scope Q_scope.
Implicit Types (h : heap Q) (l : loc) (cards : list loc).







End Ordering.

Section OrderingTwoCards.
Local Open Scope Q_scope.
Implicit Types (h : heap Q) (l : loc) (cards : list loc).



End OrderingTwoCards.

(** C1: the single card scenario, balance 1200.00 at 24% with a budget of
    200, in binary64 (what the interpreter computes) for each of the three
    strategies, and in exact arithmetic.  The monthly rate is 0.02; the
    accrual of month 1 adds 24 and leaves 1224; the payment is
    [min(1224, 200) = 200] and leaves 1024, as the first history entry
    records; the simulation returns [paid_off = True] after 7 months with
    the cumulative interest, the copy of the card at balance 0, which is not
    above 1e-6.  In general, over distinct allocated cards, the accrual
    turns every card into [accrued]: it adds [balance * monthly_rate(apr)]
    to the cards above epsilon and leaves the other cards as they are. *)
#[warnings="-inexact-float"]
Theorem single_card_scenario :
  (monthly_rate 24%float = 0.02%float
   /\ accrue_interest [0%nat] default_epsilon_binary64 0%float single64
      = ([mkCard "Visa" 1224%float 24%float], 24%float)
   /\ py_min 1224%float 200%float = 200%float
   /\ Forall
        (fun s =>
           budget_after 1 [0%nat] 200%float s default_epsilon_binary64 single64
           = Some ([mkCard "Visa" 1024%float 24%float], 24%float,
                   [Calculator.mkSnapshot 1 24%float 24%float
                      [("Visa"%string, 1024%float)] 1024%float])
           /\ (Calculator.simulate_payoff_total_budget [0%nat] 200%float s
                 default_max_months default_epsilon_binary64 single64).1
              = [mkCard "Visa" 1200%float 24%float;
                 mkCard "Visa" 0%float 24%float]
           /\ match
                (Calculator.simulate_payoff_total_budget [0%nat] 200%float s
                   default_max_months default_epsilon_binary64 single64).2
              with
              | Some (Normal r) =>
                  Calculator.paid_off r = true
                  /\ Calculator.months r = 7
                  /\ Calculator.total_interest r = 91.566124686336011%float
                  /\ Calculator.reason r = None
                  /\ head (Calculator.history r)
                     = Some (Calculator.mkSnapshot 1 24%float 24%float
                               [("Visa"%string, 1024%float)] 1024%float)
              | _ => False
              end)
        ["avalanche"; "snowball"; "proportional"]%string)
  /\ ((monthly_rate 24 == 1 # 50)%Q
      /\ (let acc := accrue_interest [0%nat] default_epsilon_exact 0%Q singleQ in
          (balance (load acc.1 0%nat) == 1224)%Q /\ (acc.2 == 24)%Q)
      /\ py_min 1224%Q 200%Q = 200%Q
      /\ Forall
           (fun s =>
              match budget_after 1 [0%nat] 200%Q s default_epsilon_exact
                      singleQ with
              | Some (h1, tip, _) =>
                  (balance (load h1 0%nat) == 1024)%Q /\ (tip == 24)%Q
              | None => False
              end)
           ["avalanche"; "snowball"; "proportional"]%string
      /\ Forall
           (fun s =>
              match
                Calculator.simulate_payoff_total_budget [0%nat] 200%Q s
                  default_max_months default_epsilon_exact singleQ
              with
              | (h', Some (Normal r)) =>
                  Calculator.paid_off r = true
                  /\ Calculator.months r = 7
                  /\ (Calculator.total_interest r
                      == 89420043639 # 976562500)%Q
                  /\ (total_balance [1%nat] h' <= default_epsilon_exact)%Q
              | _ => False
              end)
           ["avalanche"; "snowball"]%string)
  /\ (forall F (N : Number F) (h : heap F) (ls : list loc) (epsilon acc : F),
         NoDup ls -> allocated h ls ->
         (forall x, x ∈ ls ->
            load (accrue_interest ls epsilon acc h).1 x
            = accrued epsilon (load h x))
         /\ (forall x, x ∉ ls ->
               load (accrue_interest ls epsilon acc h).1 x = load h x)).
Proof.
  split; [|split].
  - split; [vm_compute; reflexivity|].
    split; [vm_compute; reflexivity|].
    split; [vm_compute; reflexivity|].
    each_strategy ltac:(vm_compute; repeat split).
  - split; [vm_compute; reflexivity|].
    split; [vm_compute; split; reflexivity|].
    split; [vm_compute; reflexivity|].
    split; each_strategy ltac:(vm_compute; repeat split; try discriminate).
  - intros F N h ls epsilon acc. apply accrue_interest_walk.
Qed.

(** The accrual of month 1 on the single card. *)
Lemma single_card_scenario_witness :
  load (accrue_interest [0%nat] default_epsilon_binary64 0%float single64).1
    0%nat
  = accrued default_epsilon_binary64 (load single64 0%nat).
Proof.
  destruct single_card_scenario as (_ & _ & Hwalk).
  destruct (Hwalk float binary64 single64 [0%nat] default_epsilon_binary64
              0%float) as [Hin _].
  - apply (bool_decide_unpack (NoDup [0%nat])). vm_compute. exact I.
  - repeat constructor.
  - apply Hin. apply list_elem_of_singleton. reflexivity.
Defined.

(** * Further properties of the code *)

(** ** Batches of one-time payments *)

Section Payments.
Context {F : Type} `{Number F}.
Implicit Types (h : heap F) (l : loc) (cards : list loc).

Lemma apply_one_time_payment_raise cards nm amount h h' e :
  Calculator.apply_one_time_payment cards nm amount h = (h', Raise e) ->
  h' = h.
Proof.
  unfold Calculator.apply_one_time_payment.
  destruct (num_ltb amount num_zero); [intros E; now inversion E|].
  destruct (Calculator.pay_first_match cards nm amount h) as [h1 found] eqn:E1.
  destruct found; [discriminate|].
  intros E. inversion E; subst h1.
  now destruct (pay_first_match_missing _ _ _ _ _ E1).
Qed.

Lemma apply_one_time_payment_names cards nm amount h l :
  name (load (Calculator.apply_one_time_payment cards nm amount h).1 l)
  = name (load h l).
Proof.
  unfold Calculator.apply_one_time_payment.
  destruct (num_ltb amount num_zero); [reflexivity|].
  destruct (Calculator.pay_first_match cards nm amount h) as [h1 found] eqn:E1.
  assert (E : name (load h1 l) = name (load h l)).
  { destruct found.
    - destruct (pay_first_match_found _ _ _ _ _ E1)
        as (pre & k & post & _ & _ & _ & ->).
      apply name_load_store_balance.
    - now destruct (pay_first_match_missing _ _ _ _ _ E1) as [-> _]. }
  now destruct found.
Qed.

(** A single payment succeeds exactly when the amount is not negative and
    some card of the list has the name. *)
Lemma apply_one_time_payment_succeeds cards nm amount h :
  (Calculator.apply_one_time_payment cards nm amount h).2 = Normal tt
  <-> num_ltb amount num_zero = false
      /\ Exists (fun l => name (load h l) = nm) cards.
Proof.
  unfold Calculator.apply_one_time_payment.
  destruct (num_ltb amount num_zero).
  { split; [discriminate|]. intros [E _]. discriminate. }
  destruct (Calculator.pay_first_match cards nm amount h) as [h1 found] eqn:E1.
  destruct found; cbn [snd].
  - split; [|reflexivity]. intros _. split; [reflexivity|].
    destruct (pay_first_match_found _ _ _ _ _ E1)
      as (pre & k & post & -> & _ & Hk & _).
    apply Exists_app. right. now apply Exists_cons_hd.
  - split; [discriminate|]. intros [_ Hex].
    destruct (pay_first_match_missing _ _ _ _ _ E1) as [_ Hnone].
    apply Exists_exists in Hex as (l & Hl & Hname).
    rewrite Forall_forall in Hnone. now destruct (Hnone l Hl).
Qed.

Lemma apply_payments_app cards pre post h :
  Calculator.apply_payments cards (pre ++ post) h
  = match Calculator.apply_payments cards pre h with
    | (h1, Normal _) => Calculator.apply_payments cards post h1
    | (h1, Raise e) => (h1, Raise e)
    end.
Proof.
  revert h. induction pre as [|[nm amt] pre IH]; intros h; [reflexivity|].
  cbn [app Calculator.apply_payments].
  destruct (Calculator.apply_one_time_payment cards nm amt h) as [h1 [u|e]];
    [apply IH|reflexivity].
Qed.

End Payments.

(** X1: a batch of payments is not atomic.  [apply_payments] raises exactly
    when some payment of the batch raises after all the payments before it
    have succeeded; the store it leaves is then the store after those
    earlier payments (they stay applied), and no later payment is applied. *)
Theorem apply_payments_stops_at_first_failure :
  forall F (N : Number F) (h : heap F) (cards : list loc)
         (payments : list (string * F)) (h' : heap F) (e : exn),
    Calculator.apply_payments cards payments h = (h', Raise e)
    <-> exists pre nm amt post,
          payments = pre ++ (nm, amt) :: post
          /\ Calculator.apply_payments cards pre h = (h', Normal tt)
          /\ Calculator.apply_one_time_payment cards nm amt h' = (h', Raise e).
Proof.
  intros F N h cards payments h' e. split.
  - revert h. induction payments as [|[nm amt] payments IH]; intros h;
      cbn [Calculator.apply_payments]; [discriminate|].
    destruct (Calculator.apply_one_time_payment cards nm amt h)
      as [h1 [u|e1]] eqn:E1.
    + intros E. destruct (IH h1 E) as (pre & nm' & amt' & post & -> & Hpre & Hp).
      exists ((nm, amt) :: pre), nm', amt', post.
      split; [reflexivity|split; [|exact Hp]].
      cbn [Calculator.apply_payments]. now rewrite E1.
    + intros E. inversion E; subst h1 e1.
      pose proof (apply_one_time_payment_raise _ _ _ _ _ _ E1) as ->.
      exists [], nm, amt, payments. now repeat split.
  - intros (pre & nm & amt & post & -> & Hpre & Hp).
    rewrite apply_payments_app, Hpre. cbn [Calculator.apply_payments].
    now rewrite Hp.
Qed.

(** On the cards A (1000) and B (500): the payment to A is applied, the
    payment to the unknown card C raises, the payment to B is not applied. *)
Lemma apply_payments_stops_at_first_failure_witness :
  Calculator.apply_payments [0; 1]%nat
    [("A"%string, 100%float); ("C"%string, 50%float); ("B"%string, 25%float)]
    pair64
  = ([mkCard "A" 900%float 20%float; mkCard "B" 500%float 10%float],
     Raise (KeyError "C")).
Proof.
  apply (apply_payments_stops_at_first_failure float binary64 pair64
           [0; 1]%nat).
  exists [("A"%string, 100%float)], "C"%string, 50%float,
    [("B"%string, 25%float)].
  repeat split.
Defined.

(** X2: [apply_payments] succeeds exactly when no amount of the batch is
    negative and every name of the batch is the name of a card of the list;
    card names never change on the way. *)
Theorem apply_payments_succeeds_iff :
  forall F (N : Number F) (h : heap F) (cards : list loc)
         (payments : list (string * F)),
    ((Calculator.apply_payments cards payments h).2 = Normal tt
     <-> Forall (fun p => num_ltb p.2 num_zero = false
                          /\ Exists (fun l => name (load h l) = p.1) cards)
           payments)
    /\ (forall l,
           name (load (Calculator.apply_payments cards payments h).1 l)
           = name (load h l)).
Proof.
  intros F N h cards payments. revert h.
  induction payments as [|[nm amt] payments IH]; intros h;
    cbn [Calculator.apply_payments].
  - split; [|reflexivity]. split; [constructor|reflexivity].
  - pose proof (apply_one_time_payment_succeeds cards nm amt h) as Hone.
    pose proof (apply_one_time_payment_names cards nm amt h) as Hnames.
    destruct (Calculator.apply_one_time_payment cards nm amt h)
      as [h1 [[]|e1]]; cbn [fst snd] in *.
    + destruct (IH h1) as [IH1 IH2]. split.
      * rewrite IH1, Forall_cons. cbn [fst snd].
        split.
        -- intros Hall. split; [now apply Hone|].
           eapply Forall_impl; [exact Hall|].
           intros [nm' amt'] [Ha Hex]. split; [exact Ha|].
           eapply Exists_impl; [exact Hex|].
           intros l Hl. cbn [fst] in *. now rewrite <- Hnames.
        -- intros [_ Hall].
           eapply Forall_impl; [exact Hall|].
           intros [nm' amt'] [Ha Hex]. split; [exact Ha|].
           eapply Exists_impl; [exact Hex|].
           intros l Hl. cbn [fst] in *. now rewrite Hnames.
      * intros l. now rewrite IH2.
    + split; [|exact Hnames]. split; [discriminate|].
      rewrite Forall_cons. cbn [fst snd]. intros [Hok _].
      apply Hone in Hok. discriminate.
Qed.


(** On the cards A and B: two payments that are fine. *)
Lemma apply_payments_succeeds_iff_witness :
  (Calculator.apply_payments [0; 1]%nat
     [("B"%string, 25%float); ("A"%string, 0%float)] pair64).2 = Normal tt.
Proof.
  destruct (apply_payments_succeeds_iff float binary64 pair64 [0; 1]%nat
              [("B"%string, 25%float); ("A"%string, 0%float)]) as [Hiff _].
  apply Hiff. apply Forall_cons_2; [|apply Forall_cons_2; [|constructor]].
  - split; [reflexivity|]. apply Exists_cons_tl, Exists_cons_hd. reflexivity.
  - split; [reflexivity|]. apply Exists_cons_hd. reflexivity.
Defined.

(** ** Two payments to one card *)

Section PaymentsExact.
Local Open Scope Q_scope.
Implicit Types (h : heap Q) (l : loc) (cards : list loc).

Lemma clamp_twice (x a b : Q) :
  0 <= a -> 0 <= b ->
  py_max num_zero (num_sub (py_max num_zero (num_sub x a)) b)
  == py_max num_zero (num_sub x (num_add a b)).
Proof.
  intros Ha Hb.
  change (py_max 0 (py_max 0 (x - a) - b) == py_max 0 (x - (a + b))).
  destruct (py_max_cases 0 (x - a)) as [[H1 ->]|[H1 ->]];
    destruct (py_max_cases 0 (x - a - b)) as [[H2 E2]|[H2 E2]];
    destruct (py_max_cases 0 (x - (a + b))) as [[H3 ->]|[H3 ->]];
    try rewrite E2; try lra;
    destruct (py_max_cases 0 (0 - b)) as [[H4 ->]|[H4 ->]]; lra.
Qed.

End PaymentsExact.

(** X4: in exact arithmetic, a one-time payment of [a] followed by a
    one-time payment of [b] to the same card is a one-time payment of
    [a + b] (amounts not negative): the three calls succeed, and every
    object has the same name and APR and an equal balance either way.  So
    the amounts that the console adds up per card before applying them
    come to the same as applying them one by one. *)
Theorem two_payments_are_one :
  forall (h : heap Q) (cards : list loc) (nm : string) (a b : Q),
    allocated h cards ->
    Exists (fun l => name (load h l) = nm) cards ->
    (0 <= a)%Q -> (0 <= b)%Q ->
    let first := Calculator.apply_one_time_payment cards nm a h in
    let second := Calculator.apply_one_time_payment cards nm b first.1 in
    let once := Calculator.apply_one_time_payment cards nm (a + b)%Q h in
    first.2 = Normal tt /\ second.2 = Normal tt /\ once.2 = Normal tt
    /\ forall k,
         name (load second.1 k) = name (load once.1 k)
         /\ apr (load second.1 k) = apr (load once.1 k)
         /\ (balance (load second.1 k) == balance (load once.1 k))%Q.
Proof.
  intros h cards nm a b Hal Hex Ha Hb.
  assert (Hsplit : exists pre l post,
             cards = pre ++ l :: post
             /\ Forall (fun k => name (load h k) <> nm) pre
             /\ name (load h l) = nm).
  { clear Hal. induction cards as [|k cards IH]; [now apply Exists_nil in Hex|].
    destruct (decide (name (load h k) = nm)) as [E|Hne].
    - exists [], k, cards. repeat split; [constructor|exact E].
    - apply Exists_cons in Hex as [E|Hex]; [contradiction|].
      destruct (IH Hex) as (pre & l & post & -> & Hpre & Hl).
      exists (k :: pre), l, post. repeat split; [now constructor|exact Hl]. }
  destruct Hsplit as (pre & l & post & -> & Hpre & Hl).
  assert (Hlt : (l < length h)%nat).
  { unfold allocated in Hal. rewrite Forall_app, Forall_cons in Hal. tauto. }
  assert (Ea : num_ltb a num_zero = false) by now apply exact_ltb_false.
  assert (Eb : num_ltb b num_zero = false) by now apply exact_ltb_false.
  assert (Eab : num_ltb (a + b)%Q num_zero = false)
    by (apply exact_ltb_false; change (0 <= a + b)%Q; lra).
  assert (Hone : forall x (h0 : heap Q),
             num_ltb x num_zero = false ->
             Forall (fun k => name (load h0 k) <> nm) pre ->
             name (load h0 l) = nm ->
             Calculator.apply_one_time_payment (pre ++ l :: post) nm x h0
             = (store_balance h0 l
                  (py_max num_zero (num_sub (balance (load h0 l)) x)),
                Normal tt)).
  { intros x h0 Ex Hpre0 Hl0. unfold Calculator.apply_one_time_payment.
    now rewrite Ex, pay_first_match_first. }
  set (v1 := py_max num_zero (num_sub (balance (load h l)) a)).
  cbn zeta.
  rewrite (Hone a h Ea Hpre Hl). fold v1. cbn [fst snd].
  rewrite (Hone b (store_balance h l v1) Eb).
  2:{ eapply Forall_impl; [exact Hpre|]. intros k Hk. cbn beta in *.
      now rewrite name_load_store_balance. }
  2:{ now rewrite name_load_store_balance. }
  rewrite (Hone (a + b)%Q h Eab Hpre Hl).
  cbn [fst snd].
  split; [reflexivity|split; [reflexivity|split; [reflexivity|]]].
  intros k. rewrite !name_load_store_balance, !apr_load_store_balance.
  split; [reflexivity|split; [reflexivity|]].
  destruct (decide (l = k)) as [<-|Hne].
  - rewrite !load_store_balance_eq;
      try (rewrite ?length_store_balance; exact Hlt).
    cbn [balance]. subst v1. apply clamp_twice; assumption.
  - rewrite !load_store_balance_ne by exact Hne. reflexivity.
Qed.

(** 300 and then 400 to A, which owes 1000, against 700 at once: 300 is
    left either way. *)
Lemma two_payments_are_one_witness :
  (balance (load (Calculator.apply_one_time_payment [0; 1]%nat "A" 400%Q
                    (Calculator.apply_one_time_payment [0; 1]%nat "A" 300%Q
                       pairQ).1).1
              0%nat)
   == balance (load (Calculator.apply_one_time_payment [0; 1]%nat "A"
                       (300 + 400)%Q pairQ).1 0%nat))%Q
  /\ (balance (load (Calculator.apply_one_time_payment [0; 1]%nat "A"
                       (300 + 400)%Q pairQ).1 0%nat) == 300)%Q.
Proof.
  split; [|vm_compute; reflexivity].
  destruct (two_payments_are_one pairQ [0; 1]%nat "A" 300%Q 400%Q)
    as (_ & _ & _ & Hsame).
  - repeat constructor.
  - apply Exists_cons_hd. reflexivity.
  - lra.
  - lra.
  - apply Hsame.
Defined.

(** ** Errors of the manual simulation *)

Section ManualErrors.
Context {F : Type} `{Number F}.
Implicit Types (h : heap F) (l : loc) (cards : list loc).

Lemma check_payments_negative pre k v post :
  Forall (fun p : string * F => num_ltb p.2 num_zero = false) pre ->
  num_ltb v num_zero = true ->
  Calculator.check_payments (pre ++ (k, v) :: post)
  = Raise (ValueError ("Payment for " ++ k ++ " must be >= 0")).
Proof.
  intros Hpre Hv. induction Hpre as [|[k' v'] pre Hp Hpre IH];
    cbn [app Calculator.check_payments].
  - now rewrite Hv.
  - cbn [snd] in Hp. now rewrite Hp.
Qed.

Lemma check_payments_fine pays :
  Forall (fun p : string * F => num_ltb p.2 num_zero = false) pays ->
  Calculator.check_payments pays = Normal tt.
Proof.
  induction 1 as [|[k v] pays Hp Hpays IH]; cbn [Calculator.check_payments];
    [reflexivity|].
  cbn [snd] in Hp. now rewrite Hp.
Qed.

Lemma name_to_card_fold_lookup cards h (d : gmap string loc) k :
  foldl (fun d l => <[name (load h l) := l]> d) d cards !! k = None
  <-> d !! k = None /\ Forall (fun l => name (load h l) <> k) cards.
Proof.
  revert d. induction cards as [|l cards IH]; intros d; cbn [foldl].
  - split; [intros E; split; [exact E|constructor]|tauto].
  - rewrite IH, Forall_cons.
    destruct (decide (name (load h l) = k)) as [E|Hne].
    + rewrite E, lookup_insert_eq. split; [intros [? _]; discriminate|].
      intros (_ & Hk & _). contradiction.
    + rewrite lookup_insert_ne by exact Hne. tauto.
Qed.

Lemma name_to_card_unknown cards h k :
  Calculator.name_to_card cards h !! k = None
  <-> Forall (fun l => name (load h l) <> k) cards.
Proof.
  unfold Calculator.name_to_card. rewrite name_to_card_fold_lookup.
  rewrite lookup_empty. tauto.
Qed.

Lemma name_to_card_known cards h k :
  is_Some (Calculator.name_to_card cards h !! k)
  <-> Exists (fun l => name (load h l) = k) cards.
Proof.
  rewrite <- not_eq_None_Some, name_to_card_unknown. split.
  - intros Hn. induction cards as [|l cards IH].
    + destruct Hn. constructor.
    + destruct (decide (name (load h l) = k)) as [E|Hne].
      * now apply Exists_cons_hd.
      * apply Exists_cons_tl, IH. intros Hall. apply Hn.
        now constructor.
  - intros Hex Hall. induction Hex as [l cards E|l cards Hex IH];
      inversion Hall; subst; [contradiction|now apply IH].
Qed.

Lemma apply_payments_manual_unknown pre k v post (by_name : gmap string loc)
    epsilon h :
  Forall (fun p : string * F => is_Some (by_name !! p.1)) pre ->
  by_name !! k = None ->
  (Calculator.apply_payments_manual (pre ++ (k, v) :: post) by_name epsilon
     h).2 = Raise (KeyError k).
Proof.
  intros Hpre Hk. revert h.
  induction Hpre as [|[k' v'] pre [l Hl] Hpre IH]; intros h;
    cbn [app Calculator.apply_payments_manual].
  - now rewrite Hk.
  - cbn [fst] in Hl. rewrite Hl.
    destruct (num_ltb epsilon (balance (load h l)) && num_ltb num_zero v');
      apply IH.
Qed.

Lemma Exists_load (P : Card F -> Prop) cards cards' h h' :
  load h' <$> cards' = load h <$> cards ->
  Exists (fun l => P (load h l)) cards ->
  Exists (fun l => P (load h' l)) cards'.
Proof.
  intros E Hex.
  apply (Exists_fmap (load h) P) in Hex.
  apply (Exists_fmap (load h') P). now rewrite E.
Qed.

End ManualErrors.

(** X5: the manual simulation validates the amounts before anything else.
    A negative amount raises [ValueError] naming the first such key of the
    dict, whatever the balances, the month cap and the other keys are; in
    particular also when that key or an earlier one names no card, and when
    the debt is already paid off. *)
Theorem manual_negative_payment_rejected_first {F} `{Number F}
    (cards : list loc) (pre post : list (string * F)) (k : string) (v : F)
    (max_months : Z) (epsilon : F) (h : heap F) :
  Forall (fun p : string * F => num_ltb p.2 num_zero = false) pre ->
  num_ltb v num_zero = true ->
  (Calculator.simulate_payoff_manual_payments cards (pre ++ (k, v) :: post)
     max_months epsilon h).2
  = Some (Raise (ValueError ("Payment for " ++ k ++ " must be >= 0"))).
Proof.
  intros Hpre Hv. unfold Calculator.simulate_payoff_manual_payments.
  destruct (deepcopy cards h) as [h0 cards0].
  now rewrite (check_payments_negative pre k v post Hpre Hv).
Qed.

Lemma manual_negative_payment_rejected_first_witness :
  (Calculator.simulate_payoff_manual_payments [0; 1]%nat
     ([("Z"%string, 100%float)] ++ ("A"%string, (-5)%float) :: [])
     2000 default_epsilon_binary64 pair64).2
  = Some (Raise (ValueError "Payment for A must be >= 0")).
Proof.
  apply (manual_negative_payment_rejected_first (F := float)).
  - apply Forall_cons_2; [vm_compute; reflexivity | apply Forall_nil_2].
  - vm_compute. reflexivity.
Defined.

(** X6: the names of the payments are not validated up front.  With
    amounts that are all non-negative, a key that names no card raises
    [KeyError] only inside the first simulated month, when the payment loop
    reaches it (the keys before it naming cards): with a debt above
    [epsilon] and a month cap of at least one.  With a smaller month cap the
    call returns the cap result, and with a debt within [epsilon] it returns
    paid off in zero months, the unknown key unnoticed. *)
Theorem manual_unknown_name_raises_in_first_month {F} `{Number F}
    (cards : list loc) (pre post : list (string * F)) (k : string) (v : F)
    (max_months : Z) (epsilon : F) (h : heap F) :
  allocated h cards ->
  Forall (fun p : string * F => num_ltb p.2 num_zero = false)
    (pre ++ (k, v) :: post) ->
  Forall (fun p : string * F =>
            Exists (fun l => name (load h l) = p.1) cards) pre ->
  Forall (fun l => name (load h l) <> k) cards ->
  (Calculator.simulate_payoff_manual_payments cards (pre ++ (k, v) :: post)
     max_months epsilon h).2
  = if num_ltb epsilon (total_balance cards h) then
      if 1 <=? max_months then Some (Raise (KeyError k))
      else Some (Normal (Calculator.manual_cap_result 1 num_zero []))
    else
      Some (Normal (Calculator.manual_paid_result 0 num_zero
                      (pre ++ (k, v) :: post) [])).
Proof.
  intros Hal Hnonneg Hpre Hk.
  unfold Calculator.simulate_payoff_manual_payments.
  pose proof (deepcopy_load cards h Hal) as Hload.
  pose proof (deepcopy_total_balance cards h Hal) as Htotal.
  destruct (deepcopy cards h) as [h0 cards0]. cbn [fst snd] in Hload, Htotal.
  rewrite (check_payments_fine _ Hnonneg).
  cbn [Calculator.manual_loop]. rewrite Htotal.
  destruct (num_ltb epsilon (total_balance cards h)); [|reflexivity].
  change (0 + 1) with 1. rewrite Z.gtb_ltb.
  destruct (Z.leb_spec 1 max_months) as [Hmm|Hmm].
  - destruct (Z.ltb_spec max_months 1) as [Hlt|_]; [lia|].
    unfold Calculator.manual_cycle.
    destruct (accrue_interest cards0 epsilon num_zero h0) as [h1 mi].
    assert (Hraise :
      (Calculator.apply_payments_manual (pre ++ (k, v) :: post)
         (Calculator.name_to_card cards0 h0) epsilon h1).2
      = Raise (KeyError k)).
    { apply apply_payments_manual_unknown.
      - eapply Forall_impl; [exact Hpre|]. intros p Hp.
        apply name_to_card_known.
        exact (Exists_load (fun c => name c = p.1) _ _ _ _ Hload Hp).
      - apply name_to_card_unknown.
        exact (Forall_load (fun c => name c <> k) _ _ _ _ Hload Hk). }
    destruct (Calculator.apply_payments_manual (pre ++ (k, v) :: post)
                (Calculator.name_to_card cards0 h0) epsilon h1) as [h2 c].
    cbn [snd] in Hraise. subst c. reflexivity.
  - destruct (Z.ltb_spec max_months 1) as [_|Hge]; [reflexivity|lia].
Qed.

Lemma manual_unknown_name_raises_in_first_month_witness :
  (Calculator.simulate_payoff_manual_payments [0; 1]%nat
     ([("A"%string, 100%float)] ++ ("Z"%string, 50%float) :: [])
     2000 default_epsilon_binary64 pair64).2
  = Some (Raise (KeyError "Z")).
Proof.
  assert (Hal : allocated pair64 [0; 1]%nat).
  { repeat first [apply Forall_nil_2 | apply Forall_cons_2; [vm_compute; lia|]]. }
  assert (Hnonneg :
    Forall (fun p : string * float => num_ltb p.2 num_zero = false)
      ([("A"%string, 100%float)] ++ ("Z"%string, 50%float) :: [])).
  { repeat first [apply Forall_nil_2
                 | apply Forall_cons_2; [vm_compute; reflexivity|]]. }
  assert (Hpre :
    Forall (fun p : string * float =>
              Exists (fun l => name (load pair64 l) = p.1) [0; 1]%nat)
      [("A"%string, 100%float)]).
  { apply Forall_cons_2; [|apply Forall_nil_2].
    apply Exists_cons_hd. vm_compute. reflexivity. }
  assert (Hk : Forall (fun l => name (load pair64 l) <> "Z"%string) [0; 1]%nat).
  { repeat first [apply Forall_nil_2
                 | apply Forall_cons_2; [vm_compute; discriminate|]]. }
  pose proof (manual_unknown_name_raises_in_first_month (F := float)
                [0; 1]%nat [("A"%string, 100%float)] [] "Z"%string 50%float
                2000 default_epsilon_binary64 pair64 Hal Hnonneg Hpre Hk)
    as E.
  rewrite E. vm_compute. reflexivity.
Defined.

(** ** Balances within the tolerance *)

Section Dust.
Context {F : Type} `{Number F}.
Implicit Types (h : heap F) (l : loc) (cards : list loc).

(** With no card above the tolerance a month of avalanche or snowball
    changes nothing. *)
Lemma month_cycle_dust cards b strategy epsilon m tip hist h :
  strategy = "avalanche"%string \/ strategy = "snowball"%string ->
  Forall (fun l => num_ltb epsilon (balance (load h l)) = false) cards ->
  Calculator.month_cycle cards b strategy epsilon m tip hist h
  = (h, Calculator.Continue (num_add tip num_zero)
          (hist ++ [Calculator.record_snapshot cards m num_zero
                      (num_add tip num_zero) h])).
Proof.
  intros Hs Hsmall. unfold Calculator.month_cycle.
  rewrite accrue_interest_inactive by exact Hsmall.
  rewrite active_cards_inactive by exact Hsmall.
  assert (Hsort : forall key, sort_by_key key h [] = []) by reflexivity.
  unfold Calculator.allocate_in_order, Calculator.second_pass.
  destruct Hs as [-> | ->];
    cbn [Calculator.payoff_order String.eqb Ascii.eqb Bool.eqb];
    rewrite Hsort; cbn [pay_in_order];
    rewrite (active_cards_inactive _ _ _ Hsmall), Hsort; cbn [pay_in_order];
    destruct (num_ltb epsilon b); reflexivity.
Qed.

Lemma streamlit_month_cycle_dust cards b strategy epsilon tip h :
  strategy = "avalanche"%string \/ strategy = "snowball"%string ->
  Forall (fun l => num_ltb epsilon (balance (load h l)) = false) cards ->
  Streamlit.month_cycle cards b strategy epsilon tip h
  = (h, Streamlit.Continue tip).
Proof.
  intros Hs Hsmall. unfold Streamlit.month_cycle.
  rewrite accrue_interest_inactive by exact Hsmall.
  rewrite active_cards_inactive by exact Hsmall.
  destruct Hs as [-> | ->]; reflexivity.
Qed.

Lemma budget_loop_dust fuel cards b strategy mm epsilon m tip hist h :
  strategy = "avalanche"%string \/ strategy = "snowball"%string ->
  Forall (fun l => num_ltb epsilon (balance (load h l)) = false) cards ->
  num_ltb epsilon (total_balance cards h) = true ->
  m <= mm ->
  (Z.to_nat (mm - m) < fuel)%nat ->
  exists hist',
    Calculator.budget_loop fuel cards b strategy mm epsilon m tip hist h
    = (h, Some (Normal (Calculator.budget_cap_result (mm + 1)
                          (Nat.iter (Z.to_nat (mm - m))
                             (fun t => num_add t num_zero) tip)
                          (hist ++ hist'))))
    /\ length hist' = Z.to_nat (mm - m).
Proof.
  intros Hs Hsmall Htot. revert m tip hist.
  induction fuel as [|fuel IH]; intros m tip hist Hm Hfuel; [lia|].
  cbn [Calculator.budget_loop]. rewrite Htot, Z.gtb_ltb.
  destruct (Z.ltb_spec mm (m + 1)) as [Hcap|Hcap].
  - assert (m = mm) as -> by lia.
    replace (mm - mm) with 0 by lia. exists []. rewrite app_nil_r.
    split; reflexivity.
  - rewrite (month_cycle_dust _ _ _ _ _ _ _ _ Hs Hsmall).
    destruct (IH (m + 1) (num_add tip num_zero)
                (hist ++ [Calculator.record_snapshot cards (m + 1) num_zero
                            (num_add tip num_zero) h]))
      as (hist' & E & Hlen); [lia|lia|].
    exists (Calculator.record_snapshot cards (m + 1) num_zero
              (num_add tip num_zero) h :: hist').
    replace (Z.to_nat (mm - m)) with (S (Z.to_nat (mm - (m + 1)))) by lia.
    rewrite Nat.iter_succ_r, E, <- app_assoc. cbn [app length].
    split; [reflexivity|now rewrite Hlen].
Qed.

Lemma streamlit_budget_loop_dust fuel cards b strategy mm epsilon m tip h :
  strategy = "avalanche"%string \/ strategy = "snowball"%string ->
  Forall (fun l => num_ltb epsilon (balance (load h l)) = false) cards ->
  num_ltb epsilon (total_balance cards h) = true ->
  m <= mm ->
  (Z.to_nat (mm - m) < fuel)%nat ->
  Streamlit.budget_loop fuel cards b strategy mm epsilon m tip h
  = (h, Some (Normal (Streamlit.cap_result (mm + 1) tip))).
Proof.
  intros Hs Hsmall Htot. revert m.
  induction fuel as [|fuel IH]; intros m Hm Hfuel; [lia|].
  cbn [Streamlit.budget_loop]. rewrite Htot, Z.gtb_ltb.
  destruct (Z.ltb_spec mm (m + 1)) as [Hcap|Hcap].
  - now assert (m = mm) as -> by lia.
  - rewrite (streamlit_month_cycle_dust _ _ _ _ _ _ Hs Hsmall).
    apply IH; lia.
Qed.

End Dust.

(** X7: balances that are each within the tolerance but together above it
    stall avalanche and snowball.  No card accrues interest, no card is
    active, so every month leaves the cards as they are and the simulation
    runs to the month cap: it returns [paid_off = False] with
    [months = max_months + 1] and, in [debt_calculator.py], a history of
    [max_months] snapshots and a total interest of [max_months] additions of
    zero to zero.  Both source files do so. *)
Theorem greedy_strategies_stall_on_dust {F} `{Number F}
    (h : heap F) (cards : list loc) (b : F) (strategy : string) (mm : Z)
    (epsilon : F) :
  allocated h cards ->
  strategy = "avalanche"%string \/ strategy = "snowball"%string ->
  num_leb b num_zero = false ->
  0 <= mm ->
  Forall (fun l => num_ltb epsilon (balance (load h l)) = false) cards ->
  num_ltb epsilon (total_balance cards h) = true ->
  (exists hist,
      Calculator.simulate_payoff_total_budget cards b strategy mm epsilon h
      = ((deepcopy cards h).1,
         Some (Normal (Calculator.budget_cap_result (mm + 1)
                         (Nat.iter (Z.to_nat mm)
                            (fun t => num_add t num_zero) num_zero) hist)))
      /\ length hist = Z.to_nat mm)
  /\ Streamlit.simulate_payoff_total_budget cards b strategy mm epsilon h
     = ((deepcopy cards h).1,
        Some (Normal (Streamlit.cap_result (mm + 1) num_zero))).
Proof.
  intros Hal Hs Hb Hmm Hsmall Htot.
  unfold Calculator.simulate_payoff_total_budget,
    Streamlit.simulate_payoff_total_budget. rewrite Hb.
  pose proof (deepcopy_total_balance cards h Hal) as Et.
  pose proof (deepcopy_load cards h Hal) as El.
  destruct (deepcopy cards h) as [h0 cards0]. cbn [fst snd] in *.
  pose proof (Forall_load
                (fun c => num_ltb epsilon (balance c) = false)
                cards cards0 h h0 El Hsmall) as Hsmall0.
  rewrite <- Et in Htot. split.
  - destruct (budget_loop_dust (S (Z.to_nat mm)) cards0 b strategy mm epsilon
                0 num_zero [] h0 Hs Hsmall0 Htot Hmm)
      as (hist & E & Hlen); [lia|].
    exists hist. rewrite Z.sub_0_r in E, Hlen. split; [exact E|exact Hlen].
  - apply streamlit_budget_loop_dust; try assumption. lia.
Qed.

Lemma greedy_strategies_stall_on_dust_witness :
  (exists hist,
      Calculator.simulate_payoff_total_budget [0; 1]%nat 100%float "snowball"
        3 default_epsilon_binary64 dust64
      = ((deepcopy [0; 1]%nat dust64).1,
         Some (Normal (Calculator.budget_cap_result (3 + 1)
                         (Nat.iter (Z.to_nat 3)
                            (fun t => num_add t num_zero) num_zero) hist)))
      /\ length hist = Z.to_nat 3)
  /\ Streamlit.simulate_payoff_total_budget [0; 1]%nat 100%float "snowball"
       3 default_epsilon_binary64 dust64
     = ((deepcopy [0; 1]%nat dust64).1,
        Some (Normal (Streamlit.cap_result (3 + 1) num_zero))).
Proof.
  assert (Hal : allocated dust64 [0; 1]%nat).
  { repeat first [apply Forall_nil_2 | apply Forall_cons_2; [vm_compute; lia|]]. }
  assert (Hsmall :
    Forall (fun l => num_ltb default_epsilon_binary64
                       (balance (load dust64 l)) = false) [0; 1]%nat).
  { repeat first [apply Forall_nil_2
                 | apply Forall_cons_2; [vm_compute; reflexivity|]]. }
  exact (greedy_strategies_stall_on_dust (F := float) dust64 [0; 1]%nat
           100%float "snowball" 3 default_epsilon_binary64 Hal
           (or_intror eq_refl) eq_refl ltac:(lia) Hsmall eq_refl).
Defined.

(** ** The history *)

Section History.
Context {F : Type} `{Number F}.
Implicit Types (h : heap F) (l : loc) (cards : list loc).
Implicit Types (hist : list (Calculator.snapshot F)).

Lemma months_numbered_snoc hist (s : Calculator.snapshot F) :
  months_numbered hist ->
  Calculator.snap_month s = Z.of_nat (length hist) + 1 ->
  months_numbered (hist ++ [s]).
Proof.
  unfold months_numbered. intros Hh Hs.
  rewrite fmap_app, length_app, seq_app, fmap_app, Hh. cbn.
  rewrite Hs. do 2 f_equal. lia.
Qed.

Lemma interest_to_date_snoc hist (s : Calculator.snapshot F) :
  interest_to_date (hist ++ [s]) (Calculator.snap_total_interest_to_date s).
Proof. unfold interest_to_date. now rewrite last_snoc. Qed.

(** A month of the budget simulation adds one snapshot, or none when it
    leaves through [break], which only the proportional strategy does. *)
Lemma month_cycle_history cards b strategy epsilon m tip hist h :
  match (Calculator.month_cycle cards b strategy epsilon m tip hist h).2 with
  | Calculator.Continue tip' hist' =>
      exists s, hist' = hist ++ [s] /\ Calculator.snap_month s = m
                /\ Calculator.snap_total_interest_to_date s = tip'
  | Calculator.Break _ hist' =>
      hist' = hist /\ strategy = "proportional"%string
  | Calculator.Raised _ => True
  end.
Proof.
  unfold Calculator.month_cycle.
  destruct (accrue_interest cards epsilon num_zero h) as [h1 mi].
  destruct (Calculator.payoff_order strategy (active_cards cards epsilon h1) h1)
    as [active|e]; [|exact I].
  destruct (String.eqb strategy "proportional") eqn:Es.
  - apply String.eqb_eq in Es.
    destruct (num_leb _ epsilon); [now split|].
    destruct (pay_proportional active b _ h1) as [h2 [tr|e]]; [|exact I].
    cbn [snd]. eexists. split; [reflexivity|]. split; reflexivity.
  - destruct (Calculator.allocate_in_order strategy cards active epsilon b h1)
      as [[h2 r2] tr2].
    cbn [snd]. eexists. split; [reflexivity|]. split; reflexivity.
Qed.

Lemma manual_cycle_history cards pays by_name epsilon m tip hist h :
  match (Calculator.manual_cycle cards pays by_name epsilon m tip hist h).2
  with
  | Normal (tip', hist') =>
      exists s, hist' = hist ++ [s] /\ Calculator.snap_month s = m
                /\ Calculator.snap_total_interest_to_date s = tip'
  | Raise _ => True
  end.
Proof.
  unfold Calculator.manual_cycle.
  destruct (accrue_interest cards epsilon num_zero h) as [h1 mi].
  destruct (Calculator.apply_payments_manual pays by_name epsilon h1)
    as [h2 [[]|e]]; [|exact I].
  cbn [snd]. eexists. split; [reflexivity|]. split; reflexivity.
Qed.

Lemma budget_loop_history fuel cards b strategy mm epsilon m tip hist h res :
  0 <= m -> Z.of_nat (length hist) = m ->
  months_numbered hist -> interest_to_date hist tip ->
  (Calculator.budget_loop fuel cards b strategy mm epsilon m tip hist h).2
  = Some (Normal res) ->
  history_shape (strategy <> "proportional"%string) res.
Proof.
  revert m tip hist h. induction fuel as [|fuel IH];
    intros m tip hist h Hm Hlen Hnum Htip; cbn [Calculator.budget_loop];
    [discriminate|].
  destruct (num_ltb epsilon (total_balance cards h)).
  - destruct (m + 1 >? mm).
    + cbn [snd]. intros [= <-]. unfold history_shape. cbn.
      split; [exact Hnum|]. split; [right; lia|]. split; [lia|]. discriminate.
    + pose proof (month_cycle_history cards b strategy epsilon (m + 1) tip hist
                    h) as Hcyc.
      destruct (Calculator.month_cycle cards b strategy epsilon (m + 1) tip
                  hist h) as [h1 [tip' hist'|tip' hist'|e]]; cbn [snd] in Hcyc.
      * destruct Hcyc as (s & -> & Hs & Hs'). subst tip'.
        apply IH; [lia|rewrite length_app; cbn; lia| |].
        -- apply months_numbered_snoc; [exact Hnum|lia].
        -- apply interest_to_date_snoc.
      * destruct Hcyc as [-> Hprop]. cbn [snd]. intros [= <-].
        unfold history_shape. cbn.
        split; [exact Hnum|]. split; [right; lia|].
        split; [discriminate|]. intros Hg. contradiction.
      * discriminate.
  - cbn [snd]. intros [= <-]. unfold history_shape. cbn.
    split; [exact Hnum|]. split; [left; lia|]. split; [discriminate|].
    intros _ _. split; [lia|exact Htip].
Qed.

Lemma manual_loop_history fuel cards pays by_name mm epsilon m tip hist h res :
  0 <= m -> Z.of_nat (length hist) = m ->
  months_numbered hist -> interest_to_date hist tip ->
  (Calculator.manual_loop fuel cards pays by_name mm epsilon m tip hist h).2
  = Some (Normal res) ->
  history_shape True res.
Proof.
  revert m tip hist h. induction fuel as [|fuel IH];
    intros m tip hist h Hm Hlen Hnum Htip; cbn [Calculator.manual_loop];
    [discriminate|].
  destruct (num_ltb epsilon (total_balance cards h)).
  - destruct (m + 1 >? mm).
    + cbn [snd]. intros [= <-]. unfold history_shape. cbn.
      split; [exact Hnum|]. split; [right; lia|]. split; [lia|]. discriminate.
    + pose proof (manual_cycle_history cards pays by_name epsilon (m + 1) tip
                    hist h) as Hcyc.
      destruct (Calculator.manual_cycle cards pays by_name epsilon (m + 1) tip
                  hist h) as [h1 [[tip' hist']|e]]; cbn [snd] in Hcyc.
      * destruct Hcyc as (s & -> & Hs & Hs'). subst tip'.
        apply IH; [lia|rewrite length_app; cbn; lia| |].
        -- apply months_numbered_snoc; [exact Hnum|lia].
        -- apply interest_to_date_snoc.
      * discriminate.
  - cbn [snd]. intros [= <-]. unfold history_shape. cbn.
    split; [exact Hnum|]. split; [left; lia|]. split; [discriminate|].
    intros _ _. split; [lia|exact Htip].
Qed.

End History.

(** X8: the history of a simulation of [debt_calculator.py].  Given a month
    cap that is not negative, the budget simulation and the manual
    simulation always complete, and when they return a result its history
    numbers the months 1, 2, ... in order.  A result that is not paid off
    has a snapshot for every month but the one that exceeded the cap.  A
    result that is paid off has a snapshot for every month, the last of
    them carrying the total interest of the result, unless the strategy is
    proportional: its [break] returns in a month that has no snapshot. *)
Theorem history_numbers_the_months {F} `{Number F}
    (h : heap F) (cards : list loc) (b : F) (strategy : string)
    (pays : list (string * F)) (mm : Z) (epsilon : F) :
  0 <= mm ->
  (exists out,
      (Calculator.simulate_payoff_total_budget cards b strategy mm epsilon
         h).2 = Some out
      /\ forall res, out = Normal res ->
           history_shape (strategy <> "proportional"%string) res)
  /\ (exists out,
         (Calculator.simulate_payoff_manual_payments cards pays mm epsilon
            h).2 = Some out
         /\ forall res, out = Normal res -> history_shape True res).
Proof.
  intros Hmm. split.
  - unfold Calculator.simulate_payoff_total_budget.
    destruct (num_leb b num_zero).
    { eexists. split; [reflexivity|]. discriminate. }
    destruct (deepcopy cards h) as [h0 cards0].
    destruct (budget_loop_total (S (Z.to_nat mm)) cards0 b strategy mm epsilon
                0 num_zero [] h0) as [out E]; [lia|].
    exists out. split; [exact E|]. intros res ->.
    eapply budget_loop_history; [| | | |exact E];
      [lia|reflexivity|reflexivity|reflexivity].
  - unfold Calculator.simulate_payoff_manual_payments.
    destruct (deepcopy cards h) as [h0 cards0].
    destruct (Calculator.check_payments pays).
    2:{ eexists. split; [reflexivity|]. discriminate. }
    destruct (manual_loop_total (S (Z.to_nat mm)) cards0 pays
                (Calculator.name_to_card cards0 h0) mm epsilon 0 num_zero []
                h0) as [out E]; [lia|].
    exists out. split; [exact E|]. intros res ->.
    eapply manual_loop_history; [| | | |exact E];
      [lia|reflexivity|reflexivity|reflexivity].
Qed.

Lemma history_numbers_the_months_witness :
  (exists out,
      (Calculator.simulate_payoff_total_budget [0%nat] 300%float "avalanche"
         12 default_epsilon_binary64 single64).2 = Some out
      /\ forall res, out = Normal res ->
           history_shape ("avalanche"%string <> "proportional"%string) res)
  /\ (exists out,
         (Calculator.simulate_payoff_manual_payments [0%nat]
            [("Visa"%string, 300%float)] 12 default_epsilon_binary64
            single64).2 = Some out
         /\ forall res, out = Normal res -> history_shape True res).
Proof.
  exact (history_numbers_the_months (F := float) single64 [0%nat] 300%float
           "avalanche" [("Visa"%string, 300%float)] 12
           default_epsilon_binary64 ltac:(lia)).
Defined.

(** ** The identity of the objects does not matter *)

Section Renaming.
Context {F : Type} `{Number F}.
Variable f : loc -> loc.
Variable U : list loc.
Implicit Types (h : heap F) (l : loc) (ls cards : list loc).

Lemma renamed_load h h' l :
  renamed f U h h' -> l ∈ U -> load h' (f l) = load h l.
Proof.
  intros [Hl _] Hin. unfold load. destruct (Hl l Hin) as [_ ->]. reflexivity.
Qed.

Lemma renamed_store h h' l v :
  renamed f U h h' -> l ∈ U ->
  renamed f U (store_balance h l v) (store_balance h' (f l) v).
Proof.
  intros [Hl Hinj] Hin. split; [|exact Hinj]. intros x Hx.
  unfold store_balance. destruct (decide (l = x)) as [<-|Hne].
  - rewrite !list_lookup_alter_eq. destruct (Hl l Hin) as [[c Ec] E].
    rewrite E, Ec. split; [eexists|]; reflexivity.
  - rewrite !list_lookup_alter_ne; [apply Hl, Hx| |exact Hne].
    intros E. apply Hne, Hinj; assumption.
Qed.

Lemma renamed_fmap {A} (g : Card F -> A) h h' ls :
  renamed f U h h' -> Forall (fun l => l ∈ U) ls ->
  (fun l => g (load h' l)) <$> (f <$> ls) = (fun l => g (load h l)) <$> ls.
Proof.
  intros R. induction 1 as [|l ls Hl Hls IH]; [reflexivity|].
  rewrite !fmap_cons, IH, (renamed_load _ _ _ R Hl). reflexivity.
Qed.

Lemma renamed_total_balance h h' ls :
  renamed f U h h' -> Forall (fun l => l ∈ U) ls ->
  total_balance (f <$> ls) h' = total_balance ls h.
Proof.
  intros R Hls. unfold total_balance.
  now rewrite (renamed_fmap balance _ _ _ R Hls).
Qed.

Lemma renamed_accrue_interest ls epsilon acc h h' :
  renamed f U h h' -> Forall (fun l => l ∈ U) ls ->
  (accrue_interest (f <$> ls) epsilon acc h').2
  = (accrue_interest ls epsilon acc h).2
  /\ renamed f U (accrue_interest ls epsilon acc h).1
       (accrue_interest (f <$> ls) epsilon acc h').1.
Proof.
  intros R Hls. revert acc h h' R.
  induction Hls as [|l ls Hl Hls IH]; intros acc h h' R.
  - split; [reflexivity|exact R].
  - rewrite fmap_cons. cbn [accrue_interest].
    rewrite (renamed_load _ _ _ R Hl).
    destruct (num_ltb epsilon (balance (load h l))); apply IH;
      [apply renamed_store; assumption|exact R].
Qed.

Lemma renamed_active_cards ls epsilon h h' :
  renamed f U h h' -> Forall (fun l => l ∈ U) ls ->
  active_cards (f <$> ls) epsilon h' = f <$> active_cards ls epsilon h.
Proof.
  intros R. unfold active_cards.
  induction 1 as [|l ls Hl Hls IH]; [reflexivity|].
  rewrite fmap_cons, !filter_cons, (renamed_load _ _ _ R Hl), IH.
  destruct (decide _); reflexivity.
Qed.

Lemma active_cards_within ls epsilon h :
  Forall (fun l => l ∈ U) ls ->
  Forall (fun l => l ∈ U) (active_cards ls epsilon h).
Proof.
  intros Hls. unfold active_cards. apply Forall_forall. intros x Hx.
  apply list_elem_of_filter in Hx as [_ Hx].
  exact (proj1 (Forall_forall _ _) Hls x Hx).
Qed.

Lemma insert_sorted_fmap {A B} (g : A -> B) (lt : A -> A -> bool)
    (lt' : B -> B -> bool) x xs :
  (forall a b, lt' (g a) (g b) = lt a b) ->
  insert_sorted lt' (g x) (g <$> xs) = g <$> insert_sorted lt x xs.
Proof.
  intros Hlt. induction xs as [|y xs IH]; [reflexivity|].
  rewrite fmap_cons. cbn [insert_sorted]. rewrite Hlt.
  destruct (lt y x); [now rewrite IH|reflexivity].
Qed.

Lemma stable_sort_fmap {A B} (g : A -> B) (lt : A -> A -> bool)
    (lt' : B -> B -> bool) xs :
  (forall a b, lt' (g a) (g b) = lt a b) ->
  stable_sort lt' (g <$> xs) = g <$> stable_sort lt xs.
Proof.
  intros Hlt. induction xs as [|x xs IH]; [reflexivity|].
  rewrite fmap_cons. cbn [stable_sort].
  now rewrite IH, (insert_sorted_fmap g lt lt').
Qed.

Lemma renamed_sort_by_key key ls h h' :
  renamed f U h h' -> Forall (fun l => l ∈ U) ls ->
  sort_by_key key h' (f <$> ls) = f <$> sort_by_key key h ls.
Proof.
  intros R Hls. unfold sort_by_key.
  assert (E : (fun l => (key (load h' l), l)) <$> (f <$> ls)
              = prod_map id f <$> ((fun l => (key (load h l), l)) <$> ls)).
  { clear -R Hls. induction Hls as [|l ls Hl Hls IH]; [reflexivity|].
    rewrite !fmap_cons, IH, (renamed_load _ _ _ R Hl). reflexivity. }
  rewrite E.
  rewrite (stable_sort_fmap (prod_map id f)
             (fun a b => key_lt a.1 b.1) (fun a b => key_lt a.1 b.1))
    by (intros [] []; reflexivity).
  rewrite <- !list_fmap_compose. apply list_fmap_ext.
  intros i [k l] _. reflexivity.
Qed.

Lemma sort_by_key_within key ls h :
  Forall (fun l => l ∈ U) ls ->
  Forall (fun l => l ∈ U) (sort_by_key key h ls).
Proof.
  intros Hls. apply Forall_forall. intros x Hx.
  rewrite sort_by_key_perm in Hx.
  exact (proj1 (Forall_forall _ _) Hls x Hx).
Qed.

Lemma renamed_pay_in_order ls epsilon r h h' :
  renamed f U h h' -> Forall (fun l => l ∈ U) ls ->
  (pay_in_order (f <$> ls) epsilon r h').1.2
  = (pay_in_order ls epsilon r h).1.2
  /\ renamed f U (pay_in_order ls epsilon r h).1.1
       (pay_in_order (f <$> ls) epsilon r h').1.1.
Proof.
  intros R Hls. revert r h h' R.
  induction Hls as [|l ls Hl Hls IH]; intros r h h' R.
  - split; [reflexivity|exact R].
  - rewrite fmap_cons. cbn [pay_in_order].
    destruct (num_leb r epsilon); [split; [reflexivity|exact R]|].
    rewrite (renamed_load _ _ _ R Hl).
    match goal with
    | |- context [pay_in_order ls epsilon ?r' (store_balance h l ?v)] =>
        specialize (IH r' (store_balance h l v) (store_balance h' (f l) v)
                      (renamed_store _ _ _ v R Hl));
        destruct (pay_in_order ls epsilon r' (store_balance h l v))
          as [[h2 r2] tr];
        destruct (pay_in_order (f <$> ls) epsilon r'
                    (store_balance h' (f l) v)) as [[h2' r2'] tr']
    end.
    exact IH.
Qed.

Lemma renamed_pay_proportional ls r total h h' :
  renamed f U h h' -> Forall (fun l => l ∈ U) ls ->
  match (pay_proportional ls r total h).2,
        (pay_proportional (f <$> ls) r total h').2 with
  | Normal _, Normal _ => True
  | Raise e, Raise e' => e = e'
  | _, _ => False
  end
  /\ renamed f U (pay_proportional ls r total h).1
       (pay_proportional (f <$> ls) r total h').1.
Proof.
  intros R Hls. revert h h' R.
  induction Hls as [|l ls Hl Hls IH]; intros h h' R.
  - split; [exact I|exact R].
  - rewrite fmap_cons. cbn [pay_proportional].
    rewrite (renamed_load _ _ _ R Hl).
    destruct (py_div (balance (load h l)) total) as [q|e];
      [|split; [reflexivity|exact R]].
    match goal with
    | |- context [pay_proportional ls r total (store_balance h l ?v)] =>
        specialize (IH (store_balance h l v) (store_balance h' (f l) v)
                      (renamed_store _ _ _ v R Hl));
        destruct (pay_proportional ls r total (store_balance h l v))
          as [h2 [tr|e]];
        destruct (pay_proportional (f <$> ls) r total
                    (store_balance h' (f l) v)) as [h2' [tr'|e']]
    end; exact IH.
Qed.

Lemma renamed_display_balances ls h h' :
  renamed f U h h' -> Forall (fun l => l ∈ U) ls ->
  display_balances (f <$> ls) h' = display_balances ls h.
Proof.
  intros R Hls. unfold display_balances. generalize (@nil (string * F)).
  induction Hls as [|l ls Hl Hls IH]; intros d; [reflexivity|].
  rewrite fmap_cons. cbn [foldl]. rewrite (renamed_load _ _ _ R Hl).
  apply IH.
Qed.

Lemma renamed_record_snapshot cards m mi tip h h' :
  renamed f U h h' -> Forall (fun l => l ∈ U) cards ->
  Calculator.record_snapshot (f <$> cards) m mi tip h'
  = Calculator.record_snapshot cards m mi tip h.
Proof.
  intros R Hc. unfold Calculator.record_snapshot.
  now rewrite (renamed_display_balances _ _ _ R Hc),
    (renamed_total_balance _ _ _ R Hc).
Qed.

End Renaming.

Section RenamingLoops.
Context {F : Type} `{Number F}.
Variable f : loc -> loc.
Variable U : list loc.
Implicit Types (h : heap F) (l : loc) (ls cards : list loc).

Lemma renamed_payoff_order strategy ls h h' :
  renamed f U h h' -> Forall (fun l => l ∈ U) ls ->
  Calculator.payoff_order strategy (f <$> ls) h'
  = match Calculator.payoff_order strategy ls h with
    | Normal o => Normal (f <$> o)
    | Raise e => Raise e
    end.
Proof.
  intros R Hls. unfold Calculator.payoff_order.
  rewrite !(renamed_sort_by_key f U _ _ _ _ R Hls).
  repeat destruct (String.eqb strategy _); reflexivity.
Qed.

Lemma payoff_order_within strategy ls h o :
  Forall (fun l => l ∈ U) ls ->
  Calculator.payoff_order strategy ls h = Normal o ->
  Forall (fun l => l ∈ U) o.
Proof.
  intros Hls. unfold Calculator.payoff_order.
  repeat destruct (String.eqb strategy _); intros [= <-];
    [apply sort_by_key_within| apply sort_by_key_within|]; exact Hls.
Qed.

Lemma renamed_second_pass strategy cards epsilon r h h' :
  renamed f U h h' -> Forall (fun l => l ∈ U) cards ->
  renamed f U (Calculator.second_pass strategy cards epsilon r h).1.1
    (Calculator.second_pass strategy (f <$> cards) epsilon r h').1.1.
Proof.
  intros R Hc. unfold Calculator.second_pass.
  destruct (num_ltb epsilon r); [|exact R].
  rewrite (renamed_active_cards f U _ _ _ _ R Hc).
  pose proof (active_cards_within U cards epsilon h Hc) as Ha.
  rewrite !(renamed_sort_by_key f U _ _ _ _ R Ha).
  destruct (String.eqb strategy "avalanche");
    apply renamed_pay_in_order; try exact R; apply sort_by_key_within, Ha.
Qed.

Lemma renamed_allocate_in_order strategy cards active epsilon b h h' :
  renamed f U h h' -> Forall (fun l => l ∈ U) cards ->
  Forall (fun l => l ∈ U) active ->
  renamed f U
    (Calculator.allocate_in_order strategy cards active epsilon b h).1.1
    (Calculator.allocate_in_order strategy (f <$> cards) (f <$> active)
       epsilon b h').1.1.
Proof.
  intros R Hc Ha. unfold Calculator.allocate_in_order.
  destruct (renamed_pay_in_order f U active epsilon b h h' R Ha) as [E1 R1].
  destruct (pay_in_order active epsilon b h) as [[h1 r1] tr1].
  destruct (pay_in_order (f <$> active) epsilon b h') as [[h1' r1'] tr1'].
  cbn [fst snd] in E1, R1. subst r1'.
  pose proof (renamed_second_pass strategy cards epsilon r1 h1 h1' R1 Hc)
    as R2.
  destruct (Calculator.second_pass strategy cards epsilon r1 h1)
    as [[h2 r2] tr2].
  destruct (Calculator.second_pass strategy (f <$> cards) epsilon r1 h1')
    as [[h2' r2'] tr2'].
  exact R2.
Qed.

Lemma renamed_month_cycle cards b strategy epsilon m tip hist h h' :
  renamed f U h h' -> Forall (fun l => l ∈ U) cards ->
  (Calculator.month_cycle (f <$> cards) b strategy epsilon m tip hist h').2
  = (Calculator.month_cycle cards b strategy epsilon m tip hist h).2
  /\ renamed f U
       (Calculator.month_cycle cards b strategy epsilon m tip hist h).1
       (Calculator.month_cycle (f <$> cards) b strategy epsilon m tip hist
          h').1.
Proof.
  intros R Hc. unfold Calculator.month_cycle.
  destruct (renamed_accrue_interest f U cards epsilon num_zero h h' R Hc)
    as [E1 R1].
  destruct (accrue_interest cards epsilon num_zero h) as [h1 mi].
  destruct (accrue_interest (f <$> cards) epsilon num_zero h') as [h1' mi'].
  cbn [fst snd] in E1, R1. subst mi'.
  rewrite (renamed_active_cards f U _ _ _ _ R1 Hc).
  pose proof (active_cards_within U cards epsilon h1 Hc) as Ha.
  rewrite (renamed_payoff_order strategy _ _ _ R1 Ha).
  destruct (Calculator.payoff_order strategy (active_cards cards epsilon h1)
              h1) as [o|e] eqn:Eo; [|split; [reflexivity|exact R1]].
  pose proof (payoff_order_within _ _ _ _ Ha Eo) as Ho.
  destruct (String.eqb strategy "proportional").
  - rewrite (renamed_fmap f U balance _ _ _ R1 Ho).
    destruct (num_leb _ epsilon); [split; [reflexivity|exact R1]|].
    match goal with
    | |- context [pay_proportional o b ?t h1] =>
        destruct (renamed_pay_proportional f U o b t h1 h1' R1 Ho) as [Ec R2];
        destruct (pay_proportional o b t h1) as [h2 [tr|e]];
        destruct (pay_proportional (f <$> o) b t h1') as [h2' [tr'|e']]
    end; cbn [fst snd] in Ec, R2; try contradiction.
    + rewrite (renamed_record_snapshot f U _ _ _ _ _ _ R2 Hc).
      split; [reflexivity|exact R2].
    + subst e'. split; [reflexivity|exact R2].
  - pose proof (renamed_allocate_in_order strategy cards o epsilon b h1 h1' R1
                  Hc Ho) as R2.
    destruct (Calculator.allocate_in_order strategy cards o epsilon b h1)
      as [[h2 r2] tr2].
    destruct (Calculator.allocate_in_order strategy (f <$> cards) (f <$> o)
                epsilon b h1') as [[h2' r2'] tr2'].
    cbn [fst snd] in R2.
    rewrite (renamed_record_snapshot f U _ _ _ _ _ _ R2 Hc).
    split; [reflexivity|exact R2].
Qed.

Lemma renamed_budget_loop fuel cards b strategy mm epsilon m tip hist h h' :
  renamed f U h h' -> Forall (fun l => l ∈ U) cards ->
  (Calculator.budget_loop fuel (f <$> cards) b strategy mm epsilon m tip hist
     h').2
  = (Calculator.budget_loop fuel cards b strategy mm epsilon m tip hist h).2.
Proof.
  intros R Hc. revert m tip hist h h' R.
  induction fuel as [|fuel IH]; intros m tip hist h h' R; [reflexivity|].
  cbn [Calculator.budget_loop].
  rewrite (renamed_total_balance f U _ _ _ R Hc).
  destruct (num_ltb epsilon (total_balance cards h)); [|reflexivity].
  destruct (m + 1 >? mm); [reflexivity|].
  destruct (renamed_month_cycle cards b strategy epsilon (m + 1) tip hist h h'
              R Hc) as [E R1].
  destruct (Calculator.month_cycle cards b strategy epsilon (m + 1) tip hist h)
    as [h1 c].
  destruct (Calculator.month_cycle (f <$> cards) b strategy epsilon (m + 1) tip
              hist h') as [h1' c'].
  cbn [fst snd] in E, R1. subst c'.
  destruct c as [tip' hist'|tip' hist'|e]; [|reflexivity|reflexivity].
  apply IH, R1.
Qed.

Lemma renamed_streamlit_month_cycle cards b strategy epsilon tip h h' :
  renamed f U h h' -> Forall (fun l => l ∈ U) cards ->
  (Streamlit.month_cycle (f <$> cards) b strategy epsilon tip h').2
  = (Streamlit.month_cycle cards b strategy epsilon tip h).2
  /\ renamed f U (Streamlit.month_cycle cards b strategy epsilon tip h).1
       (Streamlit.month_cycle (f <$> cards) b strategy epsilon tip h').1.
Proof.
  intros R Hc. unfold Streamlit.month_cycle.
  destruct (renamed_accrue_interest f U cards epsilon tip h h' R Hc)
    as [E1 R1].
  destruct (accrue_interest cards epsilon tip h) as [h1 mi].
  destruct (accrue_interest (f <$> cards) epsilon tip h') as [h1' mi'].
  cbn [fst snd] in E1, R1. subst mi'.
  rewrite (renamed_active_cards f U _ _ _ _ R1 Hc).
  pose proof (active_cards_within U cards epsilon h1 Hc) as Ha.
  rewrite !(renamed_sort_by_key f U _ _ _ _ R1 Ha).
  assert (Hgreedy : forall key,
    renamed f U
      (pay_in_order (sort_by_key key h1 (active_cards cards epsilon h1))
         epsilon b h1).1.1
      (pay_in_order (f <$> sort_by_key key h1 (active_cards cards epsilon h1))
         epsilon b h1').1.1).
  { intros key. apply renamed_pay_in_order; [exact R1|].
    apply sort_by_key_within, Ha. }
  destruct (String.eqb strategy "avalanche").
  { specialize (Hgreedy avalanche_key).
    destruct (pay_in_order (sort_by_key avalanche_key h1 _) epsilon b h1)
      as [[h2 r2] tr2].
    destruct (pay_in_order (f <$> sort_by_key avalanche_key h1 _) epsilon b
                h1') as [[h2' r2'] tr2'].
    split; [reflexivity|exact Hgreedy]. }
  destruct (String.eqb strategy "snowball").
  { specialize (Hgreedy snowball_key).
    destruct (pay_in_order (sort_by_key snowball_key h1 _) epsilon b h1)
      as [[h2 r2] tr2].
    destruct (pay_in_order (f <$> sort_by_key snowball_key h1 _) epsilon b
                h1') as [[h2' r2'] tr2'].
    split; [reflexivity|exact Hgreedy]. }
  destruct (String.eqb strategy "proportional");
    [|split; [reflexivity|exact R1]].
  rewrite (renamed_fmap f U balance _ _ _ R1 Ha).
  destruct (num_leb _ epsilon); [split; [reflexivity|exact R1]|].
  match goal with
  | |- context [pay_proportional ?o b ?t h1] =>
      destruct (renamed_pay_proportional f U o b t h1 h1' R1 Ha) as [Ec R2];
      destruct (pay_proportional o b t h1) as [h2 [tr|e]];
      destruct (pay_proportional (f <$> o) b t h1') as [h2' [tr'|e']]
  end; cbn [fst snd] in Ec, R2; try contradiction.
  - split; [reflexivity|exact R2].
  - subst e'. split; [reflexivity|exact R2].
Qed.

Lemma renamed_streamlit_budget_loop fuel cards b strategy mm epsilon m tip
    h h' :
  renamed f U h h' -> Forall (fun l => l ∈ U) cards ->
  (Streamlit.budget_loop fuel (f <$> cards) b strategy mm epsilon m tip h').2
  = (Streamlit.budget_loop fuel cards b strategy mm epsilon m tip h).2.
Proof.
  intros R Hc. revert m tip h h' R.
  induction fuel as [|fuel IH]; intros m tip h h' R; [reflexivity|].
  cbn [Streamlit.budget_loop].
  rewrite (renamed_total_balance f U _ _ _ R Hc).
  destruct (num_ltb epsilon (total_balance cards h)); [|reflexivity].
  destruct (m + 1 >? mm); [reflexivity|].
  destruct (renamed_streamlit_month_cycle cards b strategy epsilon tip h h'
              R Hc) as [E R1].
  destruct (Streamlit.month_cycle cards b strategy epsilon tip h) as [h1 c].
  destruct (Streamlit.month_cycle (f <$> cards) b strategy epsilon tip h')
    as [h1' c'].
  cbn [fst snd] in E, R1. subst c'.
  destruct c as [tip'|tip'|e]; [|reflexivity|reflexivity].
  apply IH, R1.
Qed.

Lemma renamed_name_to_card cards h h' :
  renamed f U h h' -> Forall (fun l => l ∈ U) cards ->
  Calculator.name_to_card (f <$> cards) h'
  = f <$> Calculator.name_to_card cards h.
Proof.
  intros R Hc. unfold Calculator.name_to_card.
  assert (G : forall d : gmap string loc,
    foldl (fun d l => <[name (load h' l) := l]> d) (f <$> d) (f <$> cards)
    = f <$> foldl (fun d l => <[name (load h l) := l]> d) d cards).
  { induction Hc as [|l cards Hl Hc IH]; intros d; [reflexivity|].
    rewrite fmap_cons. cbn [foldl]. rewrite (renamed_load f U _ _ _ R Hl).
    rewrite <- fmap_insert. apply IH. }
  rewrite <- G, fmap_empty. reflexivity.
Qed.

Lemma renamed_apply_payments_manual pays (by_name : gmap string loc) epsilon
    h h' :
  renamed f U h h' ->
  (forall k l, by_name !! k = Some l -> l ∈ U) ->
  (Calculator.apply_payments_manual pays (f <$> by_name) epsilon h').2
  = (Calculator.apply_payments_manual pays by_name epsilon h).2
  /\ renamed f U (Calculator.apply_payments_manual pays by_name epsilon h).1
       (Calculator.apply_payments_manual pays (f <$> by_name) epsilon h').1.
Proof.
  intros R Hby. revert h h' R.
  induction pays as [|[k v] pays IH]; intros h h' R;
    cbn [Calculator.apply_payments_manual]; [split; [reflexivity|exact R]|].
  rewrite lookup_fmap.
  destruct (by_name !! k) as [l|] eqn:Ek; cbn [fmap option_fmap option_map];
    [|split; [reflexivity|exact R]].
  rewrite (renamed_load f U _ _ _ R (Hby k l Ek)).
  destruct (num_ltb epsilon (balance (load h l)) && num_ltb num_zero v);
    apply IH; [apply renamed_store; [exact R|exact (Hby k l Ek)]|exact R].
Qed.

Lemma renamed_manual_cycle cards pays (by_name : gmap string loc) epsilon m
    tip hist h h' :
  renamed f U h h' -> Forall (fun l => l ∈ U) cards ->
  (forall k l, by_name !! k = Some l -> l ∈ U) ->
  (Calculator.manual_cycle (f <$> cards) pays (f <$> by_name) epsilon m tip
     hist h').2
  = (Calculator.manual_cycle cards pays by_name epsilon m tip hist h).2
  /\ renamed f U
       (Calculator.manual_cycle cards pays by_name epsilon m tip hist h).1
       (Calculator.manual_cycle (f <$> cards) pays (f <$> by_name) epsilon m
          tip hist h').1.
Proof.
  intros R Hc Hby. unfold Calculator.manual_cycle.
  destruct (renamed_accrue_interest f U cards epsilon num_zero h h' R Hc)
    as [E1 R1].
  destruct (accrue_interest cards epsilon num_zero h) as [h1 mi].
  destruct (accrue_interest (f <$> cards) epsilon num_zero h') as [h1' mi'].
  cbn [fst snd] in E1, R1. subst mi'.
  destruct (renamed_apply_payments_manual pays by_name epsilon h1 h1' R1 Hby)
    as [E2 R2].
  destruct (Calculator.apply_payments_manual pays by_name epsilon h1)
    as [h2 c].
  destruct (Calculator.apply_payments_manual pays (f <$> by_name) epsilon h1')
    as [h2' c'].
  cbn [fst snd] in E2, R2. subst c'.
  destruct c as [[]|e]; [|split; [reflexivity|exact R2]].
  rewrite (renamed_record_snapshot f U _ _ _ _ _ _ R2 Hc).
  split; [reflexivity|exact R2].
Qed.

Lemma renamed_manual_loop fuel cards pays (by_name : gmap string loc) mm
    epsilon m tip hist h h' :
  renamed f U h h' -> Forall (fun l => l ∈ U) cards ->
  (forall k l, by_name !! k = Some l -> l ∈ U) ->
  (Calculator.manual_loop fuel (f <$> cards) pays (f <$> by_name) mm epsilon
     m tip hist h').2
  = (Calculator.manual_loop fuel cards pays by_name mm epsilon m tip hist h).2.
Proof.
  intros R Hc Hby. revert m tip hist h h' R.
  induction fuel as [|fuel IH]; intros m tip hist h h' R; [reflexivity|].
  cbn [Calculator.manual_loop].
  rewrite (renamed_total_balance f U _ _ _ R Hc).
  destruct (num_ltb epsilon (total_balance cards h)); [|reflexivity].
  destruct (m + 1 >? mm); [reflexivity|].
  destruct (renamed_manual_cycle cards pays by_name epsilon (m + 1) tip hist
              h h' R Hc Hby) as [E R1].
  destruct (Calculator.manual_cycle cards pays by_name epsilon (m + 1) tip
              hist h) as [h1 c].
  destruct (Calculator.manual_cycle (f <$> cards) pays (f <$> by_name) epsilon
              (m + 1) tip hist h') as [h1' c'].
  cbn [fst snd] in E, R1. subst c'.
  destruct c as [[tip' hist']|e]; [|reflexivity].
  apply IH, R1.
Qed.

End RenamingLoops.

Section CopyElsewhere.
Context {F : Type} `{Number F}.
Implicit Types (h : heap F) (l : loc) (ls cards : list loc).

Lemma shifted_app d h h' k l :
  length h' = (length h + d)%nat ->
  (l < length h)%nat /\ h' !! (l + d)%nat = h !! l ->
  (l < length (h ++ k))%nat /\ (h' ++ k) !! (l + d)%nat = (h ++ k) !! l.
Proof.
  intros Hlen [Hl E]. rewrite length_app. split; [lia|].
  rewrite !lookup_app_l by lia. exact E.
Qed.

(** Copying the same cards in a longer store allocates the same copies, in
    the same order, further up. *)
Lemma deepcopy_cards_shift d (memo : gmap loc loc) cards h h' :
  length h' = (length h + d)%nat ->
  Forall (fun l => (l < length h)%nat /\ h' !! l = h !! l) cards ->
  (forall l l', memo !! l = Some l' ->
     (l' < length h)%nat /\ h' !! (l' + d)%nat = h !! l') ->
  exists k,
    (deepcopy_cards memo cards h).1 = h ++ k
    /\ (deepcopy_cards ((fun l => (l + d)%nat) <$> memo) cards h').1 = h' ++ k
    /\ (deepcopy_cards ((fun l => (l + d)%nat) <$> memo) cards h').2
       = (fun l => (l + d)%nat) <$> (deepcopy_cards memo cards h).2
    /\ Forall (fun l => (l < length (h ++ k))%nat
                        /\ (h' ++ k) !! (l + d)%nat = (h ++ k) !! l)
         (deepcopy_cards memo cards h).2.
Proof.
  revert memo h h'. induction cards as [|l cards IH];
    intros memo h h' Hlen Hc Hmemo.
  - exists []. cbn [deepcopy_cards fst snd]. rewrite !app_nil_r.
    repeat split; constructor.
  - apply Forall_cons in Hc as [[Hl El] Hc].
    cbn [deepcopy_cards]. rewrite lookup_fmap.
    destruct (memo !! l) as [l'|] eqn:Em; cbn [fmap option_fmap option_map].
    + destruct (IH memo h h' Hlen Hc Hmemo) as (k & E1 & E2 & E3 & Hall).
      destruct (deepcopy_cards memo cards h) as [h1 ls1].
      destruct (deepcopy_cards ((fun l => (l + d)%nat) <$> memo) cards h')
        as [h1' ls1'].
      cbn [fst snd] in *. subst h1 h1' ls1'. exists k.
      split; [reflexivity|]. split; [reflexivity|].
      split; [now rewrite fmap_cons|].
      apply Forall_cons. split; [|exact Hall].
      apply shifted_app; [exact Hlen|]. exact (Hmemo l l' Em).
    + assert (Eload : load h' l = load h l) by (unfold load; now rewrite El).
      rewrite Eload, Hlen.
      set (c := mkCard (name (load h l)) (balance (load h l))
                  (apr (load h l))).
      change (<[l := (length h + d)%nat]> ((fun l => (l + d)%nat) <$> memo))
        with (<[l := (fun l => (l + d)%nat) (length h)]>
                ((fun l => (l + d)%nat) <$> memo)).
      rewrite <- fmap_insert.
      destruct (IH (<[l := length h]> memo) (h ++ [c]) (h' ++ [c]))
        as (k & E1 & E2 & E3 & Hall).
      * rewrite !length_app. cbn [length]. lia.
      * eapply Forall_impl; [exact Hc|]. intros x [Hx Ex].
        rewrite length_app. split; [lia|].
        rewrite !lookup_app_l by lia. exact Ex.
      * intros x x' Ex. destruct (decide (l = x)) as [<-|Hne].
        -- rewrite lookup_insert_eq in Ex. injection Ex as <-.
           rewrite length_app. cbn [length]. split; [lia|].
           rewrite <- Hlen, !list_lookup_middle by reflexivity. reflexivity.
        -- rewrite lookup_insert_ne in Ex by exact Hne.
           apply shifted_app; [exact Hlen|]. exact (Hmemo x x' Ex).
      * destruct (deepcopy_cards (<[l := length h]> memo) cards (h ++ [c]))
          as [h1 ls1].
        destruct (deepcopy_cards
                    ((fun l => (l + d)%nat) <$> <[l := length h]> memo) cards
                    (h' ++ [c])) as [h1' ls1'].
        cbn [fst snd] in *. subst h1 h1' ls1'. exists (c :: k).
        rewrite <- !app_assoc in *. cbn [app] in *.
        split; [reflexivity|]. split; [reflexivity|].
        split; [now rewrite fmap_cons|].
        apply Forall_cons. split; [|exact Hall].
        rewrite length_app. cbn [length]. split; [lia|].
        rewrite <- Hlen, !list_lookup_middle by reflexivity. reflexivity.
Qed.

Lemma same_cards_lookup cards h h' :
  same_cards cards h h' ->
  Forall (fun l => (l < length h)%nat /\ h' !! l = h !! l) cards.
Proof.
  unfold same_cards. intros Hc. eapply Forall_impl; [exact Hc|].
  intros l [Hl E]. split; [now apply lookup_lt_is_Some|exact E].
Qed.

Lemma same_cards_sym cards h h' :
  same_cards cards h h' -> same_cards cards h' h.
Proof.
  unfold same_cards. intros Hc. eapply Forall_impl; [exact Hc|].
  intros l [Hl E]. rewrite E. split; [exact Hl|reflexivity].
Qed.

(** The copies made in a longer store are the copies made in the shorter
    one under other identities. *)
Lemma deepcopy_renamed cards h h' :
  (length h <= length h')%nat -> same_cards cards h h' ->
  (deepcopy cards h').2
  = (fun l => (l + (length h' - length h))%nat) <$> (deepcopy cards h).2
  /\ renamed (fun l => (l + (length h' - length h))%nat) (deepcopy cards h).2
       (deepcopy cards h).1 (deepcopy cards h').1.
Proof.
  intros Hlen Hc. unfold deepcopy.
  destruct (deepcopy_cards_shift (length h' - length h) ∅ cards h h')
    as (k & E1 & E2 & E3 & Hall);
    [lia|apply same_cards_lookup, Hc| |].
  { intros l l' E. rewrite lookup_empty in E. discriminate. }
  rewrite fmap_empty in E2, E3. split; [exact E3|].
  rewrite E1, E2. split.
  - intros l Hl. destruct (proj1 (Forall_forall _ _) Hall l Hl) as [Hlt E].
    split; [now apply lookup_lt_is_Some|exact E].
  - intros l l' _ _ E. lia.
Qed.

Lemma Forall_elem_of_self (ls : list loc) : Forall (fun l => l ∈ ls) ls.
Proof. apply Forall_forall. tauto. Qed.

Lemma budget_result_longer cards b strategy mm epsilon h h' :
  (length h <= length h')%nat -> same_cards cards h h' ->
  (Calculator.simulate_payoff_total_budget cards b strategy mm epsilon h').2
  = (Calculator.simulate_payoff_total_budget cards b strategy mm epsilon h).2.
Proof.
  intros Hlen Hc. unfold Calculator.simulate_payoff_total_budget.
  destruct (num_leb b num_zero); [reflexivity|].
  destruct (deepcopy_renamed cards h h' Hlen Hc) as [E R].
  destruct (deepcopy cards h) as [h0 cards0].
  destruct (deepcopy cards h') as [h0' cards0'].
  cbn [fst snd] in E, R. subst cards0'.
  exact (renamed_budget_loop _ cards0 _ cards0 b strategy mm epsilon 0
           num_zero [] h0 h0' R (Forall_elem_of_self cards0)).
Qed.

Lemma streamlit_result_longer cards b strategy mm epsilon h h' :
  (length h <= length h')%nat -> same_cards cards h h' ->
  (Streamlit.simulate_payoff_total_budget cards b strategy mm epsilon h').2
  = (Streamlit.simulate_payoff_total_budget cards b strategy mm epsilon h).2.
Proof.
  intros Hlen Hc. unfold Streamlit.simulate_payoff_total_budget.
  destruct (num_leb b num_zero); [reflexivity|].
  destruct (deepcopy_renamed cards h h' Hlen Hc) as [E R].
  destruct (deepcopy cards h) as [h0 cards0].
  destruct (deepcopy cards h') as [h0' cards0'].
  cbn [fst snd] in E, R. subst cards0'.
  exact (renamed_streamlit_budget_loop _ cards0 _ cards0 b strategy mm epsilon
           0 num_zero h0 h0' R (Forall_elem_of_self cards0)).
Qed.

Lemma manual_result_longer cards pays mm epsilon h h' :
  (length h <= length h')%nat -> same_cards cards h h' ->
  (Calculator.simulate_payoff_manual_payments cards pays mm epsilon h').2
  = (Calculator.simulate_payoff_manual_payments cards pays mm epsilon h).2.
Proof.
  intros Hlen Hc. unfold Calculator.simulate_payoff_manual_payments.
  destruct (deepcopy_renamed cards h h' Hlen Hc) as [E R].
  destruct (deepcopy cards h) as [h0 cards0].
  destruct (deepcopy cards h') as [h0' cards0'].
  cbn [fst snd] in E, R. subst cards0'.
  destruct (Calculator.check_payments pays); [|reflexivity].
  rewrite (renamed_name_to_card _ cards0 _ _ _ R (Forall_elem_of_self cards0)).
  apply (renamed_manual_loop _ cards0); [exact R|apply Forall_elem_of_self|].
  intros k l. apply name_to_card_elem.
Qed.

End CopyElsewhere.

(** X9: what a simulation returns depends on the cards alone.  Two stores
    that hold the same objects at the locations of the caller's cards give
    the same result (or the same exception), whatever else they hold and
    however many objects were allocated before: the copies the simulation
    works on land at other locations, which neither the sort, nor the dict
    of names, nor the history can tell.  So a simulation run again after
    other simulations returns what it returned before.  This holds for the
    budget simulation of both source files and for the manual simulation. *)
Theorem simulation_depends_on_the_cards_only {F} `{Number F}
    (h h' : heap F) (cards : list loc) (b : F) (strategy : string)
    (pays : list (string * F)) (mm : Z) (epsilon : F) :
  same_cards cards h h' ->
  (Calculator.simulate_payoff_total_budget cards b strategy mm epsilon h').2
  = (Calculator.simulate_payoff_total_budget cards b strategy mm epsilon h).2
  /\ (Calculator.simulate_payoff_manual_payments cards pays mm epsilon h').2
     = (Calculator.simulate_payoff_manual_payments cards pays mm epsilon h).2
  /\ (Streamlit.simulate_payoff_total_budget cards b strategy mm epsilon h').2
     = (Streamlit.simulate_payoff_total_budget cards b strategy mm epsilon
          h).2.
Proof.
  intros Hc. destruct (le_ge_dec (length h) (length h')) as [Hlen|Hlen].
  - split; [|split].
    + now apply budget_result_longer.
    + now apply manual_result_longer.
    + now apply streamlit_result_longer.
  - apply same_cards_sym in Hc. split; [|split]; symmetry.
    + now apply budget_result_longer.
    + now apply manual_result_longer.
    + now apply streamlit_result_longer.
Qed.

(** The store after a first simulation, then the same simulations again. *)
Lemma simulation_depends_on_the_cards_only_witness :
  let h' := (Calculator.simulate_payoff_total_budget [0; 1]%nat 800%float
               "avalanche" 2000 default_epsilon_binary64 pair64).1 in
  (Calculator.simulate_payoff_total_budget [0; 1]%nat 800%float "avalanche"
     2000 default_epsilon_binary64 h').2
  = (Calculator.simulate_payoff_total_budget [0; 1]%nat 800%float "avalanche"
       2000 default_epsilon_binary64 pair64).2
  /\ (Calculator.simulate_payoff_manual_payments [0; 1]%nat
        [("A"%string, 500%float); ("B"%string, 300%float)] 2000
        default_epsilon_binary64 h').2
     = (Calculator.simulate_payoff_manual_payments [0; 1]%nat
          [("A"%string, 500%float); ("B"%string, 300%float)] 2000
          default_epsilon_binary64 pair64).2
  /\ (Streamlit.simulate_payoff_total_budget [0; 1]%nat 800%float "avalanche"
        2000 default_epsilon_binary64 h').2
     = (Streamlit.simulate_payoff_total_budget [0; 1]%nat 800%float
          "avalanche" 2000 default_epsilon_binary64 pair64).2.
Proof.
  intros h'.
  assert (Hc : same_cards [0; 1]%nat pair64 h').
  { subst h'. unfold same_cards.
    repeat first [apply Forall_nil_2
                 | apply Forall_cons_2;
                   [split; [eexists; reflexivity|vm_compute; reflexivity]|]]. }
  exact (simulation_depends_on_the_cards_only (F := float) pair64 h'
           [0; 1]%nat 800%float "avalanche"
           [("A"%string, 500%float); ("B"%string, 300%float)] 2000
           default_epsilon_binary64 Hc).
Defined.

(** ** The comparison table *)

Section CompareBudgets.
Context {F : Type} `{Number F}.
Implicit Types (h : heap F) (l : loc) (ls cards : list loc).

Lemma same_upto_same_cards cards h h1 :
  allocated h cards -> same_upto (length h) h h1 -> same_cards cards h h1.
Proof.
  intros Hal Hsame. unfold same_cards. eapply Forall_impl; [exact Hal|].
  intros l Hl. cbn beta in Hl.
  destruct (lookup_lt_is_Some_2 h l Hl) as [c Ec].
  split; [now exists c|]. rewrite Ec. now apply (same_upto_lookup h).
Qed.

Lemma same_upto_length h h1 :
  same_upto (length h) h h1 -> (length h <= length h1)%nat.
Proof.
  unfold same_upto. intros E. apply (f_equal length) in E.
  rewrite !length_take in E. lia.
Qed.

Lemma total_balance_same_cards cards h h1 :
  same_cards cards h h1 -> total_balance cards h1 = total_balance cards h.
Proof.
  intros Hc. apply total_balance_load.
  induction Hc as [|l cards [_ E] Hc IH]; [reflexivity|].
  rewrite !fmap_cons, IH. unfold load at 1 3. now rewrite E.
Qed.

Lemma budget_result_same_cards cards b strategy mm epsilon h h' :
  same_cards cards h h' ->
  (Calculator.simulate_payoff_total_budget cards b strategy mm epsilon h').2
  = (Calculator.simulate_payoff_total_budget cards b strategy mm epsilon h).2.
Proof.
  intros Hc. destruct (le_ge_dec (length h) (length h')) as [Hlen|Hlen].
  - now apply budget_result_longer.
  - symmetry. apply budget_result_longer; [exact Hlen|].
    now apply same_cards_sym.
Qed.

Lemma budget_simulation_completes cards b strategy mm epsilon h :
  0 <= mm ->
  exists out,
    (Calculator.simulate_payoff_total_budget cards b strategy mm epsilon h).2
    = Some out.
Proof.
  intros Hmm. unfold Calculator.simulate_payoff_total_budget.
  destruct (num_leb b num_zero); [eexists; reflexivity|].
  destruct (deepcopy cards h) as [h0 cards0].
  apply budget_loop_total. lia.
Qed.

(** The walk over the budgets, started in any store that still holds the
    caller's cards as they were. *)
Lemma compare_budgets_rows default_epsilon cards budgets strategy h h1 :
  allocated h cards -> same_upto (length h) h h1 ->
  ((Calculator.compare_budgets default_epsilon cards budgets strategy h1).1.2,
   (Calculator.compare_budgets default_epsilon cards budgets strategy h1).2)
  = independent_runs default_epsilon cards budgets strategy h
  /\ same_upto (length h) h
       (Calculator.compare_budgets default_epsilon cards budgets strategy
          h1).1.1
  /\ (Calculator.compare_budgets default_epsilon cards budgets strategy h1).2
     <> None.
Proof.
  intros Hal. revert h1. induction budgets as [|b budgets IH];
    intros h1 Hsame; cbn [Calculator.compare_budgets independent_runs].
  - split; [reflexivity|]. split; [exact Hsame|discriminate].
  - pose proof (same_upto_same_cards cards h h1 Hal Hsame) as Hc.
    pose proof (budget_result_same_cards cards b strategy 2000
                  default_epsilon h h1 Hc) as E.
    pose proof (budget_same_upto cards b strategy 2000 default_epsilon h1)
      as Hframe.
    destruct (budget_simulation_completes cards b strategy 2000
                default_epsilon h1) as [out Eout]; [lia|].
    destruct (Calculator.simulate_payoff_total_budget cards b strategy 2000
                default_epsilon h1) as [h2 c].
    cbn [fst snd] in E, Hframe, Eout. rewrite Eout in E |- *.
    rewrite <- E. clear E Eout c.
    assert (Hsame2 : same_upto (length h) h h2).
    { eapply same_upto_trans; [exact Hsame|].
      eapply same_upto_le; [|exact Hframe]. now apply same_upto_length. }
    destruct out as [res|e].
    + destruct (IH h2 Hsame2) as (Erows & Hsame3 & Hsome).
      rewrite (total_balance_same_cards cards h h2
                 (same_upto_same_cards cards h h2 Hal Hsame2)).
      destruct (Calculator.compare_budgets default_epsilon cards budgets
                  strategy h2) as [[h3 rows] c].
      cbn [fst snd] in Erows, Hsame3, Hsome. rewrite <- Erows.
      split; [reflexivity|]. split; [exact Hsame3|exact Hsome].
    + split; [reflexivity|]. split; [exact Hsame2|discriminate].
Qed.

End CompareBudgets.

(** X10: [compare_budgets] simulates the budgets one after the other on
    the same list of cards.  Every row is the row of a simulation of the
    caller's cards as they were at the call, and its total paid is the
    principal at the call plus the interest: the simulations before it
    leave no trace in it.  The walk ends at the first simulation that
    raises, the rows before it printed; it always ends.  The caller's cards
    are as they were. *)
Theorem compare_budgets_runs_are_independent {F} `{Number F}
    (default_epsilon : F) (cards : list loc) (budgets : list F)
    (strategy : string) (h : heap F) :
  allocated h cards ->
  ((Calculator.compare_budgets default_epsilon cards budgets strategy h).1.2,
   (Calculator.compare_budgets default_epsilon cards budgets strategy h).2)
  = independent_runs default_epsilon cards budgets strategy h
  /\ same_upto (length h) h
       (Calculator.compare_budgets default_epsilon cards budgets strategy
          h).1.1
  /\ (Calculator.compare_budgets default_epsilon cards budgets strategy h).2
     <> None.
Proof.
  intros Hal.
  destruct (compare_budgets_rows default_epsilon cards budgets strategy h h
              Hal (same_upto_refl (length h) h))
    as (Hrows & Hframe & Hends).
  split; [exact Hrows|]. split; [exact Hframe|exact Hends].
Qed.

(** The call of the console program: 800 and 1000 a month, avalanche. *)
Lemma compare_budgets_runs_are_independent_witness :
  ((Calculator.compare_budgets default_epsilon_binary64 [0; 1]%nat
      [800%float; 1000%float] "avalanche" pair64).1.2,
   (Calculator.compare_budgets default_epsilon_binary64 [0; 1]%nat
      [800%float; 1000%float] "avalanche" pair64).2)
  = independent_runs default_epsilon_binary64 [0; 1]%nat
      [800%float; 1000%float] "avalanche" pair64
  /\ same_upto (length pair64) pair64
       (Calculator.compare_budgets default_epsilon_binary64 [0; 1]%nat
          [800%float; 1000%float] "avalanche" pair64).1.1
  /\ (Calculator.compare_budgets default_epsilon_binary64 [0; 1]%nat
        [800%float; 1000%float] "avalanche" pair64).2
     <> None.
Proof.
  assert (Hal : allocated pair64 [0; 1]%nat).
  { repeat first [apply Forall_nil_2 | apply Forall_cons_2; [vm_compute; lia|]]. }
  exact (compare_budgets_runs_are_independent (F := float)
           default_epsilon_binary64 [0; 1]%nat [800%float; 1000%float]
           "avalanche" pair64 Hal).
Defined.

(** ** Cards of the same name *)

Section SameName.
Context {F : Type} `{Number F}.
Implicit Types (h : heap F) (l : loc) (ls cards : list loc).

Lemma name_to_card_fold_other ls h (d : gmap string loc) k :
  Forall (fun l => name (load h l) <> k) ls ->
  foldl (fun d l => <[name (load h l) := l]> d) d ls !! k = d !! k.
Proof.
  intros Hls. revert d. induction Hls as [|l ls Hl Hls IH]; intros d;
    cbn [foldl]; [reflexivity|].
  rewrite IH. now apply lookup_insert_ne.
Qed.

Lemma name_to_card_last pre l post h k :
  name (load h l) = k ->
  Forall (fun l => name (load h l) <> k) post ->
  Calculator.name_to_card (pre ++ l :: post) h !! k = Some l.
Proof.
  intros Hl Hpost. unfold Calculator.name_to_card.
  rewrite foldl_app. cbn [foldl].
  rewrite name_to_card_fold_other by exact Hpost.
  rewrite Hl. apply lookup_insert_eq.
Qed.

End SameName.

(** X11: cards of the same name.  A one-time payment to a name goes to the
    first card of the list with that name; the dict of names that the
    manual simulation builds keeps the last card of each name, so a monthly
    payment to the name goes to the last one (when it owes more than
    [epsilon] and the payment is positive), and the cards before it with the
    same name are never paid. *)
Theorem same_name_first_card_or_last {F} `{Number F}
    (h : heap F) (pre mid post : list loc) (l1 l2 : loc) (k : string)
    (amt epsilon : F) :
  Forall (fun l => name (load h l) <> k) pre ->
  name (load h l1) = k ->
  name (load h l2) = k ->
  Forall (fun l => name (load h l) <> k) post ->
  num_ltb amt num_zero = false ->
  Calculator.apply_one_time_payment (pre ++ l1 :: mid ++ l2 :: post) k amt h
  = (store_balance h l1
       (py_max num_zero (num_sub (balance (load h l1)) amt)), Normal tt)
  /\ Calculator.name_to_card (pre ++ l1 :: mid ++ l2 :: post) h !! k
     = Some l2
  /\ Calculator.apply_payments_manual [(k, amt)]
       (Calculator.name_to_card (pre ++ l1 :: mid ++ l2 :: post) h) epsilon h
     = (if num_ltb epsilon (balance (load h l2)) && num_ltb num_zero amt
        then store_balance h l2
               (num_sub (balance (load h l2))
                  (py_min (balance (load h l2)) amt))
        else h, Normal tt).
Proof.
  intros Hpre Hl1 Hl2 Hpost Hamt.
  assert (Elast :
    Calculator.name_to_card (pre ++ l1 :: mid ++ l2 :: post) h !! k
    = Some l2).
  { change (pre ++ l1 :: mid ++ l2 :: post)
      with (pre ++ (l1 :: mid) ++ l2 :: post).
    rewrite app_assoc. now apply name_to_card_last. }
  split; [|split; [exact Elast|]].
  - unfold Calculator.apply_one_time_payment. rewrite Hamt.
    now rewrite (pay_first_match_first pre l1 (mid ++ l2 :: post) k amt h
                   Hpre Hl1).
  - cbn [Calculator.apply_payments_manual]. rewrite Elast.
    destruct (num_ltb epsilon (balance (load h l2)) && num_ltb num_zero amt);
      reflexivity.
Qed.

Lemma same_name_first_card_or_last_witness :
  Calculator.apply_one_time_payment ([] ++ 0%nat :: [] ++ 1%nat :: [])
    "A" 30%float twins64
  = (store_balance twins64 0%nat
       (py_max num_zero (num_sub (balance (load twins64 0%nat)) 30%float)),
     Normal tt)
  /\ Calculator.name_to_card ([] ++ 0%nat :: [] ++ 1%nat :: []) twins64
       !! "A"%string
     = Some 1%nat
  /\ Calculator.apply_payments_manual [("A"%string, 30%float)]
       (Calculator.name_to_card ([] ++ 0%nat :: [] ++ 1%nat :: []) twins64)
       default_epsilon_binary64 twins64
     = (if num_ltb default_epsilon_binary64 (balance (load twins64 1%nat))
           && num_ltb num_zero 30%float
        then store_balance twins64 1%nat
               (num_sub (balance (load twins64 1%nat))
                  (py_min (balance (load twins64 1%nat)) 30%float))
        else twins64, Normal tt).
Proof.
  exact (same_name_first_card_or_last (F := float) twins64 [] [] []
           0%nat 1%nat "A" 30%float default_epsilon_binary64
           (Forall_nil_2 _) eq_refl eq_refl (Forall_nil_2 _) eq_refl).
Defined.

(** ** The payoff order of any number of cards *)

Section InsertionSort.
Context {A : Type} (lt : A -> A -> bool).
Hypothesis lt_asym : forall a b, lt a b = true -> lt b a = false.
Hypothesis not_lt_trans :
  forall a b c, lt b a = false -> lt c b = false -> lt c a = false.

Lemma insert_sorted_sorted x l :
  StronglySorted (fun a b => lt b a = false) l ->
  StronglySorted (fun a b => lt b a = false) (insert_sorted lt x l).
Proof using lt_asym not_lt_trans.
  induction 1 as [|y l Hs IH Hy]; cbn [insert_sorted].
  - repeat constructor.
  - destruct (lt y x) eqn:Eyx.
    + constructor; [exact IH|]. rewrite insert_sorted_perm.
      constructor; [now apply lt_asym|exact Hy].
    + constructor; [now constructor|]. constructor; [exact Eyx|].
      eapply Forall_impl; [exact Hy|]. intros z Hz. cbn beta in *.
      now apply (not_lt_trans x y z).
Qed.

Lemma stable_sort_sorted l :
  StronglySorted (fun a b => lt b a = false) (stable_sort lt l).
Proof using lt_asym not_lt_trans.
  induction l as [|x l IH]; cbn [stable_sort]; [constructor|].
  now apply insert_sorted_sorted.
Qed.

(** Stability: an element passes only elements that are strictly before
    it, so the elements of a class [P] that no strict comparison relates
    keep their order. *)
Lemma insert_sorted_filter (P : A -> Prop) `{!forall a, Decision (P a)} x l :
  (forall y, y ∈ l -> P x -> P y -> lt y x = false) ->
  filter P (insert_sorted lt x l) = filter P (x :: l).
Proof.
  induction l as [|y l IH]; intros Hclass; [reflexivity|].
  cbn [insert_sorted]. destruct (lt y x) eqn:Eyx; [|reflexivity].
  rewrite filter_cons, IH, !filter_cons
    by (intros z Hz; apply Hclass, elem_of_cons; now right).
  destruct (decide (P y)) as [Py|_]; [|reflexivity].
  destruct (decide (P x)) as [Px|_]; [|reflexivity].
  rewrite (Hclass y (proj2 (elem_of_cons _ _ _) (or_introl eq_refl)) Px Py)
    in Eyx.
  discriminate.
Qed.

Lemma stable_sort_filter (P : A -> Prop) `{!forall a, Decision (P a)} l :
  (forall x y, x ∈ l -> y ∈ l -> P x -> P y -> lt y x = false) ->
  filter P (stable_sort lt l) = filter P l.
Proof.
  induction l as [|x l IH]; intros Hclass; [reflexivity|].
  cbn [stable_sort]. rewrite insert_sorted_filter.
  - rewrite !filter_cons, IH; [reflexivity|].
    intros a b Ha Hb. apply Hclass; apply elem_of_cons; now right.
  - intros y Hy. rewrite stable_sort_perm in Hy.
    apply Hclass; apply elem_of_cons; [now left|now right].
Qed.

End InsertionSort.

Section PayoffOrder.
Local Open Scope Q_scope.
Implicit Types (h : heap Q) (l : loc) (cards : list loc).

Lemma key_lt_exact (k1 k2 : Q * Q) :
  key_lt k1 k2 = true
  <-> k1.1 < k2.1 \/ (k1.1 == k2.1 /\ k1.2 < k2.2).
Proof.
  unfold key_lt.
  destruct (num_eqb k1.1 k2.1) eqn:E1; cbn [negb].
  - apply Qeq_bool_iff in E1.
    destruct (num_eqb k1.2 k2.2) eqn:E2; cbn [negb].
    + apply Qeq_bool_iff in E2.
      split; [discriminate|intros [Hlt|[_ Hlt]]; lra].
    + rewrite exact_ltb. split; [now right|intros [Hlt|[_ Hlt]]; lra].
  - apply exact_eqb_false in E1. rewrite exact_ltb.
    split; [now left|intros [Hlt|[Heq _]]; [exact Hlt|contradiction]].
Qed.

Lemma key_lt_exact_false (k1 k2 : Q * Q) :
  key_lt k1 k2 = false
  <-> k2.1 < k1.1 \/ (k2.1 == k1.1 /\ k2.2 <= k1.2).
Proof.
  rewrite <- not_true_iff_false, key_lt_exact. split.
  - intros Hn. destruct (Qlt_le_dec k2.1 k1.1) as [Hlt|Hle]; [now left|].
    right. destruct (Qlt_le_dec k1.1 k2.1) as [Hlt|Hge];
      [destruct Hn; now left|].
    assert (E : k2.1 == k1.1) by lra. split; [exact E|].
    destruct (Qlt_le_dec k1.2 k2.2) as [Hlt|Hge2]; [|exact Hge2].
    destruct Hn. right. split; [lra|exact Hlt].
  - intros [Hlt|[E Hle]] [Hlt'|[E' Hlt']]; lra.
Qed.

Lemma sort_by_key_sorted key h ls :
  StronglySorted
    (fun l1 l2 => key_lt (key (load h l2)) (key (load h l1)) = false)
    (sort_by_key key h ls).
Proof.
  unfold sort_by_key.
  set (pairs := (fun l => (key (load h l), l)) <$> ls).
  assert (Hkeys : Forall (fun p : Q * Q * loc => p.1 = key (load h p.2))
                    (stable_sort (fun a b => key_lt a.1 b.1) pairs)).
  { rewrite stable_sort_perm. subst pairs. apply Forall_fmap.
    apply Forall_forall. reflexivity. }
  assert (Hsorted :
    StronglySorted (fun a b : Q * Q * loc => key_lt b.1 a.1 = false)
      (stable_sort (fun a b => key_lt a.1 b.1) pairs)).
  { apply stable_sort_sorted.
    - intros a b Hab. apply key_lt_exact in Hab. apply key_lt_exact_false.
      destruct Hab as [Hlt|[E Hlt]]; [now left|right; split; lra].
    - intros a b c Hba Hcb.
      apply key_lt_exact_false in Hba, Hcb. apply key_lt_exact_false.
      destruct Hba as [Hba|[Eba Hba]], Hcb as [Hcb|[Ecb Hcb]];
        [left; lra|left; lra|left; lra|right; split; lra]. }
  induction Hsorted as [|p ps Hs IH Hp]; [constructor|].
  apply Forall_cons in Hkeys as [Ep Hkeys].
  rewrite fmap_cons. constructor; [exact (IH Hkeys)|].
  apply Forall_fmap. apply Forall_forall. intros q Hq. cbn.
  rewrite <- Ep, <- (proj1 (Forall_forall _ _) Hkeys q Hq).
  exact (proj1 (Forall_forall _ _) Hp q Hq).
Qed.

Lemma sort_by_key_stable key (P : Card Q -> bool) h ls :
  (forall c1 c2, P c1 = true -> P c2 = true ->
     key_lt (key c2) (key c1) = false) ->
  filter (fun l => P (load h l) = true) (sort_by_key key h ls)
  = filter (fun l => P (load h l) = true) ls.
Proof.
  intros Hclass. unfold sort_by_key.
  set (pairs := (fun l => (key (load h l), l)) <$> ls).
  set (lt := fun a b : Q * Q * loc => key_lt a.1 b.1).
  set (PP := fun p : Q * Q * loc => P (load h p.2) = true).
  assert (Hall : forall ps : list (Q * Q * loc),
    filter (fun l => P (load h l) = true) ps.*2 = (filter PP ps).*2).
  { induction ps as [|p ps IH]; [reflexivity|].
    rewrite fmap_cons, !filter_cons, IH. subst PP. cbn beta.
    destruct (decide (P (load h p.2) = true)); reflexivity. }
  rewrite Hall, (stable_sort_filter lt PP).
  - rewrite <- Hall. subst pairs.
    rewrite <- list_fmap_compose. now rewrite list_fmap_id.
  - intros x y Hx Hy Px Py. subst lt pairs PP. cbn beta in *.
    apply list_elem_of_fmap in Hx as (lx & -> & _).
    apply list_elem_of_fmap in Hy as (ly & -> & _).
    cbn [fst snd] in *. now apply Hclass.
Qed.

End PayoffOrder.

Section PayoffOrderCards.
Local Open Scope Q_scope.
Implicit Types (h : heap Q) (l : loc) (cards : list loc).

Lemma StronglySorted_weaken {A} (R1 R2 : A -> A -> Prop) (l : list A) :
  (forall a b, R1 a b -> R2 a b) ->
  StronglySorted R1 l -> StronglySorted R2 l.
Proof.
  intros Himp. induction 1 as [|x l Hs IH Hx]; constructor; [exact IH|].
  eapply Forall_impl; [exact Hx|]. intros b. apply Himp.
Qed.

Lemma avalanche_key_before (c1 c2 : Card Q) :
  key_lt (avalanche_key c2) (avalanche_key c1) = false ->
  avalanche_before c1 c2.
Proof.
  intros E. apply key_lt_exact_false in E. unfold avalanche_before.
  unfold avalanche_key in E. cbn [fst snd] in E.
  change (num_neg (apr c1)) with (- apr c1) in E.
  change (num_neg (apr c2)) with (- apr c2) in E.
  destruct E as [Hlt|[Heq Hle]]; [left; lra|right; split; [lra|exact Hle]].
Qed.

Lemma snowball_key_before (c1 c2 : Card Q) :
  key_lt (snowball_key c2) (snowball_key c1) = false ->
  snowball_before c1 c2.
Proof.
  intros E. apply key_lt_exact_false in E. unfold snowball_before.
  unfold snowball_key in E. cbn [fst snd] in E.
  change (num_neg (apr c1)) with (- apr c1) in E.
  change (num_neg (apr c2)) with (- apr c2) in E.
  destruct E as [Hlt|[Heq Hle]]; [left; exact Hlt|right; split; [exact Heq|lra]].
Qed.

Lemma tied_keys (key : Card Q -> Q * Q) (c c1 c2 : Card Q) :
  (forall a b : Card Q,
     apr a == apr b -> balance a == balance b ->
     (key a).1 == (key b).1 /\ (key a).2 == (key b).2) ->
  Qeq_bool (apr c1) (apr c) && Qeq_bool (balance c1) (balance c) = true ->
  Qeq_bool (apr c2) (apr c) && Qeq_bool (balance c2) (balance c) = true ->
  key_lt (key c2) (key c1) = false.
Proof.
  intros Hkey H1 H2.
  apply andb_true_iff in H1 as [A1 B1]. apply andb_true_iff in H2 as [A2 B2].
  apply Qeq_bool_iff in A1, B1, A2, B2.
  destruct (Hkey c1 c2) as [K1 K2]; [lra|lra|].
  apply key_lt_exact_false. right. split; lra.
Qed.

Lemma sort_by_key_tied key (c : Card Q) h ls :
  (forall a b : Card Q,
     apr a == apr b -> balance a == balance b ->
     (key a).1 == (key b).1 /\ (key a).2 == (key b).2) ->
  filter (fun l => tied c h l = true) (sort_by_key key h ls)
  = filter (fun l => tied c h l = true) ls.
Proof.
  intros Hkey.
  apply (sort_by_key_stable key
           (fun c' => Qeq_bool (apr c') (apr c)
                      && Qeq_bool (balance c') (balance c))).
  intros c1 c2. apply tied_keys, Hkey.
Qed.

End PayoffOrderCards.

(** X12: the payoff order of any number of cards, in exact arithmetic.
    Avalanche walks the active cards by APR from the highest down and, for
    equal APR, by balance from the lowest up; snowball walks them by balance
    from the lowest up and, for equal balance, by APR from the highest down.
    Both orders hold the cards of the active list, each as often as the list
    does, and cards with equal APR and equal balance keep the order they
    have in the list.  Proportional leaves the list as it is. *)
Theorem payoff_order_is_sorted_and_stable (h : heap Q) (active : list loc) :
  (exists o,
      Calculator.payoff_order "avalanche" active h = Normal o
      /\ o ≡ₚ active
      /\ StronglySorted
           (fun l1 l2 => avalanche_before (load h l1) (load h l2)) o
      /\ forall c, filter (fun l => tied c h l = true) o
                   = filter (fun l => tied c h l = true) active)
  /\ (exists o,
         Calculator.payoff_order "snowball" active h = Normal o
         /\ o ≡ₚ active
         /\ StronglySorted
              (fun l1 l2 => snowball_before (load h l1) (load h l2)) o
         /\ forall c, filter (fun l => tied c h l = true) o
                      = filter (fun l => tied c h l = true) active)
  /\ Calculator.payoff_order "proportional" active h = Normal active.
Proof.
  split; [|split; [|reflexivity]].
  - exists (sort_by_key avalanche_key h active).
    split; [reflexivity|]. split; [apply sort_by_key_perm|]. split.
    + eapply StronglySorted_weaken; [|apply sort_by_key_sorted].
      intros a b. apply avalanche_key_before.
    + intros c. apply sort_by_key_tied. intros a b Ha Hb.
      unfold avalanche_key. cbn [fst snd].
      change (num_neg (apr a)) with (- apr a)%Q.
      change (num_neg (apr b)) with (- apr b)%Q.
      split; [lra|exact Hb].
  - exists (sort_by_key snowball_key h active).
    split; [reflexivity|]. split; [apply sort_by_key_perm|]. split.
    + eapply StronglySorted_weaken; [|apply sort_by_key_sorted].
      intros a b. apply snowball_key_before.
    + intros c. apply sort_by_key_tied. intros a b Ha Hb.
      unfold snowball_key. cbn [fst snd].
      change (num_neg (apr a)) with (- apr a)%Q.
      change (num_neg (apr b)) with (- apr b)%Q.
      split; [exact Hb|lra].
Qed.

(** ** The greedy walk *)

Section GreedyWalk.
Local Open Scope Q_scope.
Implicit Types (h : heap Q) (l : loc) (ls cards : list loc).

Lemma pay_in_order_step l ls epsilon (r : Q) h :
  epsilon < r ->
  (pay_in_order (l :: ls) epsilon r h).1
  = (pay_in_order ls epsilon (r - py_min (balance (load h l)) r)
       (store_balance h l
          (balance (load h l) - py_min (balance (load h l)) r))).1.
Proof.
  intros Hr. cbn [pay_in_order].
  rewrite (proj2 (exact_leb_false r epsilon) Hr).
  change (num_sub r (py_min (balance (load h l)) r))
    with (r - py_min (balance (load h l)) r).
  change (num_sub (balance (load h l)) (py_min (balance (load h l)) r))
    with (balance (load h l) - py_min (balance (load h l)) r).
  now destruct (pay_in_order ls epsilon _ _) as [[h2 r2] tr].
Qed.

(** The walk over distinct cards that owe nothing negative: no balance
    rises or falls below zero, what leaves the budget arrives on the cards,
    and no card is paid while a card before it still owes. *)
Lemma pay_in_order_greedy ls epsilon (r : Q) h :
  0 <= epsilon -> NoDup ls -> allocated h ls ->
  (forall x, x ∈ ls -> 0 <= balance (load h x)) -> 0 <= r ->
  (forall x, x ∈ ls ->
     0 <= balance (load (pay_in_order ls epsilon r h).1.1 x)
     /\ balance (load (pay_in_order ls epsilon r h).1.1 x)
        <= balance (load h x))
  /\ py_sum ((fun l => balance (load (pay_in_order ls epsilon r h).1.1 l))
              <$> ls)
     == py_sum ((fun l => balance (load h l)) <$> ls)
        - (r - (pay_in_order ls epsilon r h).1.2)
  /\ (0 <= (pay_in_order ls epsilon r h).1.2
      /\ (pay_in_order ls epsilon r h).1.2 <= r)
  /\ (forall pre x post, ls = pre ++ x :: post ->
        balance (load (pay_in_order ls epsilon r h).1.1 x)
        < balance (load h x) ->
        forall y, y ∈ pre ->
          balance (load (pay_in_order ls epsilon r h).1.1 y) == 0).
Proof.
  intros Heps Hnd. revert r h.
  induction Hnd as [|l ls Hl Hnd IH]; intros r h Hal Hpos Hr.
  - cbn [pay_in_order fst snd]. split.
    { intros x Hx. now apply elem_of_nil in Hx. }
    split; [cbn; lra|]. split; [lra|].
    intros [|y pre] x post E; discriminate.
  - destruct (Qlt_le_dec epsilon r) as [Hgt|Hle].
    2:{ rewrite pay_in_order_stops by exact Hle. cbn [fst snd]. split.
        { intros x Hx. specialize (Hpos x Hx). lra. }
        split; [lra|]. split; [lra|]. intros pre x post _ Hlt. lra. }
    rewrite pay_in_order_step by exact Hgt.
    apply Forall_cons in Hal as [Hlt Hal].
    set (b := balance (load h l)) in *.
    assert (Hb : 0 <= b) by (apply Hpos, elem_of_cons; now left).
    set (pay := py_min b r) in *.
    assert (Hpay : (r < b /\ pay = r) \/ (b <= r /\ pay = b))
      by apply py_min_cases.
    set (h1 := store_balance h l (b - pay)) in *.
    assert (Hother : forall x, x ∈ ls -> load h1 x = load h x).
    { intros x Hx. apply load_store_balance_ne. intros ->. contradiction. }
    assert (Hself : balance (load h1 l) = b - pay).
    { subst h1. now rewrite load_store_balance_eq by exact Hlt. }
    destruct (IH (r - pay) h1) as (I1 & I2 & I3 & I4).
    { unfold allocated in *. eapply Forall_impl; [exact Hal|].
      intros x Hx. cbn beta in *. subst h1.
      now rewrite length_store_balance. }
    { intros x Hx. rewrite (Hother x Hx). apply Hpos, elem_of_cons.
      now right. }
    { destruct Hpay as [[? E]|[? E]]; rewrite E; lra. }
    pose proof (pay_in_order_frame ls epsilon (r - pay) h1 l Hl) as Hframe.
    set (out := pay_in_order ls epsilon (r - pay) h1) in *.
    split; [|split; [|split]].
    + intros x Hx. apply elem_of_cons in Hx as [->|Hx].
      * rewrite Hframe, Hself. fold b.
        destruct Hpay as [[? E]|[? E]]; rewrite E; lra.
      * destruct (I1 x Hx) as [J1 J2]. rewrite (Hother x Hx) in J2.
        split; [exact J1|exact J2].
    + rewrite !fmap_cons, !py_sum_cons, Hframe, Hself, I2. fold b.
      assert (Esum : py_sum ((fun l0 => balance (load h1 l0)) <$> ls)
                     == py_sum ((fun l0 => balance (load h l0)) <$> ls)).
      { apply py_sum_eq, Forall_forall. intros x Hx.
        now rewrite (Hother x Hx). }
      rewrite Esum. lra.
    + destruct Hpay as [[? E]|[? E]]; rewrite E in I3; lra.
    + intros [|y pre] x post E Hred y0 Hy0;
        [now apply elem_of_nil in Hy0|].
      injection E as <- Els.
      assert (Hx : x ∈ ls).
      { rewrite Els. apply elem_of_app. right. apply elem_of_cons.
        now left. }
      rewrite <- (Hother x Hx) in Hred.
      apply elem_of_cons in Hy0 as [->|Hy0].
      * rewrite Hframe, Hself.
        destruct Hpay as [[Hrb E]|[Hbr E]]; [|rewrite E; lra].
        exfalso. subst out.
        rewrite pay_in_order_stops in Hred by (rewrite E; lra).
        cbn [fst] in Hred. lra.
      * exact (I4 pre x post Els Hred y0 Hy0).
Qed.

End GreedyWalk.

(** X13: the payment walk of avalanche and snowball, in exact arithmetic,
    over distinct cards that owe nothing negative, with a budget and a
    tolerance that are not negative.  No balance rises and none falls below
    zero; the budget that is left lies between zero and the budget; the sum
    of the balances falls by exactly what left the budget; and money reaches
    a card only when every card before it in the order is paid off. *)
Theorem greedy_walk_pays_in_order
    (h : heap Q) (order : list loc) (epsilon r : Q) :
  (0 <= epsilon)%Q -> NoDup order -> allocated h order ->
  (forall x, x ∈ order -> (0 <= balance (load h x))%Q) -> (0 <= r)%Q ->
  (forall x, x ∈ order ->
     (0 <= balance (load (pay_in_order order epsilon r h).1.1 x))%Q
     /\ (balance (load (pay_in_order order epsilon r h).1.1 x)
         <= balance (load h x))%Q)
  /\ (total_balance order (pay_in_order order epsilon r h).1.1
      == total_balance order h - (r - (pay_in_order order epsilon r h).1.2))%Q
  /\ ((0 <= (pay_in_order order epsilon r h).1.2)%Q
      /\ ((pay_in_order order epsilon r h).1.2 <= r)%Q)
  /\ (forall pre x post, order = pre ++ x :: post ->
        (balance (load (pay_in_order order epsilon r h).1.1 x)
         < balance (load h x))%Q ->
        forall y, y ∈ pre ->
          (balance (load (pay_in_order order epsilon r h).1.1 y) == 0)%Q).
Proof.
  intros Heps Hnd Hal Hpos Hr.
  destruct (pay_in_order_greedy order epsilon r h Heps Hnd Hal Hpos Hr)
    as (Hbounds & Hsum & Hleft & Hpriority).
  split; [exact Hbounds|]. split; [exact Hsum|].
  split; [exact Hleft|exact Hpriority].
Qed.

(** A (1000) before B (500) with 1200: A is paid off, B gets the rest. *)
Lemma greedy_walk_pays_in_order_witness :
  (forall x, x ∈ [0; 1]%nat ->
     (0 <= balance (load (pay_in_order [0; 1]%nat default_epsilon_exact
                            1200 pairQ).1.1 x))%Q
     /\ (balance (load (pay_in_order [0; 1]%nat default_epsilon_exact 1200
                          pairQ).1.1 x)
         <= balance (load pairQ x))%Q)
  /\ (total_balance [0; 1]%nat
        (pay_in_order [0; 1]%nat default_epsilon_exact 1200 pairQ).1.1
      == total_balance [0; 1]%nat pairQ
         - (1200 - (pay_in_order [0; 1]%nat default_epsilon_exact 1200
                      pairQ).1.2))%Q
  /\ ((0 <= (pay_in_order [0; 1]%nat default_epsilon_exact 1200 pairQ).1.2)%Q
      /\ ((pay_in_order [0; 1]%nat default_epsilon_exact 1200 pairQ).1.2
          <= 1200)%Q)
  /\ (forall pre x post, [0; 1]%nat = pre ++ x :: post ->
        (balance (load (pay_in_order [0; 1]%nat default_epsilon_exact 1200
                          pairQ).1.1 x)
         < balance (load pairQ x))%Q ->
        forall y, y ∈ pre ->
          (balance (load (pay_in_order [0; 1]%nat default_epsilon_exact 1200
                            pairQ).1.1 y) == 0)%Q).
Proof.
  assert (Hnd : NoDup [0; 1]%nat).
  { apply (bool_decide_unpack (NoDup [0; 1]%nat)). vm_compute. exact I. }
  assert (Hal : allocated pairQ [0; 1]%nat).
  { repeat first [apply Forall_nil_2 | apply Forall_cons_2; [vm_compute; lia|]]. }
  assert (Hpos : forall x, x ∈ [0; 1]%nat -> (0 <= balance (load pairQ x))%Q).
  { intros x Hx. apply elem_of_cons in Hx as [->|Hx].
    - vm_compute. discriminate.
    - apply list_elem_of_singleton in Hx as ->. vm_compute. discriminate. }
  exact (greedy_walk_pays_in_order pairQ [0; 1]%nat default_epsilon_exact
           1200%Q ltac:(vm_compute; discriminate) Hnd Hal Hpos
           ltac:(vm_compute; discriminate)).
Defined.

(** ** A budget that covers the debt *)

Section FreshCopies.
Context {F : Type} `{Number F}.
Implicit Types (h : heap F) (l : loc) (ls cards : list loc).

(** The copies of distinct cards are new objects, one after the other. *)
Lemma deepcopy_cards_fresh (memo : gmap loc loc) cards h :
  NoDup cards -> (forall l, l ∈ cards -> memo !! l = None) ->
  (deepcopy_cards memo cards h).2 = seq (length h) (length cards)
  /\ length (deepcopy_cards memo cards h).1 = (length h + length cards)%nat.
Proof.
  intros Hnd. revert memo h. induction Hnd as [|l cards Hl Hnd IH];
    intros memo h Hmemo; cbn [deepcopy_cards].
  - cbn. split; [reflexivity|lia].
  - rewrite (Hmemo l) by (apply elem_of_cons; now left).
    match goal with
    | |- context [deepcopy_cards ?m cards ?h'] =>
        destruct (IH m h') as [E1 E2];
        [|destruct (deepcopy_cards m cards h') as [h1 ls1]]
    end.
    + intros x Hx. rewrite lookup_insert_ne; [|intros ->; contradiction].
      apply Hmemo, elem_of_cons. now right.
    + cbn [fst snd] in *. rewrite length_app in E1, E2. cbn [length] in *.
      rewrite Nat.add_1_r in E1. split; [now rewrite E1|lia].
Qed.

Lemma deepcopy_distinct cards h :
  NoDup cards ->
  NoDup (deepcopy cards h).2
  /\ allocated (deepcopy cards h).1 (deepcopy cards h).2.
Proof.
  intros Hnd. unfold deepcopy.
  destruct (deepcopy_cards_fresh ∅ cards h Hnd) as [E1 E2].
  { intros l _. apply lookup_empty. }
  rewrite E1. split; [apply NoDup_seq|].
  apply Forall_forall. intros x Hx. apply elem_of_seq in Hx. lia.
Qed.

Lemma length_accrue_interest ls epsilon acc h :
  length (accrue_interest ls epsilon acc h).1 = length h.
Proof.
  revert acc h. induction ls as [|l ls IH]; intros acc h;
    cbn [accrue_interest]; [reflexivity|].
  destruct (num_ltb epsilon (balance (load h l))); [|apply IH].
  rewrite IH. apply length_store_balance.
Qed.

Lemma active_cards_all ls epsilon h :
  Forall (fun l => num_ltb epsilon (balance (load h l)) = true) ls ->
  active_cards ls epsilon h = ls.
Proof.
  unfold active_cards. induction 1 as [|l ls Hl Hls IH]; [reflexivity|].
  rewrite filter_cons, IH. now destruct (decide _).
Qed.

End FreshCopies.

Section OneMonth.
Local Open Scope Q_scope.
Implicit Types (h : heap Q) (l : loc) (ls cards : list loc).

Lemma py_sum_perm (xs ys : list Q) : xs ≡ₚ ys -> py_sum xs == py_sum ys.
Proof.
  induction 1 as [|x xs ys Hp IH|x y xs|xs ys zs H1 IH1 H2 IH2].
  - reflexivity.
  - rewrite !py_sum_cons. lra.
  - rewrite !py_sum_cons. lra.
  - lra.
Qed.

Lemma total_balance_perm ls ls' h :
  ls ≡ₚ ls' -> total_balance ls h == total_balance ls' h.
Proof.
  intros Hp. unfold total_balance. apply py_sum_perm.
  now apply fmap_Permutation.
Qed.

Lemma py_sum_nonneg {A} (f : A -> Q) (ls : list A) :
  Forall (fun x => 0 <= f x) ls -> 0 <= py_sum (f <$> ls).
Proof.
  induction 1 as [|x ls Hx Hls IH]; [cbn; lra|].
  rewrite fmap_cons, py_sum_cons. lra.
Qed.

Lemma py_sum_zero {A} (f : A -> Q) (ls : list A) :
  Forall (fun x => f x == 0) ls -> py_sum (f <$> ls) == 0.
Proof.
  induction 1 as [|x ls Hx Hls IH]; [reflexivity|].
  rewrite fmap_cons, py_sum_cons. lra.
Qed.

Lemma py_sum_above {A} (f : A -> Q) (ls : list A) (c : Q) :
  ls <> [] -> 0 <= c -> Forall (fun x => c < f x) ls ->
  c < py_sum (f <$> ls).
Proof.
  intros Hne Hc Hall. destruct Hall as [|x ls Hx Hls]; [contradiction|].
  rewrite fmap_cons, py_sum_cons.
  assert (0 <= py_sum (f <$> ls)); [|lra].
  apply py_sum_nonneg. eapply Forall_impl; [exact Hls|].
  intros y Hy. cbn beta in Hy. lra.
Qed.

(** The interest of a month: what the accrual adds to the balances. *)
Lemma accrue_interest_sum ls epsilon (acc : Q) h :
  NoDup ls -> allocated h ls ->
  (accrue_interest ls epsilon acc h).2
  == acc + py_sum ((fun l => balance (accrued epsilon (load h l))
                             - balance (load h l)) <$> ls).
Proof.
  intros Hnd. revert acc h. induction Hnd as [|l ls Hl Hnd IH];
    intros acc h Hal; cbn [accrue_interest].
  - cbn. lra.
  - apply Forall_cons in Hal as [Hlt Hal].
    rewrite fmap_cons, py_sum_cons. unfold accrued at 1.
    destruct (num_ltb epsilon (balance (load h l))) eqn:El.
    + rewrite IH.
      2:{ unfold allocated in *. eapply Forall_impl; [exact Hal|].
          intros x Hx. cbn beta in *. now rewrite length_store_balance. }
      match goal with
      | |- context [store_balance h l ?v] => set (h1 := store_balance h l v)
      end.
      assert (Esum :
        py_sum ((fun l0 => balance (accrued epsilon (load h1 l0))
                           - balance (load h1 l0)) <$> ls)
        == py_sum ((fun l0 => balance (accrued epsilon (load h l0))
                              - balance (load h l0)) <$> ls)).
      { apply py_sum_eq, Forall_forall. intros x Hx.
        assert (E : load h1 x = load h x).
        { apply load_store_balance_ne. intros ->. contradiction. }
        now rewrite E. }
      rewrite Esum. cbn [balance].
      change (acc + balance (load h l) * monthly_rate (apr (load h l))
              + py_sum ((fun l0 => balance (accrued epsilon (load h l0))
                                   - balance (load h l0)) <$> ls)
              == acc + (balance (load h l)
                        + balance (load h l) * monthly_rate (apr (load h l))
                        - balance (load h l)
                        + py_sum ((fun l0 =>
                                     balance (accrued epsilon (load h l0))
                                     - balance (load h l0)) <$> ls))).
      lra.
    + rewrite IH by exact Hal. lra.
Qed.

End OneMonth.

Section OneMonthCycle.
Local Open Scope Q_scope.
Implicit Types (h : heap Q) (l : loc) (ls cards : list loc).

(** A share of a budget that covers the total covers the balance. *)
Lemma proportional_pay_all (b total : Q) (c : Card Q) :
  0 < total -> total <= b -> 0 <= balance c ->
  proportional_pay b total c = balance c.
Proof.
  intros Ht Hb Hc. unfold proportional_pay, proportional_share, py_min.
  replace (num_ltb (num_mul b (num_quot (balance c) total)) (balance c))
    with false; [reflexivity|].
  symmetry. apply exact_ltb_false.
  change (balance c <= b * (balance c / total)).
  assert (Eq : balance c / total * total == balance c) by (field; lra).
  assert (Hq : 0 <= balance c / total).
  { apply Qle_shift_div_l; [exact Ht|lra]. }
  nra.
Qed.

(** The walk of a greedy strategy with a budget that covers the balances
    leaves at most the tolerance. *)
Lemma pay_in_order_covers ls epsilon (b : Q) h :
  0 <= epsilon -> NoDup ls -> allocated h ls ->
  (forall x, x ∈ ls -> 0 <= balance (load h x)) ->
  total_balance ls h <= b ->
  total_balance ls (pay_in_order ls epsilon b h).1.1 <= epsilon.
Proof.
  intros Heps Hnd Hal Hpos Hb.
  assert (H0 : 0 <= b).
  { pose proof (py_sum_nonneg (fun l => balance (load h l)) ls) as Hs.
    unfold total_balance in Hb.
    assert (0 <= py_sum ((fun l => balance (load h l)) <$> ls)); [|lra].
    apply Hs, Forall_forall. exact Hpos. }
  destruct (pay_in_order_greedy ls epsilon b h Heps Hnd Hal Hpos H0)
    as (_ & Hsum & [Hr0 Hr] & _).
  destruct (Qlt_le_dec epsilon (pay_in_order ls epsilon b h).1.2)
    as [Hleft|Hleft].
  - unfold total_balance. rewrite py_sum_zero; [exact Heps|].
    apply Forall_forall. intros x Hx.
    now apply pay_in_order_leftover.
  - unfold total_balance in *. lra.
Qed.

(** The first month with a budget that covers every balance and its
    interest, all cards being above the tolerance. *)
Lemma month_cycle_covers cards (b : Q) strategy epsilon m (tip : Q) hist h :
  known_strategy strategy = true ->
  0 <= epsilon -> NoDup cards -> allocated h cards -> cards <> [] ->
  (forall l, l ∈ cards ->
     epsilon < balance (load h l) /\ 0 <= apr (load h l)) ->
  py_sum ((fun l => balance (accrued epsilon (load h l))) <$> cards) <= b ->
  exists h2 tip' s,
    Calculator.month_cycle cards b strategy epsilon m tip hist h
    = (h2, Calculator.Continue tip' (hist ++ [s]))
    /\ tip' == tip + py_sum ((fun l => balance (load h l)
                                       * monthly_rate (apr (load h l)))
                              <$> cards)
    /\ total_balance cards h2 <= epsilon.
Proof.
  intros Hs Heps Hnd Hal Hne Hcards Hb. unfold Calculator.month_cycle.
  destruct (accrue_interest_walk cards epsilon num_zero h Hnd Hal)
    as [W1 _].
  pose proof (accrue_interest_sum cards epsilon num_zero h Hnd Hal) as Hint.
  pose proof (length_accrue_interest cards epsilon num_zero h) as Hlen.
  destruct (accrue_interest cards epsilon num_zero h) as [h1 mi].
  cbn [fst snd] in W1, Hint, Hlen.
  assert (Hacc : forall l, l ∈ cards ->
            balance (load h1 l)
            = balance (load h l)
              + balance (load h l) * monthly_rate (apr (load h l))).
  { intros l Hl. rewrite (W1 l Hl). unfold accrued.
    destruct (Hcards l Hl) as [Hgt _].
    now rewrite (proj2 (exact_ltb _ _) Hgt). }
  assert (Hrate : forall l, l ∈ cards ->
            0 <= balance (load h l) * monthly_rate (apr (load h l))).
  { intros l Hl. destruct (Hcards l Hl) as [Hgt Hapr].
    pose proof (monthly_rate_nonneg _ Hapr). nra. }
  assert (Hactive : active_cards cards epsilon h1 = cards).
  { apply active_cards_all, Forall_forall. intros l Hl.
    apply exact_ltb. rewrite (Hacc l Hl).
    destruct (Hcards l Hl) as [Hgt _]. specialize (Hrate l Hl). lra. }
  assert (Hal1 : allocated h1 cards).
  { unfold allocated in *. now rewrite Hlen. }
  assert (Hpos1 : forall x, x ∈ cards -> 0 <= balance (load h1 x)).
  { intros x Hx. rewrite (Hacc x Hx).
    destruct (Hcards x Hx) as [Hgt _]. specialize (Hrate x Hx). lra. }
  assert (Htot1 : total_balance cards h1 <= b).
  { unfold total_balance.
    rewrite (py_sum_eq (fun l => balance (load h1 l))
               (fun l => balance (accrued epsilon (load h l))) cards);
      [exact Hb|].
    apply Forall_forall. intros x Hx. now rewrite (W1 x Hx). }
  assert (Hgt1 : epsilon < total_balance cards h1).
  { unfold total_balance. apply py_sum_above; [exact Hne|exact Heps|].
    apply Forall_forall. intros x Hx. rewrite (Hacc x Hx).
    destruct (Hcards x Hx) as [Hgt _]. specialize (Hrate x Hx). lra. }
  assert (Htip : num_add tip mi
                 == tip + py_sum ((fun l => balance (load h l)
                                            * monthly_rate (apr (load h l)))
                                   <$> cards)).
  { change (tip + mi == tip + py_sum ((fun l => balance (load h l)
                                         * monthly_rate (apr (load h l)))
                                        <$> cards)).
    rewrite Hint.
    rewrite (py_sum_eq
               (fun l => balance (accrued epsilon (load h l))
                         - balance (load h l))
               (fun l => balance (load h l) * monthly_rate (apr (load h l)))
               cards).
    - change (@num_zero Q exact) with 0. lra.
    - apply Forall_forall. intros x Hx. rewrite <- (W1 x Hx), (Hacc x Hx).
      lra. }
  assert (Hgreedy : forall key,
    total_balance cards
      (pay_in_order (sort_by_key key h1 (active_cards cards epsilon h1))
         epsilon b h1).1.1 <= epsilon).
  { intros key. rewrite Hactive.
    pose proof (sort_by_key_perm key h1 cards) as Hperm.
    rewrite <- (total_balance_perm _ _ _ Hperm).
    apply pay_in_order_covers; [exact Heps| | | |].
    - now rewrite Hperm.
    - unfold allocated. now rewrite Hperm.
    - intros x Hx. rewrite Hperm in Hx. now apply Hpos1.
    - now rewrite (total_balance_perm _ _ _ Hperm). }
  unfold known_strategy in Hs.
  destruct (String.eqb strategy "avalanche") eqn:Ea.
  { apply String.eqb_eq in Ea. subst strategy.
    cbn [Calculator.payoff_order String.eqb Ascii.eqb Bool.eqb].
    pose proof (allocate_in_order_first_pass "avalanche" avalanche_key cards
                  epsilon b h1 Heps) as Efirst.
    specialize (Hgreedy avalanche_key).
    destruct (Calculator.allocate_in_order "avalanche" cards _ epsilon b h1)
      as [[h2 r2] tr2].
    cbn [fst snd] in Efirst. subst h2.
    eexists _, _, _. split; [reflexivity|]. split; [exact Htip|exact Hgreedy]. }
  destruct (String.eqb strategy "snowball") eqn:Eb.
  { apply String.eqb_eq in Eb. subst strategy.
    cbn [Calculator.payoff_order String.eqb Ascii.eqb Bool.eqb].
    pose proof (allocate_in_order_first_pass "snowball" snowball_key cards
                  epsilon b h1 Heps) as Efirst.
    specialize (Hgreedy snowball_key).
    destruct (Calculator.allocate_in_order "snowball" cards _ epsilon b h1)
      as [[h2 r2] tr2].
    cbn [fst snd] in Efirst. subst h2.
    eexists _, _, _. split; [reflexivity|]. split; [exact Htip|exact Hgreedy]. }
  cbn [orb] in Hs. apply String.eqb_eq in Hs. subst strategy.
  cbn [Calculator.payoff_order String.eqb Ascii.eqb Bool.eqb].
  rewrite Hactive. fold (total_balance cards h1).
  rewrite (proj2 (exact_leb_false _ _) Hgt1).
  destruct (pay_proportional_walk cards b (total_balance cards h1) h1 Hnd)
    as (Enormal & _ & Hpaid); [lra|].
  destruct (pay_proportional cards b (total_balance cards h1) h1)
    as [h2 c].
  cbn [fst snd] in Enormal, Hpaid. subst c.
  eexists _, _, _. split; [reflexivity|]. split; [exact Htip|].
  unfold total_balance at 1. rewrite py_sum_zero; [exact Heps|].
  apply Forall_forall. intros x Hx.
  rewrite (Hpaid x Hx) by (exact (proj1 (Forall_forall _ _) Hal1 x Hx)).
  rewrite proportional_pay_all; [|lra|exact Htot1|now apply Hpos1].
  change (balance (load h1 x) - balance (load h1 x) == 0). lra.
Qed.

End OneMonthCycle.

Section OneMonthCopies.
Local Open Scope Q_scope.
Implicit Types (h : heap Q) (l : loc) (ls cards : list loc).

Lemma fmap_load_eq {A} (g : Card Q -> A) cards cards' h h' :
  load h' <$> cards' = load h <$> cards ->
  (fun l => g (load h' l)) <$> cards' = (fun l => g (load h l)) <$> cards.
Proof.
  intros E.
  change (fun l => g (load h' l)) with (g ∘ load h').
  change (fun l => g (load h l)) with (g ∘ load h).
  now rewrite !list_fmap_compose, E.
Qed.

Lemma accrued_above epsilon (c : Card Q) :
  0 <= epsilon -> epsilon < balance c -> 0 <= apr c ->
  epsilon < balance (accrued epsilon c).
Proof.
  intros Heps Hgt Hapr. unfold accrued.
  rewrite (proj2 (exact_ltb _ _) Hgt). cbn [balance].
  pose proof (monthly_rate_nonneg _ Hapr).
  change (epsilon < balance c + balance c * monthly_rate (apr c)). nra.
Qed.

End OneMonthCopies.

(** X14: a budget that covers the debt, in exact arithmetic.  When the
    cards are distinct, each owes more than the tolerance at an APR that is
    not negative, and the monthly budget is at least the sum of the balances
    with the interest of the first month, every strategy pays the debt off
    in one month: the simulation returns [paid_off = True] with
    [months = 1], one snapshot, and a total interest that is the interest of
    that month, the sum of [balance * monthly_rate(apr)] over the cards. *)
Theorem budget_covering_the_debt_pays_off_in_one_month
    (h : heap Q) (cards : list loc) (b : Q) (strategy : string) (mm : Z)
    (epsilon : Q) :
  known_strategy strategy = true ->
  (0 <= epsilon)%Q -> 1 <= mm ->
  NoDup cards -> allocated h cards -> cards <> [] ->
  (forall l, l ∈ cards ->
     (epsilon < balance (load h l))%Q /\ (0 <= apr (load h l))%Q) ->
  (py_sum ((fun l => balance (accrued epsilon (load h l))) <$> cards)
   <= b)%Q ->
  exists h' res,
    Calculator.simulate_payoff_total_budget cards b strategy mm epsilon h
    = (h', Some (Normal res))
    /\ Calculator.paid_off res = true
    /\ Calculator.months res = 1
    /\ (Calculator.total_interest res
        == py_sum ((fun l => balance (load h l)
                             * monthly_rate (apr (load h l))) <$> cards))%Q
    /\ length (Calculator.history res) = 1%nat
    /\ (total_balance (deepcopy cards h).2 h' <= epsilon)%Q.
Proof.
  intros Hs Heps Hmm Hnd Hal Hne Hcards Hb.
  unfold Calculator.simulate_payoff_total_budget.
  assert (Hgt : (epsilon
                 < py_sum ((fun l => balance (accrued epsilon (load h l)))
                             <$> cards))%Q).
  { apply py_sum_above; [exact Hne|exact Heps|].
    apply Forall_forall. intros l Hl. destruct (Hcards l Hl).
    now apply accrued_above. }
  rewrite (proj2 (exact_leb_false b num_zero))
    by (change (@num_zero Q exact) with 0%Q; lra).
  destruct (deepcopy_distinct cards h Hnd) as [Hnd0 Hal0].
  pose proof (deepcopy_load cards h Hal) as Hload.
  destruct (deepcopy cards h) as [h0 cards0]. cbn [fst snd] in *.
  assert (Hne0 : cards0 <> []).
  { intros ->. apply (f_equal length) in Hload.
    rewrite !length_fmap in Hload. destruct cards; [contradiction|].
    discriminate. }
  assert (Hcards0 : forall l, l ∈ cards0 ->
            (epsilon < balance (load h0 l))%Q /\ (0 <= apr (load h0 l))%Q).
  { apply Forall_forall.
    apply (Forall_load
             (fun c => (epsilon < balance c)%Q /\ (0 <= apr c)%Q)
             cards cards0 h h0 Hload).
    apply Forall_forall. exact Hcards. }
  assert (Hb0 :
    (py_sum ((fun l => balance (accrued epsilon (load h0 l))) <$> cards0)
     <= b)%Q).
  { now rewrite (fmap_load_eq (fun c => balance (accrued epsilon c))
                   cards cards0 h h0 Hload). }
  assert (Htot0 : (epsilon < total_balance cards0 h0)%Q).
  { unfold total_balance. apply py_sum_above; [exact Hne0|exact Heps|].
    apply Forall_forall. intros l Hl. now destruct (Hcards0 l Hl). }
  destruct (Z.to_nat mm) as [|k] eqn:Ek; [lia|].
  cbn [Calculator.budget_loop].
  rewrite (proj2 (exact_ltb _ _) Htot0).
  replace (0 + 1 >? mm) with false
    by (symmetry; rewrite Z.gtb_ltb; apply Z.ltb_ge; lia).
  destruct (month_cycle_covers cards0 b strategy epsilon (0 + 1) num_zero []
              h0 Hs Heps Hnd0 Hal0 Hne0 Hcards0 Hb0)
    as (h2 & tip' & s & E & Htip & Htot).
  rewrite E. cbn [Calculator.budget_loop].
  rewrite (proj2 (exact_ltb_false _ _) Htot).
  exists h2. eexists. split; [reflexivity|]. cbn.
  split; [reflexivity|]. split; [reflexivity|].
  split; [|split; [reflexivity|exact Htot]].
  rewrite Htip.
  rewrite (fmap_load_eq (fun c => (balance c * monthly_rate (apr c))%Q)
             cards cards0 h h0 Hload).
  change (@num_zero Q exact) with 0%Q. apply Qplus_0_l.
Qed.

(** A (1000 at 20%) and B (500 at 10%) owe 1520.83... after the first
    interest; 1600 a month covers it. *)
Lemma budget_covering_the_debt_pays_off_in_one_month_witness :
  exists h' res,
    Calculator.simulate_payoff_total_budget [0; 1]%nat 1600%Q "proportional"
      2000 default_epsilon_exact pairQ
    = (h', Some (Normal res))
    /\ Calculator.paid_off res = true
    /\ Calculator.months res = 1
    /\ (Calculator.total_interest res
        == py_sum ((fun l => balance (load pairQ l)
                             * monthly_rate (apr (load pairQ l)))
                     <$> [0; 1]%nat))%Q
    /\ length (Calculator.history res) = 1%nat
    /\ (total_balance (deepcopy [0; 1]%nat pairQ).2 h'
        <= default_epsilon_exact)%Q.
Proof.
  assert (Hnd : NoDup [0; 1]%nat).
  { apply (bool_decide_unpack (NoDup [0; 1]%nat)). vm_compute. exact I. }
  assert (Hal : allocated pairQ [0; 1]%nat).
  { repeat first [apply Forall_nil_2 | apply Forall_cons_2; [vm_compute; lia|]]. }
  assert (Hcards : forall l, l ∈ [0; 1]%nat ->
            (default_epsilon_exact < balance (load pairQ l))%Q
            /\ (0 <= apr (load pairQ l))%Q).
  { intros l Hl. apply elem_of_cons in Hl as [->|Hl].
    - split; [vm_compute; reflexivity|vm_compute; discriminate].
    - apply list_elem_of_singleton in Hl as ->.
      split; [vm_compute; reflexivity|vm_compute; discriminate]. }
  exact (budget_covering_the_debt_pays_off_in_one_month pairQ [0; 1]%nat
           1600%Q "proportional" 2000 default_epsilon_exact eq_refl
           ltac:(vm_compute; discriminate) ltac:(lia) Hnd Hal
           ltac:(discriminate) Hcards ltac:(vm_compute; discriminate)).
Defined.

(** ** A card that the monthly payments leave out *)

Section Unpaid.
Context {F : Type} `{Number F}.
Implicit Types (h : heap F) (l : loc) (ls cards : list loc).

Lemma name_to_card_fold_name cards h (d : gmap string loc) k l :
  foldl (fun d l => <[name (load h l) := l]> d) d cards !! k = Some l ->
  name (load h l) = k \/ d !! k = Some l.
Proof.
  revert d. induction cards as [|x cards IH]; intros d; cbn [foldl].
  - now right.
  - intros E. destruct (IH _ E) as [Hn|Hd]; [now left|].
    destruct (decide (name (load h x) = k)) as [Ek|Hne].
    + rewrite Ek, lookup_insert_eq in Hd. injection Hd as <-. now left.
    + rewrite lookup_insert_ne in Hd by exact Hne. now right.
Qed.

Lemma name_to_card_name cards h k l :
  Calculator.name_to_card cards h !! k = Some l -> name (load h l) = k.
Proof.
  intros E. destruct (name_to_card_fold_name cards h ∅ k l E) as [Hn|Hd];
    [exact Hn|].
  rewrite lookup_empty in Hd. discriminate.
Qed.

(** The payment loop returns when every key is in the dict of names. *)
Lemma apply_payments_manual_normal pays (by_name : gmap string loc) epsilon
    h :
  Forall (fun p : string * F => is_Some (by_name !! p.1)) pays ->
  (Calculator.apply_payments_manual pays by_name epsilon h).2 = Normal tt.
Proof.
  intros Hpays. revert h.
  induction Hpays as [|[k v] pays [l Hl] Hpays IH]; intros h;
    cbn [Calculator.apply_payments_manual]; [reflexivity|].
  cbn [fst] in Hl. rewrite Hl.
  destruct (num_ltb epsilon (balance (load h l)) && num_ltb num_zero v);
    apply IH.
Qed.

(** A card that no positive payment is addressed to stays as it is. *)
Lemma apply_payments_manual_untouched pays (by_name : gmap string loc)
    epsilon h x :
  Forall (fun p : string * F =>
            by_name !! p.1 = Some x -> num_ltb num_zero p.2 = false) pays ->
  load (Calculator.apply_payments_manual pays by_name epsilon h).1 x
  = load h x.
Proof.
  intros Hpays. revert h.
  induction Hpays as [|[k v] pays Hp Hpays IH]; intros h;
    cbn [Calculator.apply_payments_manual]; [reflexivity|].
  cbn [fst snd] in Hp.
  destruct (by_name !! k) as [l|] eqn:Ek; [|reflexivity].
  destruct (num_ltb epsilon (balance (load h l)) && num_ltb num_zero v)
    eqn:Ec; [|apply IH].
  rewrite IH. apply load_store_balance_ne. intros ->.
  apply andb_true_iff in Ec as [_ Ev]. rewrite (Hp eq_refl) in Ev.
  discriminate.
Qed.

End Unpaid.

Section UnpaidExact.
Local Open Scope Q_scope.
Implicit Types (h : heap Q) (l : loc) (ls cards : list loc).

(** The accrual lowers no balance. *)
Lemma accrue_interest_mono ls epsilon (acc : Q) h x :
  Forall (card_ok h) ls -> card_ok h x ->
  balance (load h x) <= balance (load (accrue_interest ls epsilon acc h).1 x).
Proof.
  revert acc h. induction ls as [|l ls IH]; intros acc h Hls Hx;
    cbn [accrue_interest]; [apply Qle_refl|].
  apply Forall_cons in Hls as [[Hb Ha] Hls].
  destruct (num_ltb epsilon (balance (load h l))); [|now apply IH].
  assert (Hv : 0 <= num_add (balance (load h l))
                      (num_mul (balance (load h l))
                         (monthly_rate (apr (load h l)))))
    by now apply accrual_nonneg.
  match goal with
  | |- context [store_balance h l ?v] => set (h1 := store_balance h l v)
  end.
  assert (Hstep : balance (load h x) <= balance (load h1 x)).
  { subst h1. destruct (decide (l = x)) as [<-|Hne].
    - destruct (decide (l < length h)%nat).
      + rewrite load_store_balance_eq by assumption. cbn [balance].
        pose proof (monthly_rate_nonneg _ Ha).
        change (balance (load h l)
                <= balance (load h l)
                   + balance (load h l) * monthly_rate (apr (load h l))).
        nra.
      + rewrite store_balance_dangling by lia. lra.
    - rewrite load_store_balance_ne by exact Hne. lra. }
  apply (Qle_trans _ _ _ Hstep). apply IH.
  - eapply Forall_impl; [exact Hls|]. intros y Hy. subst h1.
    now apply card_ok_store.
  - subst h1. now apply card_ok_store.
Qed.

Lemma total_balance_lower ls h x :
  x ∈ ls -> Forall (card_ok h) ls ->
  balance (load h x) <= total_balance ls h.
Proof.
  intros Hx Hls. unfold total_balance.
  induction Hls as [|l ls [Hb _] Hls IH]; [now apply elem_of_nil in Hx|].
  rewrite fmap_cons, py_sum_cons.
  assert (Hrest : 0 <= py_sum ((fun l0 => balance (load h l0)) <$> ls)).
  { apply py_sum_nonneg. eapply Forall_impl; [exact Hls|].
    now intros y [Hy _]. }
  apply elem_of_cons in Hx as [->|Hx]; [lra|].
  specialize (IH Hx). lra.
Qed.

(** While a card above the tolerance is left out of the payments, the loop
    runs to the cap. *)
Lemma manual_loop_unpaid fuel cards pays (by_name : gmap string loc) mm
    epsilon m (tip : Q) hist h x :
  x ∈ cards ->
  Forall (fun p : string * Q => is_Some (by_name !! p.1)) pays ->
  Forall (fun p : string * Q =>
            by_name !! p.1 = Some x -> num_ltb num_zero p.2 = false) pays ->
  Forall (card_ok h) cards -> epsilon < balance (load h x) ->
  (m <= mm)%Z -> (Z.to_nat (mm - m)%Z < fuel)%nat ->
  exists h' tip' hist',
    Calculator.manual_loop fuel cards pays by_name mm epsilon m tip hist h
    = (h', Some (Normal (Calculator.manual_cap_result (mm + 1)%Z tip' hist'))).
Proof.
  intros Hx Hknown Hzero. revert m tip hist h.
  induction fuel as [|fuel IH]; intros m tip hist h Hok Hgt Hm Hfuel; [lia|].
  cbn [Calculator.manual_loop].
  pose proof (total_balance_lower cards h x Hx Hok) as Htot.
  rewrite (proj2 (exact_ltb epsilon (total_balance cards h))) by lra.
  rewrite Z.gtb_ltb. destruct (Z.ltb_spec mm (m + 1)%Z) as [Hcap|Hcap].
  { assert (m = mm) as -> by lia. eexists _, _, _. reflexivity. }
  unfold Calculator.manual_cycle.
  assert (Hokx : card_ok h x)
    by exact (proj1 (Forall_forall _ _) Hok x Hx).
  pose proof (accrue_interest_mono cards epsilon num_zero h x Hok Hokx)
    as Hmono.
  pose proof (fun y => accrue_interest_ok cards epsilon num_zero h y Hok)
    as Hok1.
  destruct (accrue_interest cards epsilon num_zero h) as [h1 mi].
  cbn [fst] in Hmono, Hok1.
  pose proof (apply_payments_manual_normal pays by_name epsilon h1 Hknown)
    as Enormal.
  pose proof (apply_payments_manual_untouched pays by_name epsilon h1 x Hzero)
    as Esame.
  pose proof (fun y => apply_payments_manual_ok pays by_name epsilon h1 y)
    as Hok2.
  destruct (Calculator.apply_payments_manual pays by_name epsilon h1)
    as [h2 c].
  cbn [fst snd] in Enormal, Esame, Hok2. subst c.
  apply IH; [| |lia|lia].
  - apply Forall_forall. intros y Hy. apply Hok2, Hok1.
    exact (proj1 (Forall_forall _ _) Hok y Hy).
  - rewrite Esame. lra.
Qed.

End UnpaidExact.

(** X15: a card that the monthly payments leave out, in exact arithmetic.
    The cards owe nothing negative at APRs that are not negative, the
    amounts are not negative, every key names a card, and some card owes
    more than the tolerance while every payment to its name is zero (or no
    key is its name).  Then that card is never paid, its balance never
    falls, and the manual simulation runs to the month cap: it returns
    [paid_off = False] with [months = max_months + 1]. *)
Theorem manual_unpaid_card_runs_to_the_cap
    (h : heap Q) (cards : list loc) (pays : list (string * Q)) (mm : Z)
    (epsilon : Q) (l0 : loc) :
  0 <= mm ->
  allocated h cards -> Forall (card_ok h) cards ->
  Forall (fun p : string * Q => (0 <= p.2)%Q) pays ->
  Forall (fun p : string * Q =>
            Exists (fun l => name (load h l) = p.1) cards) pays ->
  l0 ∈ cards -> (epsilon < balance (load h l0))%Q ->
  Forall (fun p : string * Q => p.1 = name (load h l0) -> (p.2 == 0)%Q)
    pays ->
  exists h' res,
    Calculator.simulate_payoff_manual_payments cards pays mm epsilon h
    = (h', Some (Normal res))
    /\ Calculator.paid_off res = false
    /\ Calculator.months res = mm + 1.
Proof.
  intros Hmm Hal Hok Hamounts Hkeys Hl0 Hgt Hzero.
  unfold Calculator.simulate_payoff_manual_payments.
  pose proof (deepcopy_load cards h Hal) as Hload.
  destruct (deepcopy_ok cards h Hal Hok) as [Hok0 _].
  destruct (deepcopy cards h) as [h0 cards0]. cbn [fst snd] in *.
  rewrite check_payments_fine.
  2:{ eapply Forall_impl; [exact Hamounts|]. intros p Hp.
      now apply exact_ltb_false. }
  assert (Hcopy : exists x, x ∈ cards0 /\ load h0 x = load h l0).
  { assert (Hin : load h l0 ∈ load h0 <$> cards0).
    { rewrite Hload. apply list_elem_of_fmap. now exists l0. }
    apply list_elem_of_fmap in Hin as (x & E & Hx). now exists x. }
  destruct Hcopy as (x & Hx & Ex).
  destruct (manual_loop_unpaid (S (Z.to_nat mm)) cards0 pays
              (Calculator.name_to_card cards0 h0) mm epsilon 0 num_zero []
              h0 x Hx) as (h' & tip' & hist' & E).
  - eapply Forall_impl; [exact Hkeys|]. intros p Hp.
    apply name_to_card_known.
    exact (Exists_load (fun c => name c = p.1) _ _ _ _ Hload Hp).
  - eapply Forall_impl; [exact Hzero|]. intros p Hp Hby.
    apply name_to_card_name in Hby. rewrite Ex in Hby.
    apply exact_ltb_false. rewrite (Hp (eq_sym Hby)).
    change (@num_zero Q exact) with 0%Q. lra.
  - exact Hok0.
  - now rewrite Ex.
  - lia.
  - lia.
  - exists h', (Calculator.manual_cap_result (mm + 1) tip' hist').
    split; [exact E|]. split; reflexivity.
Qed.

(** A is paid 100 a month and B is not named. *)
Lemma manual_unpaid_card_runs_to_the_cap_witness :
  exists h' res,
    Calculator.simulate_payoff_manual_payments [0; 1]%nat
      [("A"%string, 100%Q)] 24 default_epsilon_exact pairQ
    = (h', Some (Normal res))
    /\ Calculator.paid_off res = false
    /\ Calculator.months res = 24 + 1.
Proof.
  assert (Hal : allocated pairQ [0; 1]%nat).
  { repeat first [apply Forall_nil_2 | apply Forall_cons_2; [vm_compute; lia|]]. }
  assert (Hok : Forall (card_ok pairQ) [0; 1]%nat).
  { repeat first [apply Forall_nil_2
                 | apply Forall_cons_2;
                   [split; vm_compute; discriminate|]]. }
  assert (Hamounts : Forall (fun p : string * Q => (0 <= p.2)%Q)
                       [("A"%string, 100%Q)]).
  { apply Forall_cons_2; [vm_compute; discriminate|apply Forall_nil_2]. }
  assert (Hkeys :
    Forall (fun p : string * Q =>
              Exists (fun l => name (load pairQ l) = p.1) [0; 1]%nat)
      [("A"%string, 100%Q)]).
  { apply Forall_cons_2; [|apply Forall_nil_2].
    apply Exists_cons_hd. reflexivity. }
  assert (Hl0 : 1%nat ∈ [0; 1]%nat).
  { apply elem_of_cons. right. apply elem_of_cons. now left. }
  assert (Hzero :
    Forall (fun p : string * Q =>
              p.1 = name (load pairQ 1%nat) -> (p.2 == 0)%Q)
      [("A"%string, 100%Q)]).
  { apply Forall_cons_2; [|apply Forall_nil_2]. cbn. discriminate. }
  exact (manual_unpaid_card_runs_to_the_cap pairQ [0; 1]%nat
           [("A"%string, 100%Q)] 24 default_epsilon_exact 1%nat
           ltac:(lia) Hal Hok Hamounts Hkeys Hl0
           ltac:(vm_compute; reflexivity) Hzero).
Defined.

(** ** What a month does to the total *)

Section Totals.
Local Open Scope Q_scope.
Implicit Types (h : heap Q) (l : loc) (ls cards : list loc).

Lemma total_balance_store_other cards h l v :
  l ∉ cards ->
  total_balance cards (store_balance h l v) == total_balance cards h.
Proof.
  intros Hl. unfold total_balance. apply py_sum_eq, Forall_forall.
  intros x Hx. rewrite load_store_balance_ne; [reflexivity|].
  intros ->. contradiction.
Qed.

(** Assigning a balance to one of distinct cards moves the total by the
    difference. *)
Lemma total_balance_store cards h l v :
  NoDup cards -> l ∈ cards -> (l < length h)%nat ->
  total_balance cards (store_balance h l v)
  == total_balance cards h - balance (load h l) + v.
Proof.
  intros Hnd Hl Hlt. induction Hnd as [|x cards Hx Hnd IH];
    [now apply elem_of_nil in Hl|].
  unfold total_balance in *. rewrite !fmap_cons, !py_sum_cons.
  destruct (decide (l = x)) as [->|Hne].
  - rewrite load_store_balance_eq by exact Hlt. cbn [balance].
    pose proof (total_balance_store_other cards h x v Hx) as E.
    unfold total_balance in E. rewrite E. lra.
  - apply elem_of_cons in Hl as [->|Hl]; [contradiction|].
    rewrite load_store_balance_ne by exact Hne. rewrite (IH Hl). lra.
Qed.

Lemma accrue_interest_total cards ls epsilon (acc : Q) h :
  NoDup cards -> allocated h cards -> Forall (fun l => l ∈ cards) ls ->
  total_balance cards (accrue_interest ls epsilon acc h).1
  == total_balance cards h + ((accrue_interest ls epsilon acc h).2 - acc).
Proof.
  intros Hnd Hal Hls. revert acc h Hal.
  induction Hls as [|l ls Hl Hls IH]; intros acc h Hal;
    cbn [accrue_interest].
  - cbn [fst snd]. lra.
  - destruct (num_ltb epsilon (balance (load h l))); [|now apply IH].
    rewrite IH.
    2:{ unfold allocated in *. eapply Forall_impl; [exact Hal|].
        intros x Hx. cbn beta in *. now rewrite length_store_balance. }
    rewrite total_balance_store;
      [|exact Hnd|exact Hl|exact (proj1 (Forall_forall _ _) Hal l Hl)].
    match goal with
    | |- context [accrue_interest ls epsilon ?a ?h'] =>
        generalize (accrue_interest ls epsilon a h').2
    end.
    intros q.
    change (total_balance cards h - balance (load h l)
            + (balance (load h l)
               + balance (load h l) * monthly_rate (apr (load h l)))
            + (q - (acc + balance (load h l)
                          * monthly_rate (apr (load h l))))
            == total_balance cards h + (q - acc)).
    lra.
Qed.

(** The greedy walk: what leaves the budget leaves the total. *)
Lemma pay_in_order_total cards ls epsilon (r : Q) h :
  NoDup cards -> allocated h cards -> Forall (fun l => l ∈ cards) ls ->
  0 <= r ->
  total_balance cards (pay_in_order ls epsilon r h).1.1
  == total_balance cards h - (r - (pay_in_order ls epsilon r h).1.2)
  /\ 0 <= (pay_in_order ls epsilon r h).1.2.
Proof.
  intros Hnd Hal Hls. revert r h Hal.
  induction Hls as [|l ls Hl Hls IH]; intros r h Hal Hr.
  - cbn [pay_in_order fst snd]. split; lra.
  - destruct (Qlt_le_dec epsilon r) as [Hgt|Hle].
    2:{ rewrite pay_in_order_stops by exact Hle. cbn [fst snd].
        split; lra. }
    rewrite pay_in_order_step by exact Hgt.
    set (b := balance (load h l)).
    assert (Hpay : (r < b /\ py_min b r = r) \/ (b <= r /\ py_min b r = b))
      by apply py_min_cases.
    destruct (IH (r - py_min b r) (store_balance h l (b - py_min b r)))
      as [I1 I2].
    { unfold allocated in *. eapply Forall_impl; [exact Hal|].
      intros x Hx. cbn beta in *. now rewrite length_store_balance. }
    { destruct Hpay as [[? E]|[? E]]; rewrite E; lra. }
    split; [|exact I2]. rewrite I1.
    rewrite total_balance_store;
      [|exact Hnd|exact Hl|exact (proj1 (Forall_forall _ _) Hal l Hl)].
    fold b. lra.
Qed.

Lemma length_pay_in_order ls epsilon (r : Q) h :
  length (pay_in_order ls epsilon r h).1.1 = length h.
Proof.
  revert r h. induction ls as [|l ls IH]; intros r h; cbn [pay_in_order];
    [reflexivity|].
  destruct (num_leb r epsilon); [reflexivity|].
  match goal with
  | |- context [pay_in_order ls epsilon ?r' ?h'] =>
      specialize (IH r' h'); destruct (pay_in_order ls epsilon r' h')
        as [[h2 r2] tr]
  end.
  cbn [fst] in *. rewrite IH. apply length_store_balance.
Qed.

Lemma allocate_in_order_total strategy cards active epsilon (b : Q) h :
  NoDup cards -> allocated h cards -> Forall (fun l => l ∈ cards) active ->
  0 <= b ->
  total_balance cards h - b
  <= total_balance cards
       (Calculator.allocate_in_order strategy cards active epsilon b h).1.1.
Proof.
  intros Hnd Hal Hact Hb. unfold Calculator.allocate_in_order.
  destruct (pay_in_order_total cards active epsilon b h Hnd Hal Hact Hb)
    as [E1 Hr1].
  pose proof (length_pay_in_order active epsilon b h) as Hlen.
  destruct (pay_in_order active epsilon b h) as [[h1 r1] tr1].
  cbn [fst snd] in E1, Hr1, Hlen.
  assert (Hal1 : allocated h1 cards).
  { unfold allocated in *. now rewrite Hlen. }
  unfold Calculator.second_pass.
  destruct (num_ltb epsilon r1) eqn:Eleft.
  2:{ cbn [fst snd]. rewrite E1. lra. }
  match goal with
  | |- context [pay_in_order ?o epsilon r1 h1] =>
      destruct (pay_in_order_total cards o epsilon r1 h1 Hnd Hal1)
        as [E2 Hr2]; [|exact Hr1|];
      [|destruct (pay_in_order o epsilon r1 h1) as [[h2 r2] tr2]]
  end.
  { destruct (String.eqb strategy "avalanche");
      apply Forall_forall; intros x Hx; rewrite sort_by_key_perm in Hx;
      now apply list_elem_of_filter in Hx as [_ Hx]. }
  cbn [fst snd] in *. rewrite E2, E1. lra.
Qed.

End Totals.

Section TotalsOfAMonth.
Local Open Scope Q_scope.
Implicit Types (h : heap Q) (l : loc) (ls cards : list loc).

Lemma length_pay_proportional ls (r total : Q) h :
  length (pay_proportional ls r total h).1 = length h.
Proof.
  revert h. induction ls as [|l ls IH]; intros h; cbn [pay_proportional];
    [reflexivity|].
  destruct (py_div (balance (load h l)) total) as [q|e]; [|reflexivity].
  match goal with
  | |- context [pay_proportional ls r total ?h'] =>
      specialize (IH h'); destruct (pay_proportional ls r total h')
        as [h2 [tr|e]]
  end; cbn [fst] in *; rewrite IH; apply length_store_balance.
Qed.

(** The proportional walk over distinct cards takes from the total what it
    pays. *)
Lemma pay_proportional_total cards ls (r total : Q) h :
  NoDup cards -> allocated h cards -> NoDup ls ->
  Forall (fun l => l ∈ cards) ls -> ~ total == 0 ->
  total_balance cards (pay_proportional ls r total h).1
  == total_balance cards h
     - py_sum ((fun l => proportional_pay r total (load h l)) <$> ls).
Proof.
  intros Hnd Hal Hndls Hls Ht. revert h Hal.
  induction Hndls as [|l ls Hl Hndls IH]; intros h Hal;
    cbn [pay_proportional].
  - cbn. lra.
  - apply Forall_cons in Hls as [Hin Hls].
    assert (Ez : num_eqb total num_zero = false)
      by (apply exact_eqb_false; exact Ht).
    unfold py_div. rewrite Ez.
    fold (proportional_share r total (load h l)).
    fold (proportional_pay r total (load h l)).
    set (h1 := store_balance h l
                 (num_sub (balance (load h l))
                    (proportional_pay r total (load h l)))).
    assert (Hal1 : allocated h1 cards).
    { unfold allocated in *. eapply Forall_impl; [exact Hal|].
      intros x Hx. cbn beta in *. subst h1.
      now rewrite length_store_balance. }
    pose proof (IH Hls h1 Hal1) as E.
    destruct (pay_proportional ls r total h1) as [h2 [tr|e]];
      cbn [fst] in *; rewrite E; subst h1;
      (rewrite total_balance_store;
       [|exact Hnd|exact Hin|exact (proj1 (Forall_forall _ _) Hal l Hin)]);
      rewrite fmap_cons, py_sum_cons;
      (rewrite (py_sum_eq
                  (fun l0 => proportional_pay r total
                               (load (store_balance h l
                                        (num_sub (balance (load h l))
                                           (proportional_pay r total
                                              (load h l)))) l0))
                  (fun l0 => proportional_pay r total (load h l0)) ls);
       [|apply Forall_forall; intros x Hx;
         rewrite load_store_balance_ne; [reflexivity|];
         intros ->; contradiction]);
      change (num_sub (balance (load h l))
                (proportional_pay r total (load h l)))
        with (balance (load h l) - proportional_pay r total (load h l));
      lra.
Qed.

(** The walk pays no more than the budget it splits. *)
Lemma pay_proportional_within_budget ls (r : Q) h :
  0 <= r ->
  ~ py_sum ((fun l => balance (load h l)) <$> ls) == 0 ->
  py_sum ((fun l => proportional_pay r
                      (py_sum ((fun l => balance (load h l)) <$> ls))
                      (load h l)) <$> ls) <= r.
Proof.
  intros Hr Ht.
  set (total := py_sum ((fun l => balance (load h l)) <$> ls)) in *.
  pose proof (proportional_shares_add_up r total (load h <$> ls) Ht) as Hsh.
  rewrite <- !list_fmap_compose in Hsh.
  assert (Hle :
    py_sum ((fun l => proportional_pay r total (load h l)) <$> ls)
    <= py_sum ((fun l => proportional_share r total (load h l)) <$> ls)).
  { apply py_sum_le, Forall_forall. intros x _.
    apply proportional_pay_le_share. }
  assert (Eshares :
    py_sum ((fun l => proportional_share r total (load h l)) <$> ls) == r).
  { apply Hsh. reflexivity. }
  lra.
Qed.

(** A month lowers the total by at most the budget, after the interest. *)
Lemma month_cycle_total cards (b : Q) strategy epsilon m (tip : Q) hist h :
  NoDup cards -> allocated h cards -> 0 <= epsilon -> 0 <= b ->
  match (Calculator.month_cycle cards b strategy epsilon m tip hist h).2 with
  | Calculator.Continue tip' _ | Calculator.Break tip' _ =>
      total_balance cards h + (tip' - tip) - b
      <= total_balance cards
           (Calculator.month_cycle cards b strategy epsilon m tip hist h).1
      /\ allocated
           (Calculator.month_cycle cards b strategy epsilon m tip hist h).1
           cards
  | Calculator.Raised _ => True
  end.
Proof.
  intros Hnd Hal Heps Hb. unfold Calculator.month_cycle.
  pose proof (accrue_interest_total cards cards epsilon num_zero h Hnd Hal
                (Forall_elem_of_self cards)) as Hacc.
  pose proof (length_accrue_interest cards epsilon num_zero h) as Hlen.
  destruct (accrue_interest cards epsilon num_zero h) as [h1 mi].
  cbn [fst snd] in Hacc, Hlen.
  change (@num_zero Q exact) with 0 in Hacc.
  assert (Hal1 : allocated h1 cards).
  { unfold allocated in *. now rewrite Hlen. }
  assert (Hactive : Forall (fun l => l ∈ cards) (active_cards cards epsilon h1)).
  { apply active_cards_within, Forall_elem_of_self. }
  assert (Hndact : NoDup (active_cards cards epsilon h1)).
  { unfold active_cards. now apply NoDup_filter. }
  destruct (Calculator.payoff_order strategy (active_cards cards epsilon h1)
              h1) as [o|e] eqn:Eo; [|exact I].
  pose proof (payoff_order_within cards strategy _ h1 o Hactive Eo) as Ho.
  destruct (String.eqb strategy "proportional") eqn:Es.
  - apply String.eqb_eq in Es. subst strategy.
    injection Eo as <-.
    destruct (num_leb _ epsilon) eqn:Etot.
    + cbn [fst snd]. split; [|exact Hal1].
      change (total_balance cards h + (tip + mi - tip) - b
              <= total_balance cards h1). lra.
    + apply exact_leb_false in Etot.
      set (total := py_sum ((fun l => balance (load h1 l))
                              <$> active_cards cards epsilon h1)) in *.
      assert (Ht : ~ total == 0) by lra.
      pose proof (pay_proportional_total cards _ b total h1 Hnd Hal1 Hndact
                    Hactive Ht) as Etotal.
      pose proof (pay_proportional_within_budget
                    (active_cards cards epsilon h1) b h1 Hb Ht) as Hpaid.
      fold total in Hpaid.
      pose proof (length_pay_proportional (active_cards cards epsilon h1) b
                    total h1) as Hlen2.
      destruct (pay_proportional (active_cards cards epsilon h1) b total h1)
        as [h2 [tr|e]]; [|exact I].
      cbn [fst snd] in *. split.
      * change (total_balance cards h + (tip + mi - tip) - b
                <= total_balance cards h2). lra.
      * unfold allocated in *. now rewrite Hlen2.
  - pose proof (allocate_in_order_total strategy cards o epsilon b h1 Hnd
                  Hal1 Ho Hb) as Hall.
    assert (Hlen2 :
      length (Calculator.allocate_in_order strategy cards o epsilon b h1).1.1
      = length h1).
    { unfold Calculator.allocate_in_order.
      pose proof (length_pay_in_order o epsilon b h1) as L1.
      destruct (pay_in_order o epsilon b h1) as [[hh1 r1] tr1].
      cbn [fst] in L1. unfold Calculator.second_pass.
      destruct (num_ltb epsilon r1); [|exact L1].
      match goal with
      | |- context [pay_in_order ?o' epsilon r1 hh1] =>
          pose proof (length_pay_in_order o' epsilon r1 hh1) as L2;
          destruct (pay_in_order o' epsilon r1 hh1) as [[hh2 r2] tr2]
      end.
      cbn [fst] in *. congruence. }
    destruct (Calculator.allocate_in_order strategy cards o epsilon b h1)
      as [[h2 r2] tr2].
    cbn [fst snd] in *. split.
    + change (total_balance cards h + (tip + mi - tip) - b
              <= total_balance cards h2). lra.
    + unfold allocated in *. now rewrite Hlen2.
Qed.

Lemma budget_loop_total_bound fuel cards (b : Q) strategy mm epsilon m
    (tip : Q) hist h res :
  NoDup cards -> allocated h cards -> 0 <= epsilon -> 0 <= b ->
  (Calculator.budget_loop fuel cards b strategy mm epsilon m tip hist h).2
  = Some (Normal res) ->
  total_balance cards h + (Calculator.total_interest res - tip)
  <= inject_Z (Calculator.months res - m) * b
     + total_balance cards
         (Calculator.budget_loop fuel cards b strategy mm epsilon m tip hist
            h).1
  /\ (Calculator.paid_off res = true -> strategy <> "proportional"%string ->
      total_balance cards
        (Calculator.budget_loop fuel cards b strategy mm epsilon m tip hist
           h).1 <= epsilon).
Proof.
  intros Hnd Hal Heps Hb. revert m tip hist h Hal.
  induction fuel as [|fuel IH]; intros m tip hist h Hal;
    cbn [Calculator.budget_loop]; [discriminate|].
  destruct (num_ltb epsilon (total_balance cards h)) eqn:Etot.
  - destruct (m + 1 >? mm)%Z.
    + cbn [fst snd]. intros [= <-]. cbn.
      replace (m + 1 - m)%Z with 1%Z by lia.
      split; [change (inject_Z 1) with 1; lra|discriminate].
    + pose proof (month_cycle_total cards b strategy epsilon (m + 1)%Z tip hist
                    h Hnd Hal Heps Hb) as Hmonth.
      pose proof (month_cycle_history cards b strategy epsilon (m + 1)%Z tip
                    hist h) as Hhist.
      destruct (Calculator.month_cycle cards b strategy epsilon (m + 1)%Z tip
                  hist h) as [h1 [tip' hist'|tip' hist'|e]];
        cbn [fst snd] in Hmonth, Hhist.
      * destruct Hmonth as [Hm Hal1]. intros E.
        destruct (IH (m + 1)%Z tip' hist' h1 Hal1 E) as [I1 I2].
        split; [|exact I2].
        replace (Calculator.months res - m)%Z
          with ((Calculator.months res - (m + 1)) + 1)%Z by lia.
        rewrite inject_Z_plus. change (inject_Z 1) with 1. lra.
      * destruct Hmonth as [Hm _]. destruct Hhist as [_ Hprop].
        cbn [fst snd]. intros [= <-]. cbn.
        replace (m + 1 - m)%Z with 1%Z by lia.
        split; [change (inject_Z 1) with 1; lra|].
        intros _ Hn. contradiction.
      * discriminate.
  - cbn [fst snd]. intros [= <-]. cbn.
    replace (m - m)%Z with 0%Z by lia.
    split; [change (inject_Z 0) with 0; lra|].
    intros _ _. now apply exact_ltb_false.
Qed.

End TotalsOfAMonth.

(** X16: the payments never exceed the budget, in exact arithmetic.  For
    distinct cards and a tolerance that is not negative, a budget
    simulation that returns a result has taken from the debt no more than
    the budget times the months it reports: the total of the caller's cards
    plus the total interest is at most [months * monthly_budget] plus what
    the simulated cards still owe.  When the result is paid off and the
    strategy is avalanche or snowball, what they still owe is within the
    tolerance, so principal plus interest, the total paid that
    [compare_budgets] prints, is at most [months * monthly_budget +
    epsilon].  With a month cap that is not negative the simulation
    completes. *)
Theorem payments_never_exceed_the_budget
    (h : heap Q) (cards : list loc) (b : Q) (strategy : string) (mm : Z)
    (epsilon : Q) :
  NoDup cards -> allocated h cards -> (0 <= epsilon)%Q -> 0 <= mm ->
  exists out,
    (Calculator.simulate_payoff_total_budget cards b strategy mm epsilon h).2
    = Some out
    /\ forall res, out = Normal res ->
         (total_balance cards h + Calculator.total_interest res
          <= inject_Z (Calculator.months res) * b
             + total_balance (deepcopy cards h).2
                 (Calculator.simulate_payoff_total_budget cards b strategy mm
                    epsilon h).1)%Q
         /\ (Calculator.paid_off res = true ->
             strategy <> "proportional"%string ->
             (total_balance cards h + Calculator.total_interest res
              <= inject_Z (Calculator.months res) * b + epsilon)%Q).
Proof.
  intros Hnd Hal Heps Hmm.
  destruct (budget_simulation_completes cards b strategy mm epsilon h Hmm)
    as [out Eout].
  exists out. split; [exact Eout|]. intros res ->.
  revert Eout. unfold Calculator.simulate_payoff_total_budget.
  destruct (num_leb b num_zero) eqn:Eb; [discriminate|].
  apply exact_leb_false in Eb. change (@num_zero Q exact) with 0%Q in Eb.
  destruct (deepcopy_distinct cards h Hnd) as [Hnd0 Hal0].
  pose proof (deepcopy_total_balance cards h Hal) as Etot.
  destruct (deepcopy cards h) as [h0 cards0]. cbn [fst snd] in *.
  intros E.
  destruct (budget_loop_total_bound (S (Z.to_nat mm)) cards0 b strategy mm
              epsilon 0 num_zero [] h0 res Hnd0 Hal0 Heps) as [B1 B2];
    [lra|exact E|].
  rewrite Z.sub_0_r, Etot in B1.
  match goal with
  | |- context [total_balance cards0 ?x] =>
      set (left_over := total_balance cards0 x) in *
  end.
  change (@num_zero Q exact) with 0%Q in B1. split; [lra|].
  intros Hpaid Hs. specialize (B2 Hpaid Hs). lra.
Qed.

(** A (1000 at 20%) and B (500 at 10%) with 800 a month. *)
Lemma payments_never_exceed_the_budget_witness :
  exists out,
    (Calculator.simulate_payoff_total_budget [0; 1]%nat 800%Q "avalanche"
       2000 default_epsilon_exact pairQ).2
    = Some out
    /\ forall res, out = Normal res ->
         (total_balance [0; 1]%nat pairQ + Calculator.total_interest res
          <= inject_Z (Calculator.months res) * 800
             + total_balance (deepcopy [0; 1]%nat pairQ).2
                 (Calculator.simulate_payoff_total_budget [0; 1]%nat 800%Q
                    "avalanche" 2000 default_epsilon_exact pairQ).1)%Q
         /\ (Calculator.paid_off res = true ->
             "avalanche"%string <> "proportional"%string ->
             (total_balance [0; 1]%nat pairQ + Calculator.total_interest res
              <= inject_Z (Calculator.months res) * 800
                 + default_epsilon_exact)%Q).
Proof.
  assert (Hnd : NoDup [0; 1]%nat).
  { apply (bool_decide_unpack (NoDup [0; 1]%nat)). vm_compute. exact I. }
  assert (Hal : allocated pairQ [0; 1]%nat).
  { repeat first [apply Forall_nil_2 | apply Forall_cons_2; [vm_compute; lia|]]. }
  exact (payments_never_exceed_the_budget pairQ [0; 1]%nat 800%Q "avalanche"
           2000 default_epsilon_exact Hnd Hal
           ltac:(vm_compute; discriminate) ltac:(lia)).
Defined.

(** ** Saving the cards *)

Section SaveCards.
Context {F : Type} `{Number F}.

Lemma clean_rows_spec (rows : list (string * F)) (seen : gset string)
    (cleaned : list (string * F)) :
  (forall k, k ∈ seen <-> k ∈ cleaned.*1) ->
  NoDup cleaned.*1 ->
  match Streamlit.clean_rows rows seen cleaned with
  | inl c =>
      c = cleaned ++ filter (fun r => r.1 <> ""%string) rows
      /\ NoDup c.*1
  | inr k =>
      k <> ""%string
      /\ exists pre r post,
           rows = pre ++ r :: post /\ r.1 = k
           /\ k ∈ (cleaned ++ filter (fun r => r.1 <> ""%string) pre).*1
           /\ NoDup (cleaned ++ filter (fun r => r.1 <> ""%string) pre).*1
  end.
Proof.
  revert seen cleaned. induction rows as [|r rows IH];
    intros seen cleaned Hseen Hnd; cbn [Streamlit.clean_rows].
  - rewrite app_nil_r. now split.
  - rewrite filter_cons.
    destruct (String.eqb r.1 "") eqn:Ee.
    + apply String.eqb_eq in Ee.
      destruct (decide (r.1 <> ""%string)) as [Hne|_]; [contradiction|].
      specialize (IH seen cleaned Hseen Hnd).
      destruct (Streamlit.clean_rows rows seen cleaned) as [c|k];
        [exact IH|].
      destruct IH as (Hk & pre & r' & post & -> & Er & Hin & Hnd').
      split; [exact Hk|]. exists (r :: pre), r', post.
      split; [reflexivity|]. split; [exact Er|].
      rewrite filter_cons.
      now destruct (decide (r.1 <> ""%string)) as [Hne|_].
    + apply String.eqb_neq in Ee.
      destruct (decide (r.1 <> ""%string)) as [_|Hn]; [|contradiction].
      destruct (bool_decide (r.1 ∈ seen)) eqn:Ed.
      * apply bool_decide_eq_true in Ed. split; [exact Ee|].
        exists [], r, rows. split; [reflexivity|]. split; [reflexivity|].
        rewrite filter_nil, app_nil_r. split; [now apply Hseen|exact Hnd].
      * apply bool_decide_eq_false in Ed.
        assert (Hseen' : forall k,
                  k ∈ {[r.1]} ∪ seen <-> k ∈ (cleaned ++ [(r.1, r.2)]).*1).
        { intros k. rewrite elem_of_union, elem_of_singleton, fmap_app,
            elem_of_app, Hseen. cbn. rewrite list_elem_of_singleton. tauto. }
        assert (Hnd' : NoDup (cleaned ++ [(r.1, r.2)]).*1).
        { rewrite fmap_app. apply NoDup_app. split; [exact Hnd|].
          split; [|cbn; apply NoDup_singleton].
          intros k Hk Hk'. cbn in Hk'. apply list_elem_of_singleton in Hk'.
          subst k. apply Ed, Hseen, Hk. }
        specialize (IH _ _ Hseen' Hnd').
        assert (Er : (r.1, r.2) = r) by now destruct r.
        destruct (Streamlit.clean_rows rows ({[r.1]} ∪ seen)
                    (cleaned ++ [(r.1, r.2)])) as [c|k].
        -- rewrite <- app_assoc, Er in IH. exact IH.
        -- destruct IH as (Hk & pre & r' & post & -> & Er' & Hin & Hnd2).
           split; [exact Hk|]. exists (r :: pre), r', post.
           split; [reflexivity|]. split; [exact Er'|].
           rewrite filter_cons.
           destruct (decide (r.1 <> ""%string)) as [_|Hn]; [|contradiction].
           rewrite <- app_assoc, Er in Hin, Hnd2. split; assumption.
Qed.

End SaveCards.

(** X17: the "Save cards" button of [debt_app_streamlit.py].  The handler
    saves exactly the rows with a name that is not empty, in their order,
    and only if there is such a row and no two of them have the same name:
    the names of a saved list are distinct and not empty.  It stops with
    "Please enter at least one card." exactly when every name is empty, and
    with "Duplicate nickname" at the first row whose name, not empty,
    already occurred in a row before it. *)
Theorem save_cards_keeps_distinct_names {F} `{Number F}
    (new_rows : list (string * F)) :
  match Streamlit.save_cards new_rows with
  | Streamlit.Saved cleaned =>
      cleaned = filter (fun r => r.1 <> ""%string) new_rows
      /\ cleaned <> [] /\ NoDup cleaned.*1
      /\ Forall (fun r => r.1 <> ""%string) cleaned
  | Streamlit.NoCards => Forall (fun r => r.1 = ""%string) new_rows
  | Streamlit.DuplicateNickname k =>
      k <> ""%string
      /\ exists pre r post,
           new_rows = pre ++ r :: post /\ r.1 = k /\ k ∈ pre.*1
           /\ NoDup (filter (fun r => r.1 <> ""%string) pre).*1
  end.
Proof.
  unfold Streamlit.save_cards.
  pose proof (clean_rows_spec new_rows ∅ []) as Hspec.
  destruct (Streamlit.clean_rows new_rows ∅ []) as [c|k].
  - destruct Hspec as [-> Hnd]; [intros k; cbn; split; intros Hk| |].
    + now apply elem_of_empty in Hk.
    + now apply elem_of_nil in Hk.
    + constructor.
    + cbn [app] in *.
      destruct (filter (fun r => r.1 <> ""%string) new_rows) as [|r c] eqn:Ef.
      * apply Forall_forall. intros r Hr.
        destruct (decide (r.1 = ""%string)) as [E|Hne]; [exact E|].
        assert (Hin : r ∈ filter (fun r => r.1 <> ""%string) new_rows)
          by (apply list_elem_of_filter; now split).
        rewrite Ef in Hin. now apply elem_of_nil in Hin.
      * split; [reflexivity|]. split; [discriminate|]. split; [exact Hnd|].
        rewrite <- Ef. apply Forall_forall. intros x Hx.
        now apply list_elem_of_filter in Hx as [Hx _].
  - destruct Hspec as (Hk & pre & r & post & E & Er & Hin & Hndpre);
      [intros k'; cbn; split; intros Hk'| |].
    + now apply elem_of_empty in Hk'.
    + now apply elem_of_nil in Hk'.
    + constructor.
    + split; [exact Hk|]. exists pre, r, post.
      split; [exact E|]. split; [exact Er|]. cbn [app] in Hin. split.
      * apply list_elem_of_fmap in Hin as (x & Ex & Hx).
        apply list_elem_of_filter in Hx as [_ Hx].
        apply list_elem_of_fmap. now exists x.
      * exact Hndpre.
Qed.

(** ** The month of the proportional strategy *)

Section ProportionalMonth.
Local Open Scope Q_scope.
Implicit Types (h : heap Q) (l : loc) (cards : list loc).

(** A month of the proportional strategy whose walk runs: the store it
    leaves is the store the walk leaves, in both source files, and the
    walk pays each active card [proportional_pay] of its accrued balance. *)
Lemma month_cycle_proportional cards (b epsilon : Q) m (tip : Q) hist h h1
    mi :
  accrue_interest cards epsilon num_zero h = (h1, mi) ->
  NoDup cards -> 0 <= epsilon ->
  epsilon < py_sum ((fun l => balance (load h1 l))
                      <$> active_cards cards epsilon h1) ->
  exists h2,
    pay_proportional (active_cards cards epsilon h1) b
      (py_sum ((fun l => balance (load h1 l))
                 <$> active_cards cards epsilon h1)) h1
    = (h2,
       Normal ((fun l =>
                  (l, proportional_pay b
                        (py_sum ((fun l => balance (load h1 l))
                                   <$> active_cards cards epsilon h1))
                        (load h1 l)))
                 <$> active_cards cards epsilon h1))
    /\ Calculator.month_cycle cards b "proportional" epsilon m tip hist h
       = (h2, Calculator.Continue (num_add tip mi)
                (hist ++ [Calculator.record_snapshot cards m mi
                            (num_add tip mi) h2]))
    /\ (Streamlit.month_cycle cards b "proportional" epsilon tip h).1 = h2.
Proof.
  intros Eacc Hnd Heps Htot.
  set (active := active_cards cards epsilon h1) in *.
  set (total := py_sum ((fun l => balance (load h1 l)) <$> active)) in *.
  assert (Ht : ~ total == 0) by (intros E; rewrite E in Htot; lra).
  assert (Hnda : NoDup active) by (apply NoDup_filter, Hnd).
  destruct (pay_proportional_walk active b total h1 Hnda Ht) as (W1 & _).
  destruct (pay_proportional active b total h1) as [h2 c] eqn:Ewalk.
  cbn [snd] in W1. subst c.
  exists h2. split; [reflexivity|]. split.
  - unfold Calculator.month_cycle. rewrite Eacc.
    cbn [Calculator.payoff_order String.eqb Ascii.eqb Bool.eqb].
    fold active. fold total.
    rewrite (proj2 (exact_leb_false _ _) Htot), Ewalk. reflexivity.
  - unfold Streamlit.month_cycle.
    pose proof (accrue_interest_store cards epsilon tip num_zero h) as Es.
    rewrite Eacc in Es.
    destruct (accrue_interest cards epsilon tip h) as [h1s ts].
    cbn [fst] in Es. subst h1s.
    cbn [String.eqb Ascii.eqb Bool.eqb].
    fold active. fold total.
    rewrite (proj2 (exact_leb_false _ _) Htot), Ewalk. reflexivity.
Qed.

End ProportionalMonth.

(** C5, in exact arithmetic: a month of the proportional strategy whose
    walk runs (after the accrual the active cards owe more than a tolerance
    that is not negative), over distinct cards.  The month is a complete
    one: it adds a snapshot and the loop of the simulation goes on from the
    store it leaves, which is the store the walk leaves, in both source
    files.  In that store each active card has been paid
    [min(balance, share)] of its accrued balance and no other object is
    changed, so that the total has fallen by the sum of the payments.  If no
    share exceeds its card's balance, the payments add up to
    [min(monthly_budget, total)], which is the whole budget, exactly.  If
    some share is capped by its card's balance, the payments add up to less
    than the budget: the walk is the only payment of the month, the rest is
    not handed to another card.  In binary64, for A (1000 at 20%) and B
    (500 at 10%) after the accrual of month 1 and the budget 100, the two
    payments add up to the budget within the default tolerance. *)
Theorem proportional_allocation_conserves_budget :
  (forall (h : heap Q) (cards : list loc) (b epsilon : Q) (m : Z) (tip : Q)
          (hist : list (Calculator.snapshot Q)),
    NoDup cards ->
    allocated h cards ->
    let h1 := (accrue_interest cards epsilon num_zero h).1 in
    let active := active_cards cards epsilon h1 in
    let total := py_sum ((fun l => balance (load h1 l)) <$> active) in
    (0 <= epsilon)%Q ->
    (epsilon < total)%Q ->
    let month :=
      Calculator.month_cycle cards b "proportional" epsilon m tip hist h in
    let pays :=
      (fun l => (l, proportional_pay b total (load h1 l))) <$> active in
    (exists tip' snap,
        month.2 = Calculator.Continue tip' (hist ++ [snap])
        /\ Calculator.snap_month snap = m
        /\ Calculator.snap_total_balance snap = total_balance cards month.1
        /\ forall fuel mm,
             num_ltb epsilon (total_balance cards h) = true ->
             m <= mm ->
             Calculator.budget_loop (S fuel) cards b "proportional" mm
               epsilon (m - 1) tip hist h
             = Calculator.budget_loop fuel cards b "proportional" mm epsilon
                 m tip' (hist ++ [snap]) month.1)
    /\ pay_proportional active b total h1 = (month.1, Normal pays)
    /\ (Streamlit.month_cycle cards b "proportional" epsilon tip h).1
       = month.1
    /\ (forall x, x ∈ active ->
          balance (load month.1 x)
          = (balance (load h1 x) - proportional_pay b total (load h1 x))%Q)
    /\ (forall x, x ∉ active -> load month.1 x = load h1 x)
    /\ (total_balance cards month.1
        == total_balance cards h1 - paid pays)%Q
    /\ (Forall (fun l => (proportional_share b total (load h1 l)
                          <= balance (load h1 l))%Q) active ->
        (paid pays == py_min b total)%Q
        /\ (paid pays == b)%Q
        /\ (total_balance cards month.1 == total_balance cards h1 - b)%Q)
    /\ (Exists (fun l => (balance (load h1 l)
                          < proportional_share b total (load h1 l))%Q)
          active ->
        (paid pays < b)%Q
        /\ (total_balance cards h1 - b < total_balance cards month.1)%Q))
  /\ (let h1 := (accrue_interest [0; 1]%nat default_epsilon_binary64 0%float
                   pair64).1 in
      let total := py_sum ((fun l => balance (load h1 l)) <$> [0; 1]%nat) in
      match (pay_proportional [0; 1]%nat 100%float total h1).2 with
      | Normal pays =>
          PrimFloat.leb
            (PrimFloat.abs (paid pays - py_min 100%float total)%float)
            default_epsilon_binary64 = true
      | Raise _ => False
      end).
Proof.
  split; [|vm_compute; reflexivity].
  intros h cards b epsilon m tip hist Hnd Hal. cbn zeta.
  pose proof (length_accrue_interest cards epsilon num_zero h) as Hlen.
  destruct (accrue_interest cards epsilon num_zero h) as [h1 mi] eqn:Eacc.
  cbn [fst snd] in *.
  intros Heps Htot.
  destruct (month_cycle_proportional cards b epsilon m tip hist h h1 mi Eacc
              Hnd Heps Htot) as (h2 & Ewalk & Ecalc & Estream).
  rewrite Ecalc, Estream, Ewalk. cbn [fst snd].
  set (active := active_cards cards epsilon h1) in *.
  set (total := py_sum ((fun l => balance (load h1 l)) <$> active)) in *.
  set (pays := (fun l => (l, proportional_pay b total (load h1 l)))
                 <$> active) in *.
  assert (Ht : ~ (total == 0)%Q) by (intros E; rewrite E in Htot; lra).
  assert (Hnda : NoDup active) by (apply NoDup_filter, Hnd).
  assert (Hal1 : allocated h1 cards).
  { unfold allocated in *. now rewrite Hlen. }
  assert (Hin : Forall (fun l => l ∈ cards) active).
  { apply Forall_forall. intros x Hx.
    now apply list_elem_of_filter in Hx as [_ Hx]. }
  destruct (pay_proportional_walk active b total h1 Hnda Ht) as (_ & W2 & W3).
  pose proof (pay_proportional_total cards active b total h1 Hnd Hal1 Hnda
                Hin Ht) as Wtot.
  rewrite Ewalk in W2, W3, Wtot. cbn [fst] in W2, W3, Wtot.
  assert (Hpaid : paid pays
                  = py_sum ((fun l => proportional_pay b total (load h1 l))
                              <$> active)).
  { unfold paid, pays. now rewrite <- list_fmap_compose. }
  assert (Hshares : (py_sum ((fun l => proportional_share b total (load h1 l))
                               <$> active) == b)%Q).
  { change (fun l => proportional_share b total (load h1 l))
      with (proportional_share b total ∘ load h1).
    rewrite list_fmap_compose. apply proportional_shares_add_up; [exact Ht|].
    rewrite <- list_fmap_compose. reflexivity. }
  assert (Etot : (total_balance cards h2
                  == total_balance cards h1 - paid pays)%Q).
  { rewrite Hpaid. exact Wtot. }
  split; [|split; [reflexivity|split; [reflexivity|split;
    [|split; [exact W2|split; [exact Etot|split]]]]]].
  - eexists _, _. split; [reflexivity|]. split; [reflexivity|].
    split; [reflexivity|].
    intros fuel mm Hloop Hm. cbn [Calculator.budget_loop]. rewrite Hloop.
    replace (m - 1 + 1) with m by lia.
    replace (m >? mm) with false
      by (symmetry; rewrite Z.gtb_ltb; apply Z.ltb_ge; lia).
    rewrite Ecalc. reflexivity.
  - intros x Hx. apply W3; [exact Hx|].
    apply list_elem_of_filter in Hx as [_ Hx].
    exact (proj1 (Forall_forall _ _) Hal1 x Hx).
  - intros Hfit.
    assert (Eb : (paid pays == b)%Q).
    { rewrite Hpaid.
      pose proof (py_sum_eq
                    (fun l => proportional_pay b total (load h1 l))
                    (fun l => proportional_share b total (load h1 l)) active)
        as Hsum.
      rewrite Hsum; [exact Hshares|].
      eapply Forall_impl; [exact Hfit|].
      intros l Hl. now apply proportional_pay_uncapped. }
    assert (Hle : (b <= total)%Q).
    { pose proof (py_sum_le
                    (fun l => proportional_share b total (load h1 l))
                    (fun l => balance (load h1 l)) active Hfit) as Hsum.
      fold total in Hsum. lra. }
    assert (Em : py_min b total = b).
    { unfold py_min.
      now rewrite (proj2 (exact_ltb_false total b) Hle). }
    rewrite Em. split; [exact Eb|split; [exact Eb|]].
    rewrite Etot. lra.
  - intros Hcap.
    pose proof (py_sum_lt
                  (fun l => proportional_pay b total (load h1 l))
                  (fun l => proportional_share b total (load h1 l)) active)
      as Hsum.
    assert (Hlt : (py_sum ((fun l => proportional_pay b total (load h1 l))
                             <$> active)
                   < py_sum ((fun l => proportional_share b total (load h1 l))
                               <$> active))%Q).
    { apply Hsum.
      - apply Forall_forall. intros l _. apply proportional_pay_le_share.
      - eapply Exists_impl; [exact Hcap|].
        intros l Hl. now apply proportional_pay_capped. }
    rewrite <- Hpaid in Hlt. split; [lra|]. rewrite Etot. lra.
Qed.

(** A and B with the budget 100, in exact arithmetic: after the accrual
    they owe 3050/3 and 6050/12, no share is capped, and the payments of
    the month add up to 100. *)
Lemma proportional_allocation_conserves_budget_witness :
  let h1 := (accrue_interest [0; 1]%nat default_epsilon_exact 0%Q pairQ).1 in
  let month :=
    Calculator.month_cycle [0; 1]%nat 100%Q "proportional"
      default_epsilon_exact 1 0%Q [] pairQ in
  (total_balance [0; 1]%nat month.1 == total_balance [0; 1]%nat h1 - 100)%Q
  /\ (total_balance [0; 1]%nat h1 == 18250 # 12)%Q.
Proof.
  cbn zeta. split; [|vm_compute; reflexivity].
  destruct proportional_allocation_conserves_budget as [Hexact _].
  destruct (Hexact pairQ [0; 1]%nat 100%Q default_epsilon_exact 1 0%Q [])
    as (_ & _ & _ & _ & _ & _ & Hfit & _).
  - apply (bool_decide_unpack (NoDup [0; 1]%nat)). vm_compute. exact I.
  - repeat constructor.
  - unfold default_epsilon_exact. lra.
  - vm_compute. reflexivity.
  - destruct Hfit as (_ & _ & E).
    + repeat constructor; vm_compute; discriminate.
    + exact E.
Defined.

(** C5, counterexample: in binary64 the payments of such a month need not
    add up to the budget within epsilon.  A owes 100 billions and B 600
    billions at 0%, the budget is 100 billions and epsilon the default
    1e-6: after the accrual both cards are active, no share exceeds its
    card's balance, and the two payments of the month add up to
    99999999999.999985, which is below the budget by more than epsilon. *)
Lemma proportional_payments_miss_the_budget :
  let b := 100000000000%float in
  let h1 := (accrue_interest [0; 1]%nat default_epsilon_binary64 0%float
               large64).1 in
  let active := active_cards [0; 1]%nat default_epsilon_binary64 h1 in
  let total := py_sum ((fun l => balance (load h1 l)) <$> active) in
  let month :=
    Calculator.month_cycle [0; 1]%nat b "proportional"
      default_epsilon_binary64 1 0%float [] large64 in
  active = [0; 1]%nat
  /\ PrimFloat.ltb default_epsilon_binary64 total = true
  /\ forallb (fun l => PrimFloat.leb (proportional_share b total (load h1 l))
                         (balance (load h1 l))) active = true
  /\ exists pays tip hist,
       pay_proportional active b total h1 = (month.1, Normal pays)
       /\ month.2 = Calculator.Continue tip hist
       /\ PrimFloat.ltb (paid pays) (py_min b total) = true
       /\ PrimFloat.ltb default_epsilon_binary64
            (PrimFloat.abs (paid pays - py_min b total)%float) = true.
Proof.
  cbn zeta. split; [vm_compute; reflexivity|].
  split; [vm_compute; reflexivity|]. split; [vm_compute; reflexivity|].
  eexists _, _, _. split; [vm_compute; reflexivity|].
  split; [vm_compute; reflexivity|].
  split; vm_compute; reflexivity.
Qed.

(** ** The order of payment in binary64 *)

Section WalkOfTwo.
Context {F : Type} `{Number F}.
Implicit Types (h : heap F) (l : loc) (cards : list loc).





End WalkOfTwo.

Section OrderingBinary64.
Implicit Types (h : heap float) (l : loc) (cards : list loc).













End OrderingBinary64.


